(* ===== verification/_CoqProject ===== *)
-Q . S2P
Prelude.v
JsString.v
JsValue.v
Json.v
JsonParse.v
Dates.v
Sort.v
IsoDate.v
Transport.v
Server.v
View.v
Handlers.v
Session.v
Refinement.v
Progress.v
Requests.v
Consistency.v
Sync.v
Fifo.v
Race.v
