(* ===== verification/Prelude.v ===== *)
(** * A verification development for the to-do task client [src/task/app.js]

  ** The program

  [src/task/app.js] is a browser client for a remote "tasks" collection
  (a MockAPI REST resource at [API_URL]).  Its parts are:
  - the transport wrapper [apiFetch] (lines 10-25): builds [API_URL + path],
    calls [fetch], turns a non-2xx status into [Error("HTTP <status> - <body>")],
    parses a 2xx body with [res.json()], and on any failure logs
    ["API error:"], raises an [alert] and rethrows;
  - the view renderer [createTaskNode] (lines 27-66): builds the [<li>] of a
    task (title with the [completed] class, toggle and delete buttons whose
    click handlers close over the task object and the [<li>]);
  - four asynchronous action handlers: [loadTasks] (71-85), [addTask]
    (88-109), [toggleTask] (112-128), [deleteTask] (131-140);
  - the event wiring and start-up (143-153).
  There is no model object: the [tasksList] element (its children) and the
  task objects captured by the click handlers are the whole state.

  ** How the development models it (files in dependency order)

  - [Prelude] (this file): the [outcome] exception monad (a [Done] value
    or a [Raised] JavaScript exception) with stdpp's [≫=], its rewriting
    database [todo_rw], the [todo] hint database, the tactics [invc] and
    [outcome_simpl], and generic lemmas on lists and sorted lists.
  - [JsString]: [String.prototype.trim] (ASCII white space) and
    Number::toString on integers, including the exponent form from 1e21.
  - [JsValue]: the values the code meets ([undefined], [null], booleans,
    numbers, strings, arrays, objects as ordered property lists) and the
    abstract operations it applies: ToBoolean [truthy], ToString,
    [get_prop] (throws on [undefined]/[null]), [set_prop], object spread.
  - [Json]: [JSON.stringify] of lines 99 and 118 (QuoteJSONString,
    SerializeJSONObject and SerializeJSONArray) and a decoder of JSON
    string literals.
  - [JsonParse]: [JSON.parse] (ECMA-404 grammar, ECMA-262 §25.5.1) as
    [json_parse], the parse of [res.json()] at line 19, by recursive
    descent on fuel the length of the text; the three-way result says
    whether the text is JSON, is not ([SyntaxError]), or holds JSON this
    model does not represent.
  - [Dates]: [new Date(v)] of line 80 as [date_value], TimeClip applied
    to every branch; [Date.parse] is a parameter [date_parse] of the
    Sections that use it.
  - [Sort]: [tasks.sort(cmp)] of line 80: SortCompare (NaN counts as 0,
    [undefined] elements last) and a stable insertion sort [js_sort].
  - [IsoDate]: [Date.parse] on the Date Time String Format
    ([js_date_parse], the instance of [date_parse] for the API's
    timestamps) with the specification's day arithmetic; the local time
    zone and the heuristics for other strings are its parameters.
  - [Transport]: [apiFetch] (lines 10-25) as [api_request] (the
    synchronous part, its body the [JSON.stringify] text) and
    [api_complete] (the network's answer to the caller's result plus the
    console and alert effects), behind the interface [ApiTransport] whose
    laws [ApiTransportLaws] the event loop is proved against; [apiFetch]
    is its instance.
  - [Server]: the remote MockAPI [tasks] resource of the specification's
    section 6 (not code of the repository, written from the
    specification): typed tasks with a counter for ids and a clock for
    [createdAt], and [serve], its answer to each of the four requests.
  - [View]: [createTaskNode] (lines 27-66) as [create_task_node], the
    [tasksList] children ([child]) and the three placeholders.
  - [Handlers]: the page state [page] (input value, [tasksList] children,
    a heap [pg_nodes] of created [<li>] nodes holding the task objects
    their click handlers share, pending requests, effect log) and every
    handler split at its [await] into [*_start] and [*_resume];
    [startup] is lines 149-153.
  - [Session]: the browser's event loop as the step relation [step]
    (user events and the settling of any pending request, in any order),
    [reachable] pages from [startup], and the page invariant [wf_page].
  - [Refinement]: an abstract registry of the rows shown (row id and
    task) with its steps [astep], and the
    forward simulation of [step].
  - [Progress]: network answers alone ([settles]) and draining the
    requests in flight ([drain]).
  - [Requests]: the four calls of the REST API ([api_call]) and the
    growth of the effect log ([grows]).
  - [Consistency]: the page against the resource.  It holds the
    resource's invariant [server_ok], the relation [view_of] between the
    rows shown and the resource's tasks, and [nodes_ok] on the node
    heap; [consistent] is the three together.  It also holds one round
    per request the code sends ([round_add], [round_toggle],
    [round_delete], [round_load]): handler start, [serve], then handler
    resumption.
  - [Sync]: client and resource composed in synchronous sessions: every
    request is answered by [serve] before the next event ([sync_event],
    [sync_run]).
  - [Fifo]: client and resource over a reliable network that keeps
    order, the user acting while requests are in flight.  Its state
    [net] is the page shown, the resource and the queue of answers on
    their way; [flush] delivers the queue.
  - [Race]: the same over a network that serves and delivers in any
    order ([race]).

  ** What the theorems show

  - Handlers ([Handlers.v]): the result of each handler on each branch:
    load renders the sorted tasks, or nothing on an empty answer; add is
    a no-op on blank input, POSTs the trimmed title as JSON text,
    inserts the created row first; toggle PUTs the spread task with
    [completed] negated and adopts the server's value, the title's
    class being flipped instead when the answer has no [completed]
    ([classList.toggle] with an [undefined] force); delete asks first and removes exactly its row.  Failures
    leave the page unchanged but for the console line.
  - Sorting ([Sort.v], [IsoDate.v]): [js_sort] is the only list meeting
    ECMAScript's contract for the comparator (sorted, stable permutation)
    when every key is a number; tasks without [createdAt] count as the
    epoch; with [Date.parse] of the format, canonical timestamps parse
    back to their instant whatever the time zone, the day arithmetic is
    monotone, and a later task is shown above an earlier one; a
    timestamp without offset makes the order depend on the time zone.
  - Strings and encodings ([JsString.v], [Json.v], [Transport.v],
    [Requests.v]): [trim] is characterised uniquely (for ASCII white
    space); the POST body is the exact text of the payload; the HTTP
    error message gives back the status and the body text; [JSON.parse]
    of the text [JSON.stringify] writes gives back the value (integers
    up to 2^53, [undefined] members dropped).
  - The event loop ([Session.v]): every reachable page satisfies
    [wf_page]; over any lawful transport a user event never alerts and a
    settled request alerts exactly once iff the call failed; and the
    interleavings the code handles badly, as reachable sessions.
  - Requests ([Requests.v]): every request sent is one of the four API
    calls; an HTTP failure's effects come in
    a fixed order.
  - Progress ([Progress.v]): answers alone terminate, and from any
    reachable page, any order of answers settles every request.
  - Refinement ([Refinement.v]): every step of a reachable page is a
    step of the abstract registry.
  - Composition ([Consistency.v], [Sync.v], [Fifo.v], [Race.v]).
    Each request round keeps the page consistent with the resource,
    also when it starts from a node whose task object is stale in
    [completed] or that the resource no longer has (answered 404).  In
    synchronous sessions the rows are always the resource's tasks,
    newest first.  Over an in-order network, in every reachable state
    the page that the queued answers lead to is consistent with the
    resource, and delivering them reaches a state with nothing in flight
    whose rows are the resource's tasks.  The proof rests on answers
    commuting with user events on rows and nodes.  When the network
    reorders, an add during the start-up load can leave a task shown
    twice with nothing in flight.

  ** Bounds and choices

  Every recursion but [json_parse]'s is structural; [json_parse] takes
  fuel one more than the length of the text, one unit of which
  each nested value spends while consuming at least one character: on
  the texts [JSON.stringify] writes the parse is proved to succeed with
  this fuel ([json_parse_stringify] has no fuel hypothesis); the
  termination of the event loop's answers is proved by the measure
  "number of requests in flight".  Numbers are integers ([Z]): the code
  only compares [createdAt] dates and prints ids and HTTP statuses, and
  TimeClip bounds dates to 8.64e15 ms; the comparator's difference is
  computed exactly, and only its sign matters.  Request identifiers and
  node identifiers are [nat] counters that are never reused.  Strings
  are byte strings: [trim] knows the ASCII white space only, and
  [JSON.stringify] copies bytes from 0x80 up.  [Date.parse] checks the
  day of the month against 01-31 (the format's element range), and
  [MakeDay] carries a day past the month's end into the next month.

  ** Not modelled

  The DOM's rendering and styling (only the state the script reads back
  is kept).  [fetch] itself (HTTP, CORS, timing): its answers are
  inputs of the concurrent event loop [Session.step], any answer in any
  order.  In [Sync], [Fifo] and [Race] the answers are [serve]'s; the
  resource and the network disciplines are modelled from the
  specification (sections 5 and 6), not from code, and these
  compositions leave out network failures, which [Session] covers. [JSON.parse] of fractions,
  exponents and integers beyond 2^53 and of [\u] escapes outside ASCII,
  which [json_parse] reports as unsupported rather than guessing a value;
  the ordering of integer-like keys in parsed objects (the resource's
  keys are not integer-like);
  [Date.parse] on strings outside the Date Time String Format and the
  local time zone (parameters: both are implementation-defined),
  non-integral numbers, named properties on arrays, lone UTF-16
  surrogates in strings.
*)

From Stdlib Require Export ZArith String List Lia Sorted.
From stdpp Require Export base list.

Declare Scope todo_scope.
Delimit Scope todo_scope with todo.

(** ** The exception monad

  A JavaScript computation that may throw: [Done a] returns [a],
  [Raised e] throws [e]. *)
Inductive outcome (E A : Type) : Type :=
| Done (a : A)
| Raised (e : E).
Arguments Done {E A} a.
Arguments Raised {E A} e.

#[export] Instance outcome_ret E : MRet (outcome E) := λ A a, Done a.
#[export] Instance outcome_bind E : MBind (outcome E) :=
  λ A B f m, match m with Done a => f a | Raised e => Raised e end.

(** JavaScript's [+] on strings. *)
Infix "+++" := String.append (at level 60, right associativity) : todo_scope.

Create HintDb todo discriminated.
Create Rewrite HintDb todo_rw.

Section outcome_lemmas.
Context {E A B : Type}.

Lemma bind_Done (a : A) (f : A -> outcome E B) : (Done a ≫= f) = f a.
Proof. reflexivity. Qed.

Lemma bind_Raised (e : E) (f : A -> outcome E B) : (Raised e ≫= f) = Raised e.
Proof. reflexivity. Qed.

Lemma bind_eq_Done (m : outcome E A) (f : A -> outcome E B) b :
  (m ≫= f) = Done b <-> exists a, m = Done a /\ f a = Done b.
Proof.
  destruct m as [a|e]; simpl; split.
  - eauto.
  - intros (? & [= ->] & ?); done.
  - discriminate.
  - intros (? & ? & _); discriminate.
Qed.

Lemma bind_eq_Raised (m : outcome E A) (f : A -> outcome E B) e :
  (m ≫= f) = Raised e <-> m = Raised e \/ exists a, m = Done a /\ f a = Raised e.
Proof.
  destruct m as [a|e']; simpl; split.
  - eauto.
  - intros [? | (? & [= ->] & ?)]; done.
  - intros [= ->]; left; reflexivity.
  - intros [? | (? & ? & _)]; congruence.
Qed.
End outcome_lemmas.

#[export] Hint Rewrite @bind_Done @bind_Raised : todo_rw.

(** ** Shared tactics *)

(** Invert a hypothesis and substitute what it determines. *)
Ltac invc H := inversion H; subst; clear H.

(** Simplify binds of known outcomes and split equalities of constructors. *)
Ltac outcome_simpl :=
  repeat first
    [ progress autorewrite with todo_rw in *
    | match goal with
      | H : Done _ = Done _ |- _ => injection H as H
      | H : Raised _ = Raised _ |- _ => injection H as H
      | H : Done _ = Raised _ |- _ => discriminate H
      | H : Raised _ = Done _ |- _ => discriminate H
      end ].

(** ** Generic list lemmas *)

Lemma filter_id_in {A} (f : A -> bool) (l : list A) :
  (forall x, In x l -> f x = true) -> List.filter f l = l.
Proof. intros H. apply forallb_filter_id, forallb_forall, H. Qed.

Lemma filter_nil_in {A} (f : A -> bool) (l : list A) :
  (forall x, In x l -> f x = false) -> List.filter f l = [].
Proof.
  induction l as [|x l IH]; intros H; simpl; [done|].
  rewrite H by (left; done). apply IH. intros y Hy. apply H. by right.
Qed.

Lemma Forall_mp {A} (P Q : A -> Prop) (l : list A) :
  Forall (fun x => P x -> Q x) l -> Forall P l -> Forall Q l.
Proof. induction 1; inversion 1; constructor; auto. Qed.

Lemma Forall_list_filter {A} (P : A -> Prop) (f : A -> bool) (l : list A) :
  Forall P l -> Forall P (List.filter f l).
Proof. induction 1; simpl; [constructor|]. destruct (f _); auto. Qed.

Lemma filter_rev {A} (f : A -> bool) (l : list A) : List.filter f (rev l) = rev (List.filter f l).
Proof.
  induction l as [|x l IH]; simpl; [done|]. rewrite List.filter_app, IH. simpl.
  destruct (f x); simpl; [done|by rewrite app_nil_r].
Qed.

Lemma NoDup_map_filter {A B} (g : A -> B) (f : A -> bool) (l : list A) :
  NoDup (map g l) -> NoDup (map g (List.filter f l)).
Proof.
  induction l as [|x l IH]; simpl; [done|]. intros Hnd. apply NoDup_cons in Hnd as [Hx Hnd].
  destruct (f x); simpl; [|auto]. apply NoDup_cons. split; [|auto].
  rewrite list_elem_of_In in Hx |- *. intros Hin. apply Hx.
  apply in_map_iff in Hin as (y & <- & Hin). apply filter_In in Hin as [Hin _]. by apply in_map.
Qed.

Lemma NoDup_map_inj_in {A B} (f : A -> B) (l : list A) x y :
  NoDup (map f l) -> In x l -> In y l -> f x = f y -> x = y.
Proof.
  induction l as [|z l IH]; simpl; [done|]. intros Hnd Hx Hy E. apply NoDup_cons in Hnd as [Hz Hnd].
  destruct Hx as [<-|Hx], Hy as [<-|Hy]; auto.
  - exfalso. apply Hz. rewrite E. apply list_elem_of_In, in_map, Hy.
  - exfalso. apply Hz. rewrite <- E. apply list_elem_of_In, in_map, Hx.
Qed.

Lemma StronglySorted_app_l {A} (R : A -> A -> Prop) (l1 l2 : list A) :
  StronglySorted R (l1 ++ l2) -> StronglySorted R l1.
Proof.
  induction l1 as [|x l1 IH]; simpl; [constructor|]. intros Hs.
  apply StronglySorted_inv in Hs as [Hs Hx]. constructor; [auto|].
  rewrite List.Forall_forall in Hx |- *. intros y Hy. apply Hx, in_or_app. by left.
Qed.

Lemma StronglySorted_map {A B} (R : B -> B -> Prop) (f : A -> B) (l : list A) :
  StronglySorted R (map f l) -> StronglySorted (fun a b => R (f a) (f b)) l.
Proof.
  induction l as [|x l IH]; simpl; intros Hs; [constructor|].
  apply StronglySorted_inv in Hs as [Hs Hx]. constructor; [auto|]. rewrite List.Forall_map in Hx. exact Hx.
Qed.

Lemma StronglySorted_map_2 {A B} (R : B -> B -> Prop) (f : A -> B) (l : list A) :
  StronglySorted (fun a b => R (f a) (f b)) l -> StronglySorted R (map f l).
Proof.
  induction l as [|x l IH]; simpl; intros Hs; [constructor|].
  apply StronglySorted_inv in Hs as [Hs Hx]. constructor; [auto|]. by rewrite List.Forall_map.
Qed.

Lemma StronglySorted_filter_app {A B} (R : B -> B -> Prop) (g : A -> B) (f : A -> bool) (l : list A) m :
  StronglySorted R (map g l ++ m) -> StronglySorted R (map g (List.filter f l) ++ m).
Proof.
  induction l as [|x l IH]; simpl; [done|]. intros Hs. apply StronglySorted_inv in Hs as [Hs Hx].
  destruct (f x); simpl; [|auto]. constructor; [auto|].
  rewrite List.Forall_forall in Hx |- *. intros y Hy. apply Hx.
  apply in_app_or in Hy as [Hy|Hy]; apply in_or_app; [left|by right].
  apply in_map_iff in Hy as (z & <- & Hz). apply filter_In in Hz as [Hz _]. by apply in_map.
Qed.

Lemma Forall2_in_l {A B} (R : A -> B -> Prop) l1 l2 x :
  Forall2 R l1 l2 -> In x l1 -> exists y, In y l2 /\ R x y.
Proof.
  induction 1 as [|a b l1 l2 Hab _ IH]; simpl; [done|].
  intros [->|Hx]; [eauto|]. destruct (IH Hx) as (y & ? & ?); eauto.
Qed.

Lemma omap_ext_in {A B} (f g : A -> option B) (l : list A) :
  (forall x, x ∈ l -> f x = g x) -> omap f l = omap g l.
Proof.
  intros H. apply list_omap_ext. induction l as [|x l IH]; constructor.
  - apply H. by apply elem_of_cons; left.
  - apply IH. intros y Hy. apply H. by apply elem_of_cons; right.
Qed.

Lemma omap_cons {A B} (f : A -> option B) (x : A) (l : list A) :
  omap f (x :: l) = match f x with Some y => y :: omap f l | None => omap f l end.
Proof. reflexivity. Qed.

Lemma omap_map_pointwise {A B C} (f : A -> option C) (g : A -> option B) (h : B -> C) (l : list A) :
  (forall x, f x = h <$> g x) -> omap f l = map h (omap g l).
Proof.
  intros H. induction l as [|x l IH]; [done|]. rewrite !omap_cons, H.
  destruct (g x); simpl; by rewrite IH.
Qed.

Lemma strongly_sorted_lookup {A} (R : A -> A -> Prop) (l : list A) i j x y :
  StronglySorted R l -> i < j -> l !! i = Some x -> l !! j = Some y -> R x y.
Proof.
  revert i j. induction l as [|a l IH]; intros i j Hs Hij Hi Hj; [done|].
  apply StronglySorted_inv in Hs as [Hs Hall].
  destruct i as [|i], j as [|j]; simpl in *; try lia.
  - injection Hi as <-. rewrite List.Forall_forall in Hall. apply Hall.
    by apply list_elem_of_In, list_elem_of_lookup_2 with j.
  - apply (IH i j); auto. lia.
Qed.
