(* ===== verification/JsString.v ===== *)
(** * JavaScript string operations used by [src/task/app.js]

  [String.prototype.trim] (line 89, [taskInput.value.trim()]) and the
  decimal [Number::toString] used wherever a number meets string
  concatenation (the HTTP status in [apiFetch], line 16; a numeric task id
  in ['/' + task.id], lines 115 and 134).  Strings are byte strings: the
  white space recognised is the ASCII part of ECMAScript's WhiteSpace and
  LineTerminator sets. *)

From S2P Require Import Prelude.
From Stdlib Require Import Ascii DecimalString DecimalZ.
Local Open Scope string_scope.
Local Open Scope todo_scope.

Module JsString.

(** TAB, LF, VT, FF, CR and SPACE. *)
Definition is_ws (c : ascii) : bool :=
  match nat_of_ascii c with
  | 9 | 10 | 11 | 12 | 13 | 32 => true
  | _ => false
  end.

Fixpoint all_ws (s : string) : bool :=
  match s with
  | EmptyString => true
  | String c s' => is_ws c && all_ws s'
  end.

(** TrimString(S, start): drop the leading white space. *)
Fixpoint trim_start (s : string) : string :=
  match s with
  | EmptyString => EmptyString
  | String c s' => if is_ws c then trim_start s' else s
  end.

(** TrimString(S, end): drop the trailing white space. *)
Fixpoint trim_end (s : string) : string :=
  match s with
  | EmptyString => EmptyString
  | String c s' =>
      let t := trim_end s' in
      if is_ws c && String.eqb t EmptyString then EmptyString else String c t
  end.

(** [String.prototype.trim] = TrimString(S, start+end). *)
Definition trim (s : string) : string := trim_end (trim_start s).

Definition first_char (s : string) : option ascii :=
  match s with EmptyString => None | String c _ => Some c end.

Fixpoint last_char (s : string) : option ascii :=
  match s with
  | EmptyString => None
  | String c EmptyString => Some c
  | String _ s' => last_char s'
  end.

Definition ws_opt (o : option ascii) : bool :=
  match o with Some c => is_ws c | None => false end.

(** Neither end of [t] is white space. *)
Definition no_ws_edges (t : string) : bool :=
  negb (ws_opt (first_char t)) && negb (ws_opt (last_char t)).

(** [Number::toString] on an integer (ECMA-262 §6.1.6.1.20): plain decimal
    below [10^21], exponent form [d.ddde+n] from [10^21] on. *)
(** [pre] at the head of [s], and what follows it. *)
Fixpoint strip_prefix (pre s : string) : option string :=
  match pre, s with
  | EmptyString, _ => Some s
  | String c pre', String d s' => if Ascii.eqb c d then strip_prefix pre' s' else None
  | String _ _, EmptyString => None
  end.

Fixpoint space_free (s : string) : bool :=
  match s with
  | EmptyString => true
  | String c s' => negb (Ascii.eqb c " ") && space_free s'
  end.

Definition decimal (z : Z) : string := NilEmpty.string_of_int (Z.to_int z).

Fixpoint strip_trailing_zeros (s : string) : string :=
  match s with
  | EmptyString => EmptyString
  | String c s' =>
      let t := strip_trailing_zeros s' in
      if (Ascii.eqb c "0") && String.eqb t EmptyString then EmptyString
      else String c t
  end.

Definition exponent_form (z : Z) : string :=
  let ds := decimal (Z.abs z) in
  let sig := strip_trailing_zeros ds in
  let mant :=
    match sig with
    | EmptyString => "0"
    | String d EmptyString => String d EmptyString
    | String d rest => String d ("." +++ rest)
    end in
  (if (z <? 0)%Z then "-" else "") +++ mant +++ "e+" +++
  decimal (Z.of_nat (String.length ds) - 1).

Definition number_to_string (z : Z) : string :=
  if (Z.abs z <? 10 ^ 21)%Z then decimal z else exponent_form z.

(** ** Trim *)

Lemma string_app_nil_r s : s ++ EmptyString = s.
Proof. induction s as [|c s IH]; simpl; congruence. Qed.

Lemma strip_prefix_app pre s : strip_prefix pre (pre ++ s) = Some s.
Proof. induction pre as [|c pre IH]; simpl; [done|]. by rewrite Ascii.eqb_refl. Qed.

Lemma string_app_assoc s1 s2 s3 : s1 ++ (s2 ++ s3) = (s1 ++ s2) ++ s3.
Proof. induction s1 as [|c s1 IH]; simpl; congruence. Qed.

Lemma string_length_app s1 s2 : String.length (s1 ++ s2) = String.length s1 + String.length s2.
Proof. induction s1 as [|c s1 IH]; simpl; congruence. Qed.

Lemma all_ws_app s1 s2 : all_ws (s1 ++ s2) = all_ws s1 && all_ws s2.
Proof. induction s1 as [|c s1 IH]; simpl; [done|]. rewrite IH. apply andb_assoc. Qed.

Lemma trim_end_all_ws s : all_ws s = true -> trim_end s = EmptyString.
Proof.
  induction s as [|c s IH]; simpl; [done|].
  intros [Hc Hs]%andb_prop. rewrite IH by done. by rewrite Hc.
Qed.

Lemma trim_end_empty_iff s : trim_end s = EmptyString <-> all_ws s = true.
Proof.
  split; [|apply trim_end_all_ws].
  induction s as [|c s IH]; simpl; [done|].
  destruct (is_ws c), (String.eqb_spec (trim_end s) EmptyString); simpl;
    try discriminate; auto.
Qed.

Lemma trim_start_app_ws pre u : all_ws pre = true -> trim_start (pre ++ u) = trim_start u.
Proof.
  induction pre as [|c pre IH]; simpl; [done|].
  intros [Hc Hp]%andb_prop. rewrite Hc. auto.
Qed.

Lemma trim_start_all_ws s : all_ws s = true -> trim_start s = EmptyString.
Proof.
  induction s as [|c s IH]; simpl; [done|].
  intros [Hc Hs]%andb_prop. rewrite Hc. auto.
Qed.

Lemma trim_start_no_ws u : ws_opt (first_char u) = false -> trim_start u = u.
Proof. destruct u as [|c u]; simpl; [done|]. by intros ->. Qed.

Lemma trim_end_app_ws u post : all_ws post = true -> trim_end (u ++ post) = trim_end u.
Proof.
  intros Hp. induction u as [|c u IH]; simpl.
  - by apply trim_end_all_ws.
  - by rewrite IH.
Qed.

Lemma trim_end_no_ws u : ws_opt (last_char u) = false -> trim_end u = u.
Proof.
  induction u as [|c u IH]; simpl; [done|].
  destruct u as [|c' u'].
  - simpl. by intros ->.
  - intros H. rewrite IH by done. rewrite andb_false_r. done.
Qed.

Lemma trim_start_split s : exists pre, s = pre ++ trim_start s /\ all_ws pre = true.
Proof.
  induction s as [|c s (pre & Hs & Hpre)]; simpl.
  - by exists EmptyString.
  - destruct (is_ws c) eqn:Hc.
    + exists (String c pre). simpl. rewrite Hc, Hpre. split; [congruence|done].
    + by exists EmptyString.
Qed.

Lemma trim_end_split s : exists post, s = trim_end s ++ post /\ all_ws post = true.
Proof.
  induction s as [|c s (post & Hs & Hpost)]; simpl.
  - by exists EmptyString.
  - destruct (is_ws c && String.eqb (trim_end s) EmptyString) eqn:E.
    + apply andb_prop in E as [Hc Ht%String.eqb_eq].
      rewrite Ht in Hs. exists (String c post). simpl. rewrite Hc, Hpost.
      split; [simpl in Hs; congruence|done].
    + exists post. simpl. split; [congruence|done].
Qed.

Lemma trim_start_first s : ws_opt (first_char (trim_start s)) = false.
Proof. induction s as [|c s IH]; simpl; [done|]. destruct (is_ws c) eqn:Hc; simpl; auto. Qed.

Lemma last_char_cons c s : s <> EmptyString -> last_char (String c s) = last_char s.
Proof. destruct s; [done|]. reflexivity. Qed.

Lemma trim_end_last s : ws_opt (last_char (trim_end s)) = false.
Proof.
  induction s as [|c s IH]; simpl; [done|].
  destruct (String.eqb_spec (trim_end s) EmptyString) as [E|E].
  - rewrite E, andb_true_r. destruct (is_ws c) eqn:Hc; simpl; [done|by rewrite Hc].
  - rewrite andb_false_r. by rewrite (last_char_cons c _ E).
Qed.

Lemma trim_end_first s : trim_end s <> EmptyString -> first_char (trim_end s) = first_char s.
Proof.
  destruct s as [|c s]; simpl; [done|].
  destruct (_ && _); simpl; [done|reflexivity].
Qed.

Lemma trim_no_ws_edges s : no_ws_edges (trim s) = true.
Proof.
  unfold no_ws_edges, trim. rewrite trim_end_last.
  destruct (String.eqb_spec (trim_end (trim_start s)) EmptyString) as [->|E]; [done|].
  rewrite trim_end_first, trim_start_first by done. done.
Qed.

(** Every string [s] with [s = pre ++ t ++ post], white-space [pre] and
    [post] and a [t] with no white space at either end has [trim s = t]. *)
Lemma trim_unique pre t post :
  all_ws pre = true -> all_ws post = true -> no_ws_edges t = true ->
  trim (pre ++ t ++ post) = t.
Proof.
  unfold no_ws_edges, trim. intros Hpre Hpost [Hf Hl]%andb_prop.
  rewrite Bool.negb_true_iff in Hf, Hl.
  rewrite trim_start_app_ws by done.
  destruct t as [|c t].
  - simpl. by rewrite trim_start_all_ws.
  - rewrite trim_start_no_ws by done.
    rewrite trim_end_app_ws by done. by apply trim_end_no_ws.
Qed.

(** C12: [String.prototype.trim] as the code uses it on the task title.
    [trim s] is the one string [t] with [s = pre ++ t ++ post] for
    white-space [pre] and [post] and no white space at either end of
    [t]: it strips both ends and nothing else.  White space here is the
    ASCII part of ECMAScript's WhiteSpace and LineTerminator (TAB, LF,
    VT, FF, CR, SPACE); the code points beyond ASCII, such as U+00A0,
    U+FEFF and U+2028, have no single byte in these strings. *)
Theorem trim_spec s t :
  trim s = t <->
  exists pre post, s = pre ++ t ++ post /\ all_ws pre = true /\
    all_ws post = true /\ no_ws_edges t = true.
Proof.
  split.
  - intros <-. destruct (trim_start_split s) as (pre & Hs & Hpre).
    destruct (trim_end_split (trim_start s)) as (post & Ht & Hpost).
    exists pre, post. unfold trim. rewrite <- Ht.
    repeat split; auto; apply trim_no_ws_edges.
  - intros (pre & post & -> & Hpre & Hpost & He). by apply trim_unique.
Qed.

Lemma all_ws_trim_start s : all_ws (trim_start s) = all_ws s.
Proof.
  destruct (trim_start_split s) as (pre & Hs & Hpre).
  rewrite Hs at 2. by rewrite all_ws_app, Hpre.
Qed.

(** The guard [if (!title)] of [addTask] fires exactly on blank input. *)
Lemma trim_blank_iff s : trim s = EmptyString <-> all_ws s = true.
Proof. unfold trim. by rewrite trim_end_empty_iff, all_ws_trim_start. Qed.

Lemma trim_idempotent s : trim (trim s) = trim s.
Proof.
  rewrite <- (string_app_nil_r (trim s)) at 1.
  apply (trim_unique EmptyString (trim s) EmptyString); auto using trim_no_ws_edges.
Qed.

(** ** Number::toString *)

(** Decimal printing is read back by the Standard Library's decimal
    parser: no two integers print alike. *)
Lemma decimal_roundtrip z :
  option_map Z.of_int (NilEmpty.int_of_string (decimal z)) = Some z.
Proof. unfold decimal. rewrite NilEmpty.isi. simpl. by rewrite DecimalZ.of_to. Qed.

Lemma decimal_space_free z : space_free (decimal z) = true.
Proof.
  unfold decimal. assert (forall d, space_free (NilEmpty.string_of_uint d) = true) as Hu
    by (induction d; simpl; auto).
  destruct (Z.to_int z); simpl; auto.
Qed.

Lemma decimal_inj z1 z2 : decimal z1 = decimal z2 -> z1 = z2.
Proof.
  intros H. pose proof (decimal_roundtrip z1) as H1.
  rewrite H, decimal_roundtrip in H1. congruence.
Qed.

(** Below [10^21], [Number::toString] is injective on integers. *)
Lemma number_to_string_inj z1 z2 :
  (Z.abs z1 < 10 ^ 21)%Z -> (Z.abs z2 < 10 ^ 21)%Z ->
  number_to_string z1 = number_to_string z2 -> z1 = z2.
Proof.
  unfold number_to_string. intros H1 H2.
  rewrite (proj2 (Z.ltb_lt _ _) H1), (proj2 (Z.ltb_lt _ _) H2).
  apply decimal_inj.
Qed.

Example number_to_string_status : number_to_string 404 = "404".
Proof. reflexivity. Qed.
Example number_to_string_negative : number_to_string (-17) = "-17".
Proof. reflexivity. Qed.
Example number_to_string_exponent : number_to_string (10 ^ 21) = "1e+21".
Proof. vm_compute. reflexivity. Qed.
Example number_to_string_exponent_frac :
  number_to_string (-1234 * 10 ^ 20) = "-1.234e+23".
Proof. vm_compute. reflexivity. Qed.

End JsString.
