(* ===== verification/JsValue.v ===== *)
(** * JavaScript values as [src/task/app.js] handles them

  The client only ever sees values produced by [res.json()] (JSON.parse)
  and object literals of its own, plus [undefined] from reading a missing
  property.  This file gives those values and the abstract operations the
  code applies to them: ToBoolean (the [||], [?:] and [!] of lines 36-37,
  47-48, 76, 113, 122-124), ToString (string concatenation and DOM
  attribute writes, lines 30, 37, 115, 134), property reads and writes
  ([task.id], [updated.completed], line 120), and object spread
  ([{ ...task, completed: newCompleted }], line 118).

  Numbers are integers ([Z]); objects are their own properties in
  property order; arrays carry their elements only. *)

From S2P Require Import Prelude JsString.
Local Open Scope string_scope.
Local Open Scope todo_scope.

Module JsValue.
Import JsString.

#[warnings="-register-all"]
Inductive value : Type :=
| VUndefined
| VNull
| VBool (b : bool)
| VNum (n : Z)
| VStr (s : string)
| VArr (elems : list value)
| VObj (props : list (string * value)).

(** The exceptions the program can meet: a TypeError of a property access
    or of [fetch], a SyntaxError of [res.json()], and the [Error] that
    [apiFetch] throws on a non-2xx status.  Each carries its [message]. *)
Inductive js_error : Type :=
| TypeError (msg : string)
| SyntaxError (msg : string)
| Error (msg : string).

Definition error_message (e : js_error) : string :=
  match e with TypeError m | SyntaxError m | Error m => m end.

Abbreviation js_outcome := (outcome js_error).

(** ToBoolean. *)
Definition truthy (v : value) : bool :=
  match v with
  | VUndefined | VNull => false
  | VBool b => b
  | VNum n => negb (Z.eqb n 0)
  | VStr s => negb (String.eqb s "")
  | VArr _ | VObj _ => true
  end.

Definition is_nullish (v : value) : bool :=
  match v with VUndefined | VNull => true | _ => false end.

(** [Array.isArray]. *)
Definition is_array (v : value) : bool :=
  match v with VArr _ => true | _ => false end.

(** ToString; an array prints as [Array.prototype.join(",")], which
    prints [undefined] and [null] elements as empty strings. *)
Fixpoint to_string (v : value) : string :=
  match v with
  | VUndefined => "undefined"
  | VNull => "null"
  | VBool true => "true"
  | VBool false => "false"
  | VNum n => number_to_string n
  | VStr s => s
  | VArr vs =>
      (fix join (l : list value) : string :=
         match l with
         | [] => ""
         | x :: l' =>
             let sx := match x with VUndefined | VNull => "" | _ => to_string x end in
             match l' with [] => sx | _ => sx +++ "," +++ join l' end
         end) vs
  | VObj _ => "[object Object]"
  end.

Fixpoint assoc_lookup (k : string) (ps : list (string * value)) : option value :=
  match ps with
  | [] => None
  | (k', x) :: ps' => if String.eqb k k' then Some x else assoc_lookup k ps'
  end.

(** [[[Set]]] on an ordinary object: an existing property keeps its place,
    a new one is added last. *)
Fixpoint assoc_set (k : string) (x : value) (ps : list (string * value))
    : list (string * value) :=
  match ps with
  | [] => [(k, x)]
  | (k', y) :: ps' =>
      if String.eqb k k' then (k', x) :: ps' else (k', y) :: assoc_set k x ps'
  end.

(** [v.k] for the property names the program reads ([id], [title],
    [completed], [createdAt]), which no built-in prototype defines: a
    missing property, or any property of a primitive or an array, reads
    [undefined]; reading from [undefined] or [null] throws. *)
Definition get_prop (v : value) (k : string) : js_outcome value :=
  match v with
  | VUndefined =>
      Raised (TypeError ("Cannot read properties of undefined (reading '" +++ k +++ "')"))
  | VNull =>
      Raised (TypeError ("Cannot read properties of null (reading '" +++ k +++ "')"))
  | VObj ps => Done (default VUndefined (assoc_lookup k ps))
  | _ => Done VUndefined
  end.

(** [v.k = x] in a sloppy-mode script: writing to [undefined] or [null]
    throws, writing to another primitive is a silent no-op.  A named
    property on an array is not representable here and is dropped. *)
Definition set_prop (v : value) (k : string) (x : value) : js_outcome value :=
  match v with
  | VUndefined =>
      Raised (TypeError ("Cannot set properties of undefined (setting '" +++ k +++ "')"))
  | VNull =>
      Raised (TypeError ("Cannot set properties of null (setting '" +++ k +++ "')"))
  | VObj ps => Done (VObj (assoc_set k x ps))
  | _ => Done v
  end.

Definition index_keys {A} (l : list A) : list (string * A) :=
  imap (fun i x => (number_to_string (Z.of_nat i), x)) l.

(** CopyDataProperties of a spread [...v]: the own enumerable properties
    of an object, the indices of an array or of a string, nothing for the
    other primitives (and for [undefined] and [null]). *)
Definition spread_props (v : value) : list (string * value) :=
  match v with
  | VObj ps => ps
  | VArr vs => index_keys vs
  | VStr s => index_keys (map (fun c => VStr (String c EmptyString)) (list_ascii_of_string s))
  | _ => []
  end.

(** The object literal [{ ...v, k: x }]. *)
Definition spread_with (v : value) (k : string) (x : value) : value :=
  VObj (assoc_set k x (spread_props v)).

(** ** Lemmas *)

Lemma get_prop_raises_iff v k : (exists e, get_prop v k = Raised e) <-> is_nullish v = true.
Proof. destruct v; simpl; split; try (intros [? ?]); try discriminate; eauto. Qed.

Lemma get_prop_not_nullish v k :
  is_nullish v = false -> get_prop v k = Done (default VUndefined
    (match v with VObj ps => assoc_lookup k ps | _ => None end)).
Proof. destruct v; simpl; done. Qed.

Lemma assoc_lookup_set_eq k x ps : assoc_lookup k (assoc_set k x ps) = Some x.
Proof.
  induction ps as [|[k' y] ps IH]; simpl.
  - by rewrite String.eqb_refl.
  - destruct (String.eqb_spec k k') as [->|Hne]; simpl.
    + by rewrite String.eqb_refl.
    + apply String.eqb_neq in Hne. by rewrite Hne.
Qed.

Lemma assoc_lookup_set_ne k k2 x ps :
  k2 <> k -> assoc_lookup k2 (assoc_set k x ps) = assoc_lookup k2 ps.
Proof.
  intros Hne. induction ps as [|[k' y] ps IH]; simpl.
  - apply String.eqb_neq in Hne. by rewrite Hne.
  - destruct (String.eqb_spec k k') as [->|Hk]; simpl.
    + apply String.eqb_neq in Hne. by rewrite Hne.
    + by rewrite IH.
Qed.

Lemma assoc_set_keys k x ps :
  map fst (assoc_set k x ps) =
  if existsb (fun p => String.eqb k (fst p)) ps then map fst ps else (map fst ps ++ [k])%list.
Proof.
  induction ps as [|[k' y] ps IH]; simpl; [done|].
  destruct (String.eqb_spec k k') as [->|Hk]; simpl; [done|].
  rewrite IH. by destruct existsb.
Qed.

End JsValue.
