(* ===== verification/Json.v ===== *)
(** * [JSON.stringify] on the values the program sends

  [addTask] and [toggleTask] send [body: JSON.stringify(payload)]
  (lines 99 and 118).  This file models [JSON.stringify(v)] without a
  replacer or indentation (ECMA-262 §25.5.2): QuoteJSONString on
  strings, Number::toString on (integral, hence finite) numbers, arrays
  with [undefined] elements written [null], objects with their
  [undefined]-valued properties left out; [None] is the [undefined]
  that [JSON.stringify] returns for [undefined] itself.  Values here are
  trees, so the cycle check never fires.

  Strings are byte strings; bytes from 0x80 up are copied as they are
  (the UTF-8 encoding of the code units QuoteJSONString copies).

  The reading side is a decoder of JSON string literals (ECMA-404):
  [parse_string] reads one literal at the head of a text and returns its
  contents and the rest of the text. *)

From Stdlib Require Import Ascii.
From S2P Require Import Prelude JsString JsValue.
Local Open Scope todo_scope.

Module Json.
Import JsString JsValue.

Definition c_quote : ascii := ascii_of_nat 34.
Definition c_bslash : ascii := ascii_of_nat 92.

(** The two-character escapes of QuoteJSONString's table. *)
Definition short_escape (n : nat) : option ascii :=
  if n =? 8 then Some "b"%char
  else if n =? 9 then Some "t"%char
  else if n =? 10 then Some "n"%char
  else if n =? 12 then Some "f"%char
  else if n =? 13 then Some "r"%char
  else if n =? 34 then Some c_quote
  else if n =? 92 then Some c_bslash
  else None.

(** A lower-case hexadecimal digit (UnicodeEscape). *)
Definition hex_digit (n : nat) : ascii :=
  ascii_of_nat (if n <? 10 then 48 + n else 87 + n).

Definition quote_char (c : ascii) : string :=
  let n := nat_of_ascii c in
  match short_escape n with
  | Some e => String c_bslash (String e EmptyString)
  | None =>
      if n <? 32 then
        String c_bslash (String "u"%char (String "0"%char (String "0"%char
          (String (hex_digit (n / 16)) (String (hex_digit (n mod 16)) EmptyString)))))
      else String c EmptyString
  end.

Fixpoint quote_chars (s : string) : string :=
  match s with
  | EmptyString => EmptyString
  | String c s' => quote_char c +++ quote_chars s'
  end.

(** QuoteJSONString. *)
Definition json_quote (s : string) : string :=
  String c_quote (quote_chars s +++ String c_quote EmptyString).

(** SerializeJSONProperty, SerializeJSONArray and SerializeJSONObject. *)
Fixpoint json_stringify (v : value) : option string :=
  match v with
  | VUndefined => None
  | VNull => Some "null"%string
  | VBool b => Some (if b then "true" else "false")%string
  | VNum n => Some (number_to_string n)
  | VStr s => Some (json_quote s)
  | VArr vs =>
      Some ("[" +++ String.concat ","%string
        ((fix elems (l : list value) : list string :=
            match l with
            | [] => []
            | x :: l' => default "null"%string (json_stringify x) :: elems l'
            end) vs) +++ "]")
  | VObj ps =>
      Some ("{" +++ String.concat ","%string
        ((fix members (l : list (string * value)) : list string :=
            match l with
            | [] => []
            | (k, x) :: l' =>
                match json_stringify x with
                | Some sx => (json_quote k +++ ":" +++ sx) :: members l'
                | None => members l'
                end
            end) ps) +++ "}")
  end.

(** ** Reading a JSON string literal back *)

Definition hex_value (c : ascii) : option nat :=
  let n := nat_of_ascii c in
  if (48 <=? n) && (n <=? 57) then Some (n - 48)
  else if (97 <=? n) && (n <=? 102) then Some (n - 87)
  else if (65 <=? n) && (n <=? 70) then Some (n - 55)
  else None.

Definition unescape (e : ascii) : option ascii :=
  let n := nat_of_ascii e in
  if n =? 98 then Some (ascii_of_nat 8)
  else if n =? 116 then Some (ascii_of_nat 9)
  else if n =? 110 then Some (ascii_of_nat 10)
  else if n =? 102 then Some (ascii_of_nat 12)
  else if n =? 114 then Some (ascii_of_nat 13)
  else if n =? 34 then Some c_quote
  else if n =? 92 then Some c_bslash
  else if n =? 47 then Some "/"%char
  else None.

(** What reading JSON text gives: a result, a text that is not JSON
    ([JSON.parse] throws a SyntaxError), or JSON that the values of this
    model do not represent. *)
Inductive parsed (A : Type) : Type :=
| POk (a : A)
| PErr
| PUnsup.
Arguments POk {A} a.
Arguments PErr {A}.
Arguments PUnsup {A}.

Definition prepend (c : ascii) (r : parsed (string * string)) : parsed (string * string) :=
  match r with POk (a, rest) => POk (String c a, rest) | PErr => PErr | PUnsup => PUnsup end.

(** The characters of a literal after its opening quote, up to and
    without the closing quote.  [\uXXXX] is read for the ASCII range, the
    one [quote_char] writes; a code unit beyond it has no byte of its
    own in these strings. *)
Fixpoint parse_chars (s : string) : parsed (string * string) :=
  match s with
  | EmptyString => PErr
  | String c s' =>
      if Ascii.eqb c c_quote then POk (EmptyString, s')
      else if Ascii.eqb c c_bslash then
        match s' with
        | String e s'' =>
            match unescape e with
            | Some d => prepend d (parse_chars s'')
            | None =>
                match e, s'' with
                | "u"%char, String h1 (String h2 (String h3 (String h4 s3))) =>
                    match hex_value h1, hex_value h2, hex_value h3, hex_value h4 with
                    | Some a, Some b, Some c', Some d =>
                        let code := ((a * 16 + b) * 16 + c') * 16 + d in
                        if code <? 128 then prepend (ascii_of_nat code) (parse_chars s3)
                        else PUnsup
                    | _, _, _, _ => PErr
                    end
                | _, _ => PErr
                end
            end
        | EmptyString => PErr
        end
      else if nat_of_ascii c <? 32 then PErr
      else prepend c (parse_chars s')
  end.

Definition parse_string (s : string) : parsed (string * string) :=
  match s with
  | String c s' => if Ascii.eqb c c_quote then parse_chars s' else PErr
  | EmptyString => PErr
  end.

(** ** Lemmas *)

Lemma quote_chars_app s1 s2 : quote_chars (s1 +++ s2) = quote_chars s1 +++ quote_chars s2.
Proof. induction s1 as [|c s1 IH]; simpl; [done|]. by rewrite IH, string_app_assoc. Qed.

(** One character of [quote_chars] reads back as itself, by cases on the
    256 characters. *)
Lemma parse_quote_char c t :
  parse_chars (quote_char c +++ t) = prepend c (parse_chars t).
Proof. destruct c as [[] [] [] [] [] [] [] []]; reflexivity. Qed.

Lemma parse_quote_chars s rest :
  parse_chars (quote_chars s +++ String c_quote rest) = POk (s, rest).
Proof.
  induction s as [|c s IH]; simpl; [done|].
  by rewrite <- string_app_assoc, parse_quote_char, IH.
Qed.

Lemma parse_json_quote s rest : parse_string (json_quote s +++ rest) = POk (s, rest).
Proof. unfold json_quote. simpl. rewrite <- string_app_assoc. apply parse_quote_chars. Qed.

Lemma json_quote_inj s1 s2 : json_quote s1 = json_quote s2 -> s1 = s2.
Proof.
  intros H. pose proof (parse_json_quote s1 EmptyString) as H1.
  rewrite H, parse_json_quote in H1. congruence.
Qed.


(** QuoteJSONString at work: a quote, a backslash, a line feed and the
    control character U+0001. *)
Example json_quote_escapes :
  json_quote (String c_quote (String c_bslash (String (ascii_of_nat 10)
    (String (ascii_of_nat 1) EmptyString)))) =
  String c_quote (String c_bslash (String c_quote (String c_bslash (String c_bslash
    (String c_bslash ("n" +++ String c_bslash ("u0001" +++ String c_quote EmptyString))))))).
Proof. reflexivity. Qed.

Example json_stringify_put_body :
  json_stringify (VObj [("id", VStr "7"); ("note", VUndefined); ("tags", VArr [VNull; VUndefined]);
                        ("completed", VBool true)]%string) =
  Some ("{" +++ json_quote "id" +++ ":" +++ json_quote "7" +++ "," +++
        json_quote "tags" +++ ":[null,null]," +++ json_quote "completed" +++ ":true}")%string.
Proof. reflexivity. Qed.

End Json.
