(* ===== verification/JsonParse.v ===== *)
(** * [JSON.parse]: reading JSON text back into values

  [res.json()] (line 19) parses the body of a response with
  [JSON.parse] (ECMA-262 §25.5.1), and the server parses the bodies that
  [JSON.stringify] wrote for [addTask] and [toggleTask].  This file
  reads the grammar of ECMA-404: white space, literals, numbers, string
  literals ([Json.parse_string]), arrays and objects, an object's
  properties created in order with a repeated name overwriting the
  earlier value in place.

  The values of this development have integral numbers: a number with a
  fraction or an exponent, and an integer beyond 2^53 (which
  [JSON.parse] rounds), are JSON the model does not represent
  ([PUnsup]); so is a [\u] escape beyond ASCII.  Everything else that is
  not JSON is [PErr], the SyntaxError of [JSON.parse].

  The parser runs on fuel; every call it makes with fuel [n] reads a
  strictly shorter suffix than the call with fuel [n + 1], so the length
  of the text plus one is enough ([json_parse]). *)

From Stdlib Require Import Ascii DecimalString.
From S2P Require Import Prelude JsString JsValue Json.
Local Open Scope todo_scope.

Module JsonParse.
Import JsString JsValue Json.

#[export] Instance parsed_ret : MRet parsed := λ A a, POk a.
#[export] Instance parsed_bind : MBind parsed :=
  λ A B f m, match m with POk a => f a | PErr => PErr | PUnsup => PUnsup end.

(** ** Tokens *)

(** JSON white space: tab, line feed, carriage return, space. *)
Definition json_ws (c : ascii) : bool :=
  let n := nat_of_ascii c in (n =? 9) || (n =? 10) || (n =? 13) || (n =? 32).

Fixpoint skip_ws (s : string) : string :=
  match s with
  | String c s' => if json_ws c then skip_ws s' else s
  | EmptyString => EmptyString
  end.

Definition is_digit (c : ascii) : bool :=
  let n := nat_of_ascii c in (48 <=? n) && (n <=? 57).

Fixpoint span_digits (s : string) : string * string :=
  match s with
  | String c s' => if is_digit c then let '(d, r) := span_digits s' in (String c d, r) else ("", s)
  | EmptyString => ("", "")
  end%string.

(** The magnitude up to which [JSON.parse] reads an integer exactly. *)
Definition max_safe : Z := 2 ^ 53.

(** The integer part of a number: [0], or a digit 1-9 and the digits
    after it. *)
Definition int_digits (s : string) : string * string :=
  match s with
  | String c s' => if Ascii.eqb c "0"%char then ("0"%string, s') else span_digits s
  | EmptyString => (EmptyString, EmptyString)
  end.

Definition frac_or_exp (s : string) : bool :=
  match s with
  | String c _ => Ascii.eqb c "."%char || Ascii.eqb c "e"%char || Ascii.eqb c "E"%char
  | EmptyString => false
  end.

(** An optional minus sign. *)
Definition number_sign (s : string) : bool * string :=
  match s with
  | String c s' => if Ascii.eqb c "-"%char then (true, s') else (false, s)
  | EmptyString => (false, s)
  end.

(** [-]? int, then no fraction and no exponent. *)
Definition parse_number (s : string) : parsed (value * string) :=
  let '(neg, s1) := number_sign s in
  let '(ds, rest) := int_digits s1 in
  match ds with
  | EmptyString => PErr
  | String _ _ =>
      if frac_or_exp rest then PUnsup
      else
        match NilEmpty.uint_of_string ds with
        | Some d =>
            let z := if neg then (- Z.of_uint d)%Z else Z.of_uint d in
            if (Z.abs z <=? max_safe)%Z then POk (VNum z, rest) else PUnsup
        | None => PErr
        end
  end.

Definition parse_literal (lit : string) (v : value) (s : string) : parsed (value * string) :=
  match strip_prefix lit s with Some r => POk (v, r) | None => PErr end.

(** ** Values *)

Fixpoint parse_value (n : nat) (s : string) {struct n} : parsed (value * string) :=
  match n with
  | O => PUnsup
  | S n' =>
      match skip_ws s with
      | EmptyString => PErr
      | String c r as t =>
          if Ascii.eqb c "{"%char then
            match skip_ws r with
            | String d r' =>
                if Ascii.eqb d "}"%char then POk (VObj [], r')
                else parse_members n' [] (String d r')
            | EmptyString => PErr
            end
          else if Ascii.eqb c "["%char then
            match skip_ws r with
            | String d r' =>
                if Ascii.eqb d "]"%char then POk (VArr [], r')
                else '(v, r2) ← parse_value n' (String d r'); parse_elems n' [v] r2
            | EmptyString => PErr
            end
          else if Ascii.eqb c c_quote then '(str, r') ← parse_string t; POk (VStr str, r')
          else if Ascii.eqb c "t"%char then parse_literal "true" (VBool true) t
          else if Ascii.eqb c "f"%char then parse_literal "false" (VBool false) t
          else if Ascii.eqb c "n"%char then parse_literal "null" VNull t
          else parse_number t
      end
  end
(** After an element: [, value] again, or the closing bracket. *)
with parse_elems (n : nat) (acc : list value) (s : string) {struct n} : parsed (value * string) :=
  match n with
  | O => PUnsup
  | S n' =>
      match skip_ws s with
      | String c r =>
          if Ascii.eqb c ","%char then '(v, r') ← parse_value n' r; parse_elems n' (acc ++ [v]) r'
          else if Ascii.eqb c "]"%char then POk (VArr acc, r)
          else PErr
      | EmptyString => PErr
      end
  end
(** A member [name : value], then [,] and the next member, or the
    closing brace. *)
with parse_members (n : nat) (acc : list (string * value)) (s : string) {struct n}
    : parsed (value * string) :=
  match n with
  | O => PUnsup
  | S n' =>
      '(k, r1) ← parse_string (skip_ws s);
      match skip_ws r1 with
      | String c r2 =>
          if Ascii.eqb c ":"%char then
            '(v, r3) ← parse_value n' r2;
            match skip_ws r3 with
            | String d r4 =>
                if Ascii.eqb d ","%char then parse_members n' (assoc_set k v acc) r4
                else if Ascii.eqb d "}"%char then POk (VObj (assoc_set k v acc), r4)
                else PErr
            | EmptyString => PErr
            end
          else PErr
      | EmptyString => PErr
      end
  end.

(** [JSON.parse(text)] without a reviver. *)
Definition json_parse (text : string) : parsed value :=
  '(v, rest) ← parse_value (S (String.length text)) text;
  match skip_ws rest with EmptyString => POk v | String _ _ => PErr end.

(** ** What [JSON.stringify] then [JSON.parse] give *)

(** The value [JSON.parse(JSON.stringify(v))]: [undefined] properties
    dropped, [undefined] elements [null], repeated names merged as
    [JSON.parse] merges them. *)
Fixpoint json_norm (v : value) : option value :=
  match v with
  | VUndefined => None
  | VArr vs =>
      Some (VArr ((fix elems (l : list value) : list value :=
                     match l with
                     | [] => []
                     | x :: l' => default VNull (json_norm x) :: elems l'
                     end) vs))
  | VObj ps =>
      Some (VObj ((fix members (acc : list (string * value)) (l : list (string * value)) :=
                     match l with
                     | [] => acc
                     | (k, x) :: l' =>
                         members (match json_norm x with
                                  | Some x' => assoc_set k x' acc
                                  | None => acc
                                  end) l'
                     end) [] ps))
  | _ => Some v
  end.

(** Every number is an integer [JSON.parse] reads exactly. *)
Fixpoint json_safe (v : value) : Prop :=
  match v with
  | VNum z => (Z.abs z <= max_safe)%Z
  | VArr vs => (fix elems (l : list value) : Prop :=
                  match l with [] => True | x :: l' => json_safe x /\ elems l' end) vs
  | VObj ps => (fix members (l : list (string * value)) : Prop :=
                  match l with [] => True | (_, x) :: l' => json_safe x /\ members l' end) ps
  | _ => True
  end.

(** The text [JSON.stringify] writes for a value, [null] for an
    [undefined] element, and the value [JSON.parse] reads back from it. *)
Definition jtext (v : value) : string := default "null"%string (json_stringify v).
Definition normv (v : value) : value := default VNull (json_norm v).

(** The properties [SerializeJSONObject] writes, and how it writes one. *)
Definition defined (p : string * value) : bool :=
  match p.2 with VUndefined => false | _ => true end.
Definition member_text (p : string * value) : string := json_quote p.1 +++ ":" +++ jtext p.2.

Fixpoint seps (l : list string) : string :=
  match l with [] => EmptyString | t :: l' => "," +++ t +++ seps l' end.

(** What may follow a value inside JSON text: a separator, a closing
    bracket or brace, or the end of the text. *)
Definition value_end (rest : string) : bool :=
  match rest with
  | EmptyString => true
  | String c _ => Ascii.eqb c ","%char || Ascii.eqb c "]"%char || Ascii.eqb c "}"%char
  end.

(** The first characters of the text of a value. *)
Definition number_head (c : ascii) : bool := Ascii.eqb c "-"%char || is_digit c.
Definition value_head (c : ascii) : bool :=
  number_head c || Ascii.eqb c "["%char || Ascii.eqb c "{"%char || Ascii.eqb c c_quote ||
  Ascii.eqb c "t"%char || Ascii.eqb c "f"%char || Ascii.eqb c "n"%char.

(** The text of [v], followed by anything that may follow a value, reads
    back as [normv v] given enough fuel. *)
Definition parses_back (v : value) : Prop :=
  forall rest n, value_end rest = true -> String.length (jtext v) < n ->
  parse_value n (jtext v +++ rest) = POk (normv v, rest).

(** Induction on values through the elements of arrays and the members of
    objects. *)
Section value_nested_ind.
Variable P : value -> Prop.
Hypothesis HU : P VUndefined.
Hypothesis HN : P VNull.
Hypothesis HB : forall b, P (VBool b).
Hypothesis HZ : forall z, P (VNum z).
Hypothesis HS : forall s, P (VStr s).
Hypothesis HA : forall vs, Forall P vs -> P (VArr vs).
Hypothesis HO : forall ps, Forall (fun p => P p.2) ps -> P (VObj ps).

Fixpoint value_nested_ind (v : value) : P v :=
  match v with
  | VUndefined => HU
  | VNull => HN
  | VBool b => HB b
  | VNum z => HZ z
  | VStr s => HS s
  | VArr vs =>
      HA vs ((fix go (l : list value) : Forall P l :=
                match l with
                | [] => List.Forall_nil _
                | x :: l' => @List.Forall_cons _ P x l' (value_nested_ind x) (go l')
                end) vs)
  | VObj ps =>
      HO ps ((fix go (l : list (string * value)) : Forall (fun p => P p.2) l :=
                match l with
                | [] => List.Forall_nil _
                | (k, x) :: l' =>
                    @List.Forall_cons _ (fun p => P p.2) (k, x) l' (value_nested_ind x) (go l')
                end) ps)
  end.
End value_nested_ind.

(** A body with a quote and separators inside a string, an [undefined]
    property and element, and a repeated name. *)
Definition sample_put : value :=
  VObj [("title", VStr (String c_quote "a,b}")); ("completed", VBool false); ("note", VUndefined);
        ("tags", VArr [VNum (-3); VUndefined]); ("title", VStr "c")]%string.

(** ** Examples *)

Example parse_task :
  json_parse ("{ " +++ json_quote "id" +++ ": " +++ json_quote "7" +++ ", " +++
              json_quote "completed" +++ " : true, " +++ json_quote "n" +++ ": -12, " +++
              json_quote "tags" +++ ": [null, false] }") =
  POk (VObj [("id", VStr "7"); ("completed", VBool true); ("n", VNum (-12));
             ("tags", VArr [VNull; VBool false])])%string.
Proof. reflexivity. Qed.

Example parse_repeated_name :
  json_parse ("{" +++ json_quote "a" +++ ":1," +++ json_quote "b" +++ ":2," +++
              json_quote "a" +++ ":3}") = POk (VObj [("a", VNum 3); ("b", VNum 2)])%string.
Proof. reflexivity. Qed.

Example parse_leading_zero : json_parse "01" = PErr.
Proof. reflexivity. Qed.

Example parse_empty_body : json_parse "" = PErr.
Proof. reflexivity. Qed.

Example parse_fraction : json_parse "[1.5]" = PUnsup.
Proof. reflexivity. Qed.

Example parse_beyond_safe : json_parse "9007199254740993" = PUnsup.
Proof. reflexivity. Qed.

(** ** Lemmas *)

#[local] Arguments json_quote : simpl never.

Lemma bind_POk {A B} (a : A) (f : A -> parsed B) : (POk a ≫= f) = f a.
Proof. reflexivity. Qed.

Lemma concat_seps t l : String.concat ","%string (t :: l) = t +++ seps l.
Proof.
  revert t. induction l as [|u l IH]; intros t; [by rewrite string_app_nil_r|].
  change (String.concat ","%string (t :: u :: l)) with (t +++ "," +++ String.concat ","%string (u :: l)).
  by rewrite IH.
Qed.

Lemma json_stringify_None x : json_stringify x = None <-> x = VUndefined.
Proof. destruct x; simpl; split; congruence. Qed.

Lemma json_norm_None x : json_norm x = None <-> x = VUndefined.
Proof. destruct x; simpl; split; congruence. Qed.

Lemma jtext_arr vs : jtext (VArr vs) = "[" +++ String.concat ","%string (map jtext vs) +++ "]".
Proof.
  unfold jtext at 1. cbn [json_stringify from_option id]. do 2 f_equal.
Qed.

Lemma jtext_obj ps :
  jtext (VObj ps) = "{" +++ String.concat ","%string (map member_text (List.filter defined ps)) +++ "}".
Proof.
  unfold jtext at 1. cbn [json_stringify from_option id]. do 3 f_equal.
  induction ps as [|[k x] ps IH]; [done|]. cbn [List.filter].
  destruct (json_stringify x) as [sx|] eqn:E.
  - assert (defined (k, x) = true) as -> by (destruct x; [discriminate E|reflexivity..]).
    cbn [map]. rewrite IH. unfold member_text, jtext. simpl. by rewrite E.
  - apply json_stringify_None in E as ->. exact IH.
Qed.

Lemma normv_arr vs : normv (VArr vs) = VArr (map normv vs).
Proof.
  unfold normv at 1. cbn [json_norm from_option id]. f_equal.
Qed.

Definition add_member (acc : list (string * value)) (p : string * value) : list (string * value) :=
  assoc_set p.1 (normv p.2) acc.

Lemma normv_obj ps : normv (VObj ps) = VObj (fold_left add_member (List.filter defined ps) []).
Proof.
  unfold normv at 1. cbn [json_norm from_option id]. f_equal.
  generalize (@nil (string * value)) as acc.
  induction ps as [|[k x] ps IH]; intros acc; simpl; [done|].
  destruct (json_norm x) as [x'|] eqn:E.
  - assert (defined (k, x) = true) as -> by (destruct x; [discriminate E|reflexivity..]).
    simpl. rewrite IH. unfold add_member, normv. simpl. by rewrite E.
  - apply json_norm_None in E as ->. apply IH.
Qed.

Lemma json_safe_arr vs : json_safe (VArr vs) <-> Forall json_safe vs.
Proof.
  induction vs as [|x vs IH]; cbn [json_safe] in *.
  - split; [constructor|done].
  - rewrite Forall_cons, <- IH. done.
Qed.

Lemma json_safe_obj ps : json_safe (VObj ps) <-> Forall (fun p => json_safe p.2) ps.
Proof.
  induction ps as [|[k x] ps IH]; cbn [json_safe] in *.
  - split; [constructor|done].
  - rewrite Forall_cons, <- IH. done.
Qed.

(** *** Numbers *)

Lemma pos_to_uint_lead p w : Pos.to_uint p <> Decimal.D0 w.
Proof.
  intros Hw. pose proof (DecimalPos.Unsigned.to_of (Pos.to_uint p)) as E.
  rewrite DecimalPos.Unsigned.of_to in E. cbn [N.to_uint] in E.
  unfold Decimal.unorm in E. rewrite Hw in E.
  destruct (Decimal.nzhead (Decimal.D0 w)) eqn:Hn; try discriminate E.
  - injection E as ->. by apply (DecimalPos.Unsigned.to_uint_nonzero p).
  - by apply DecimalFacts.nzhead_nonzero in Hn.
Qed.

Lemma Z_of_uint_pos p : Z.of_uint (Pos.to_uint p) = Zpos p.
Proof. unfold Z.of_uint. by rewrite DecimalPos.Unsigned.of_to. Qed.

Lemma value_end_digits rest :
  value_end rest = true -> span_digits rest = (EmptyString, rest) /\ frac_or_exp rest = false.
Proof.
  destruct rest as [|c r]; [done|]. unfold value_end. intros H.
  repeat apply orb_true_iff in H as [H|H]; apply Ascii.eqb_eq in H; subst; split; reflexivity.
Qed.

Lemma span_digits_uint u rest :
  value_end rest = true ->
  span_digits (NilEmpty.string_of_uint u +++ rest) = (NilEmpty.string_of_uint u, rest).
Proof.
  intros H. induction u; simpl; [apply value_end_digits, H|..]; by rewrite IHu.
Qed.

Lemma int_digits_uint u rest :
  value_end rest = true -> u <> Decimal.Nil -> (forall w, u <> Decimal.D0 w) \/ u = Decimal.zero ->
  int_digits (NilEmpty.string_of_uint u +++ rest) = (NilEmpty.string_of_uint u, rest).
Proof.
  intros H Hn [Hd| ->]; [|reflexivity].
  transitivity (span_digits (NilEmpty.string_of_uint u +++ rest)); [|by apply span_digits_uint].
  destruct u; [done|by destruct (Hd u)|reflexivity..].
Qed.

Lemma number_sign_uint u rest :
  u <> Decimal.Nil ->
  number_sign (NilEmpty.string_of_uint u +++ rest) = (false, NilEmpty.string_of_uint u +++ rest).
Proof. intros H. destruct u; [done|reflexivity..]. Qed.

Lemma parse_number_uint (neg : bool) u rest :
  value_end rest = true -> u <> Decimal.Nil -> (forall w, u <> Decimal.D0 w) \/ u = Decimal.zero ->
  parse_number ((if neg then "-" else "") +++ NilEmpty.string_of_uint u +++ rest) =
  let z := if neg then (- Z.of_uint u)%Z else Z.of_uint u in
  if (Z.abs z <=? max_safe)%Z then POk (VNum z, rest) else PUnsup.
Proof.
  intros He Hn Hd. unfold parse_number.
  assert (number_sign ((if neg then "-" else "") +++ NilEmpty.string_of_uint u +++ rest) =
          (neg, NilEmpty.string_of_uint u +++ rest)) as ->
    by (destruct neg; [reflexivity|by apply number_sign_uint]).
  rewrite int_digits_uint by done.
  destruct (value_end_digits rest He) as [_ ->].
  destruct (NilEmpty.string_of_uint u) eqn:E; [by destruct u|].
  rewrite <- E, NilEmpty.usu. reflexivity.
Qed.

Lemma parse_number_decimal z rest :
  (Z.abs z <= max_safe)%Z -> value_end rest = true ->
  parse_number (decimal z +++ rest) = POk (VNum z, rest).
Proof.
  intros Hz He. unfold decimal. destruct z as [|p|p].
  - change (NilEmpty.string_of_int (Z.to_int 0) +++ rest)
      with ((if false then "-" else "") +++ NilEmpty.string_of_uint Decimal.zero +++ rest).
    rewrite parse_number_uint; [reflexivity|done|discriminate|by right].
  - change (NilEmpty.string_of_int (Z.to_int (Zpos p)) +++ rest)
      with ((if false then "-" else "") +++ NilEmpty.string_of_uint (Pos.to_uint p) +++ rest).
    rewrite parse_number_uint; [|done|apply DecimalPos.Unsigned.to_uint_nonnil|left; apply pos_to_uint_lead].
    cbv zeta. rewrite Z_of_uint_pos, (proj2 (Z.leb_le _ _)); [reflexivity|exact Hz].
  - change (NilEmpty.string_of_int (Z.to_int (Zneg p)) +++ rest)
      with ((if true then "-" else "") +++ NilEmpty.string_of_uint (Pos.to_uint p) +++ rest).
    rewrite parse_number_uint; [|done|apply DecimalPos.Unsigned.to_uint_nonnil|left; apply pos_to_uint_lead].
    cbv zeta. rewrite Z_of_uint_pos, (proj2 (Z.leb_le _ _)); [reflexivity|exact Hz].
Qed.

Lemma number_to_string_safe z : (Z.abs z <= max_safe)%Z -> number_to_string z = decimal z.
Proof.
  intros Hz. unfold number_to_string.
  assert (max_safe < 10 ^ 21)%Z as Hm by reflexivity.
  by rewrite (proj2 (Z.ltb_lt _ _)) by lia.
Qed.

(** *** First characters and single steps *)

Ltac head_tac := eexists _, _; split; reflexivity.

Lemma value_head_facts c :
  value_head c = true ->
  json_ws c = false /\ Ascii.eqb c "]"%char = false /\ Ascii.eqb c "}"%char = false.
Proof.
  intros H. destruct c as [[] [] [] [] [] [] [] []];
    (discriminate H || (split; [reflexivity|split; reflexivity])).
Qed.

Lemma parse_value_number_head n c t :
  number_head c = true -> parse_value (S n) (String c t) = parse_number (String c t).
Proof. intros H. destruct c as [[] [] [] [] [] [] [] []]; (discriminate H || reflexivity). Qed.

Lemma decimal_number_head z rest :
  exists c t, decimal z +++ rest = String c t /\ number_head c = true.
Proof.
  unfold decimal. destruct z as [|p|p]; [head_tac| |head_tac].
  cbn [Z.to_int NilEmpty.string_of_int]. pose proof (DecimalPos.Unsigned.to_uint_nonnil p).
  destruct (Pos.to_uint p); [done|head_tac..].
Qed.

Lemma jtext_head v rest :
  json_safe v -> exists c t, jtext v +++ rest = String c t /\ value_head c = true.
Proof.
  intros Hs. destruct v as [| |b|z|s|vs|ps]; try head_tac.
  - destruct b; head_tac.
  - simpl in Hs. unfold jtext. cbn [json_stringify from_option id].
    rewrite number_to_string_safe by done.
    destruct (decimal_number_head z rest) as (c & t & -> & Hc).
    exists c, t. split; [done|]. unfold value_head. by rewrite Hc.
Qed.

Lemma parse_value_string n s rest : parse_value (S n) (json_quote s +++ rest) = POk (VStr s, rest).
Proof.
  pose proof (parse_json_quote s rest) as H. unfold json_quote in *. simpl in *.
  rewrite H. reflexivity.
Qed.

Lemma parse_value_number n z rest :
  (Z.abs z <= max_safe)%Z -> value_end rest = true ->
  parse_value (S n) (decimal z +++ rest) = POk (VNum z, rest).
Proof.
  intros Hz He. destruct (decimal_number_head z rest) as (c & t & Ht & Hc).
  rewrite Ht, parse_value_number_head, <- Ht by done. by apply parse_number_decimal.
Qed.

Lemma parse_value_arr n c t :
  value_head c = true ->
  parse_value (S n) ("[" +++ String c t) = '(v, r2) ← parse_value n (String c t); parse_elems n [v] r2.
Proof.
  intros H. destruct (value_head_facts c H) as (H1 & H2 & _).
  simpl. rewrite H1. simpl. by rewrite H2.
Qed.

Lemma parse_value_obj n p t :
  parse_value (S n) ("{" +++ member_text p +++ t) = parse_members n [] (member_text p +++ t).
Proof. reflexivity. Qed.

Lemma parse_elems_comma n acc t :
  parse_elems (S n) acc ("," +++ t) = '(v, r') ← parse_value n t; parse_elems n (acc ++ [v]) r'.
Proof. reflexivity. Qed.

Lemma parse_elems_close n acc t : parse_elems (S n) acc ("]" +++ t) = POk (VArr acc, t).
Proof. reflexivity. Qed.

Lemma skip_ws_quote k t : skip_ws (json_quote k +++ t) = json_quote k +++ t.
Proof. reflexivity. Qed.

Lemma parse_members_next n acc k t v r :
  parse_value n t = POk (v, "," +++ r) ->
  parse_members (S n) acc (json_quote k +++ ":" +++ t) = parse_members n (assoc_set k v acc) r.
Proof.
  intros H. cbn [parse_members]. rewrite skip_ws_quote, parse_json_quote, bind_POk.
  simpl. rewrite H. reflexivity.
Qed.

Lemma parse_members_last n acc k t v r :
  parse_value n t = POk (v, "}" +++ r) ->
  parse_members (S n) acc (json_quote k +++ ":" +++ t) = POk (VObj (assoc_set k v acc), r).
Proof.
  intros H. cbn [parse_members]. rewrite skip_ws_quote, parse_json_quote, bind_POk.
  simpl. rewrite H. reflexivity.
Qed.

(** *** Arrays and objects *)

Ltac len_tac :=
  unfold member_text in *; cbn [seps map fst snd] in *;
  rewrite ?string_length_app in *; simpl in *; lia.

Lemma value_end_seps l c t : value_end (String c t) = true -> value_end (seps l +++ String c t) = true.
Proof. destruct l; [done|reflexivity]. Qed.

Lemma member_text_app k x t : member_text (k, x) +++ t = json_quote k +++ ":" +++ jtext x +++ t.
Proof. unfold member_text. cbn [fst snd]. by rewrite <- !string_app_assoc. Qed.

Lemma parse_elems_text xs acc rest n :
  Forall parses_back xs -> String.length (seps (map jtext xs)) < n ->
  parse_elems n acc (seps (map jtext xs) +++ "]" +++ rest) = POk (VArr (acc ++ map normv xs), rest).
Proof.
  revert acc n. induction xs as [|x xs IH]; intros acc n Hxs Hn; (destruct n as [|n]; [lia|]).
  - rewrite app_nil_r. apply parse_elems_close.
  - apply Forall_cons in Hxs as [Hx Hxs]. cbn [map seps].
    rewrite <- !string_app_assoc, parse_elems_comma, Hx, bind_POk, IH, <- app_assoc; [done|done|len_tac| |len_tac].
    by apply value_end_seps.
Qed.

Lemma parse_members_text p ps acc rest n :
  Forall (fun p => parses_back p.2) (p :: ps) ->
  String.length (member_text p +++ seps (map member_text ps)) < n ->
  parse_members n acc (member_text p +++ seps (map member_text ps) +++ "}" +++ rest) =
  POk (VObj (fold_left add_member ps (add_member acc p)), rest).
Proof.
  revert p acc n. induction ps as [|p' ps IH]; intros [k x] acc n Hps Hn; (destruct n as [|n]; [lia|]);
    apply Forall_cons in Hps as [Hx Hps]; cbn [map seps]; rewrite member_text_app.
  - apply parse_members_last. apply Hx; [reflexivity|len_tac].
  - rewrite <- !string_app_assoc. erewrite parse_members_next; [apply IH; [done|len_tac]|].
    apply Hx; [reflexivity|len_tac].
Qed.

(** Everything [JSON.stringify] writes for a value whose numbers are safe
    integers reads back, by induction through arrays and objects. *)
Lemma parses_back_safe v : json_safe v -> parses_back v.
Proof.
  induction v as [| |b|z|s|vs IH|ps IH] using value_nested_ind; intros Hs rest n He Hn;
    (destruct n as [|n]; [lia|]).
  - reflexivity.
  - reflexivity.
  - by destruct b.
  - simpl in Hs. unfold jtext, normv. cbn [json_stringify json_norm from_option id].
    rewrite number_to_string_safe by done. by apply parse_value_number.
  - apply parse_value_string.
  - rewrite jtext_arr, normv_arr in *. destruct vs as [|x xs]; [reflexivity|].
    apply json_safe_arr in Hs. pose proof (Forall_mp _ _ _ IH Hs) as Hb.
    apply Forall_cons in Hs as [Hsx _]. apply Forall_cons in Hb as [Hx Hxs].
    cbn [map] in *. rewrite concat_seps in *. rewrite <- !string_app_assoc.
    destruct (jtext_head x (seps (map jtext xs) +++ "]" +++ rest) Hsx) as (c & t & Ht & Hc).
    rewrite Ht, parse_value_arr, <- Ht by done.
    rewrite Hx, bind_POk; [|by apply value_end_seps|len_tac].
    apply parse_elems_text; [done|len_tac].
  - rewrite jtext_obj, normv_obj in *.
    apply json_safe_obj in Hs. pose proof (Forall_mp _ _ _ IH Hs) as Hb.
    apply (Forall_list_filter _ defined) in Hb.
    destruct (List.filter defined ps) as [|p ds]; [reflexivity|].
    cbn [map] in *. rewrite concat_seps in *. rewrite <- !string_app_assoc, parse_value_obj.
    apply parse_members_text; [done|len_tac].
Qed.

Lemma json_parse_jtext v : json_safe v -> json_parse (jtext v) = POk (normv v).
Proof.
  intros Hs. unfold json_parse. rewrite <- (string_app_nil_r (jtext v)) at 2.
  rewrite parses_back_safe; [reflexivity|done|reflexivity|lia].
Qed.

(** C22: round trip.  [JSON.parse] reads back what [JSON.stringify]
    writes: for a value whose numbers are integers of magnitude at most
    2^53, parsing the text [JSON.stringify] returns gives the value with
    its [undefined] properties dropped, its [undefined] array elements
    turned to [null] and repeated property names merged ([normv]);
    strings come back whatever characters they hold. *)
Theorem json_parse_stringify v s :
  json_safe v -> json_stringify v = Some s -> json_parse s = POk (normv v).
Proof.
  intros Hs Hv. assert (s = jtext v) as -> by (unfold jtext; by rewrite Hv).
  by apply json_parse_jtext.
Qed.

Lemma json_parse_stringify_witness :
  json_safe sample_put /\ json_stringify sample_put = Some (jtext sample_put) /\
  json_parse (jtext sample_put) =
    POk (VObj [("title", VStr "c"); ("completed", VBool false); ("tags", VArr [VNum (-3); VNull])])%string.
Proof.
  assert (json_safe sample_put) as Hs by (vm_compute; repeat split; intros H; discriminate H).
  assert (json_stringify sample_put = Some (jtext sample_put)) as Hv by reflexivity.
  split; [exact Hs|]. split; [exact Hv|].
  rewrite (json_parse_stringify sample_put (jtext sample_put) Hs Hv). reflexivity.
Defined.

End JsonParse.
