(* ===== verification/Dates.v ===== *)
(** * The sort key of [loadTasks]: [new Date(t.createdAt || 0)]

  [date_value] is the time value of [new Date(v)] for one argument
  (ECMA-262 §21.4.2.1): a string goes to [Date.parse], another primitive
  to ToNumber and TimeClip, an object to its string form and then to
  [Date.parse]; [None] is NaN.  Whichever branch gives the time value,
  TimeClip applies to it (step 4.d).  [Date.parse] itself is a parameter
  here: [IsoDate.js_date_parse] gives it on the Date Time String Format,
  and outside that format it is implementation-specific.  Subtracting two dates subtracts their time values; the
  comparator only uses the sign of the difference, which binary64
  rounding preserves, so the difference is computed exactly in [Z]. *)

From S2P Require Import Prelude JsString JsValue.
Local Open Scope todo_scope.

Module Dates.
Import JsValue.

(** Time values are whole milliseconds within [8.64e15] of the epoch. *)
Definition max_time : Z := 8640000000000000.

Definition time_clip (t : Z) : option Z :=
  if (Z.abs t <=? max_time)%Z then Some t else None.

Section DateValue.
Variable date_parse : string -> option Z.

Definition date_value (v : value) : option Z :=
  match v with
  | VUndefined => None
  | VNull => time_clip 0
  | VBool b => time_clip (if b then 1 else 0)
  | VNum n => time_clip n
  | VStr s => date_parse s ≫= time_clip
  | VArr _ | VObj _ => date_parse (to_string v) ≫= time_clip
  end.

(** [new Date(t.createdAt || 0)] for an element [t] of the fetched array. *)
Definition created_at_key (t : value) : option Z :=
  match get_prop t "createdAt" with
  | Done c => date_value (if truthy c then c else VNum 0)
  | Raised _ => None
  end.
End DateValue.


(** A task whose [createdAt] is missing or falsy counts as created at the
    epoch ([new Date(0)]). *)
Lemma created_at_falsy date_parse t c :
  get_prop t "createdAt" = Done c -> truthy c = false -> created_at_key date_parse t = Some 0%Z.
Proof. intros Hc Hf. unfold created_at_key. by rewrite Hc, Hf. Qed.


End Dates.
