(* ===== verification/Sort.v ===== *)
(** * [Array.prototype.sort] with the comparator of [loadTasks]

  Line 80 sorts the fetched tasks with
  [(a,b) => new Date(b.createdAt || 0) - new Date(a.createdAt || 0)].
  Here the elements are abstract and [key x] is the time value of
  [new Date(x.createdAt || 0)], [None] when it is NaN.  ECMAScript's
  SortCompare turns a NaN comparison into [+0]: [sort_compare] is the
  comparator after that step.

  The engine's algorithm is implementation-defined; ECMAScript (since
  2019) requires that, for a consistent comparator, the result be a
  sorted permutation and that the sort be stable.  [js_sort] is a stable
  insertion sort (the algorithm engines use on short arrays), and
  [js_sort_contract_unique] shows that, when every key is a number, the
  contract allows one result only: every conforming engine returns
  [js_sort]. *)

From S2P Require Import Prelude.
From Stdlib Require Import Sorted Permutation.

Module Sort.
Local Open Scope Z_scope.

Section JsSort.
Context {A : Type} (key : A -> option Z).

Definition sort_compare (a b : A) : Z :=
  match key a, key b with
  | Some ka, Some kb => kb - ka
  | _, _ => 0
  end.

(** Insert [x] before the first element it compares below. *)
Fixpoint insert (x : A) (l : list A) : list A :=
  match l with
  | [] => [x]
  | y :: l' => if sort_compare x y <? 0 then x :: l else y :: insert x l'
  end.

Definition js_sort (l : list A) : list A := fold_left (fun acc x => insert x acc) l [].

(** Every key is a number (no NaN time value). *)
Definition valid (l : list A) : Prop := Forall (fun x => is_Some (key x)) l.

Definition k (x : A) : Z := default 0 (key x).

(** Non-increasing keys: newest first. *)
Definition desc (a b : A) : Prop := k b <= k a.

Definition same_key (z : Z) (x : A) : bool := Z.eqb (k x) z.

(** The order of equal keys is the input order. *)
Definition stable (l l' : list A) : Prop :=
  forall z, List.filter (same_key z) l' = List.filter (same_key z) l.

(** What ECMAScript requires of [l'] as the result of sorting [l]. *)
Definition sort_contract (l l' : list A) : Prop :=
  Permutation l l' /\ Sorted desc l' /\ stable l l'.

Lemma sort_compare_valid a b :
  is_Some (key a) -> is_Some (key b) -> sort_compare a b = k b - k a.
Proof. unfold sort_compare, k. intros [ka ->] [kb ->]. done. Qed.

Lemma insert_perm x l : Permutation (insert x l) (x :: l).
Proof.
  induction l as [|y l IH]; simpl; [done|].
  destruct (sort_compare x y <? 0); [done|].
  rewrite IH. apply perm_swap.
Qed.

Lemma js_sort_perm_acc l acc :
  Permutation (fold_left (fun acc x => insert x acc) l acc) (rev l ++ acc).
Proof.
  revert acc. induction l as [|x l IH]; intros acc; simpl; [done|].
  rewrite IH, insert_perm, <- app_assoc. done.
Qed.

Lemma js_sort_perm l : Permutation l (js_sort l).
Proof.
  unfold js_sort. rewrite js_sort_perm_acc, app_nil_r. apply Permutation_rev.
Qed.

Lemma valid_insert x l : is_Some (key x) -> valid l -> valid (insert x l).
Proof.
  intros Hx Hl. eapply Permutation_Forall; [symmetry; apply insert_perm|].
  by constructor.
Qed.

Lemma insert_sorted x l :
  is_Some (key x) -> valid l -> Sorted desc l -> Sorted desc (insert x l).
Proof.
  intros Hx. induction l as [|y l IH]; simpl; intros Hl Hs.
  - repeat constructor.
  - inversion Hl as [|? ? Hy Hl']; subst.
    rewrite sort_compare_valid by done.
    destruct (Z.ltb_spec (k y - k x) 0).
    + constructor; [done|]. constructor. unfold desc. lia.
    + apply Sorted_inv in Hs as [Hs Hhd]. constructor; [by apply IH|].
      destruct l as [|y' l]; simpl.
      * constructor. unfold desc. lia.
      * inversion Hl' as [|? ? Hy' _]; subst.
        rewrite sort_compare_valid by done.
        destruct (Z.ltb_spec (k y' - k x) 0); constructor; unfold desc in *.
        -- lia.
        -- by inversion Hhd.
Qed.

Lemma desc_trans : Transitive desc.
Proof. unfold desc. intros a b c; lia. Qed.

Lemma sorted_head_max x l : Sorted desc (x :: l) -> Forall (fun y => k y <= k x) l.
Proof.
  intros Hs. apply (Sorted_StronglySorted desc_trans) in Hs.
  by apply StronglySorted_inv in Hs as [_ Hall].
Qed.

Lemma filter_same_key_nil z l :
  Forall (fun y => k y < z) l -> List.filter (same_key z) l = [].
Proof.
  induction 1 as [|y l Hy _ IH]; simpl; [done|].
  unfold same_key. destruct (Z.eqb_spec (k y) z); [lia|done].
Qed.

Lemma js_sort_acc_sorted l acc :
  valid l -> valid acc -> Sorted desc acc ->
  valid (fold_left (fun acc x => insert x acc) l acc) /\
  Sorted desc (fold_left (fun acc x => insert x acc) l acc).
Proof.
  revert acc. induction l as [|x l IH]; intros acc Hl Hacc Hs; simpl; [done|].
  inversion Hl; subst. apply IH; auto using valid_insert, insert_sorted.
Qed.

Lemma js_sort_sorted l : valid l -> Sorted desc (js_sort l).
Proof. intros Hl. apply js_sort_acc_sorted; repeat constructor; done. Qed.

(** Keys that increase strictly along the input: the sort reverses it. *)
Definition key_lt (a b : A) : Prop :=
  match key a, key b with Some ka, Some kb => ka < kb | _, _ => False end.

Lemma insert_front x y l : key_lt y x -> insert x (y :: l) = x :: y :: l.
Proof.
  unfold key_lt. simpl. unfold sort_compare. destruct (key y), (key x); try done.
  intros H. by rewrite (proj2 (Z.ltb_lt _ _)) by lia.
Qed.

Lemma js_sort_acc_rev l acc :
  StronglySorted key_lt l -> match acc with [] => True | y :: _ => Forall (key_lt y) l end ->
  fold_left (fun acc x => insert x acc) l acc = rev l ++ acc.
Proof.
  revert acc. induction l as [|x l IH]; intros acc Hs Hacc; [done|]. simpl.
  apply StronglySorted_inv in Hs as [Hs Hx].
  assert (insert x acc = x :: acc) as ->.
  { destruct acc as [|y acc]; [done|]. apply insert_front. by inversion Hacc. }
  rewrite IH by done. by rewrite <- app_assoc.
Qed.

Lemma js_sort_increasing l : StronglySorted key_lt l -> js_sort l = rev l.
Proof. intros Hs. unfold js_sort. rewrite js_sort_acc_rev by done. apply app_nil_r. Qed.

Lemma filter_cons_app (f : A -> bool) x l :
  List.filter f (x :: l) = (if f x then [x] else []) ++ List.filter f l.
Proof. simpl. by destruct (f x). Qed.

Lemma insert_filter z x l :
  is_Some (key x) -> valid l -> Sorted desc l ->
  List.filter (same_key z) (insert x l) =
  List.filter (same_key z) l ++ (if same_key z x then [x] else []).
Proof.
  intros Hx. induction l as [|y l IH]; intros Hl Hs.
  - simpl. by destruct (same_key z x).
  - inversion Hl as [|? ? Hy Hl']; subst. cbn [insert].
    rewrite sort_compare_valid by done.
    destruct (Z.ltb_spec (k y - k x) 0).
    + rewrite (filter_cons_app _ x). destruct (same_key z x) eqn:E.
      * apply Z.eqb_eq in E as <-.
        rewrite (filter_same_key_nil (k x) (y :: l)); [done|].
        constructor; [lia|]. eapply Forall_impl; [apply (sorted_head_max y l Hs)|].
        simpl. lia.
      * simpl. by rewrite app_nil_r.
    + apply Sorted_inv in Hs as [Hs' _].
      rewrite !(filter_cons_app _ y), IH by done. by rewrite app_assoc.
Qed.

Lemma js_sort_acc_filter z l acc :
  valid l -> valid acc -> Sorted desc acc ->
  List.filter (same_key z) (fold_left (fun acc x => insert x acc) l acc) =
  List.filter (same_key z) acc ++ List.filter (same_key z) l.
Proof.
  revert acc. induction l as [|x l IH]; intros acc Hl Hacc Hs; simpl.
  - by rewrite app_nil_r.
  - inversion Hl; subst.
    rewrite IH by auto using valid_insert, insert_sorted.
    rewrite insert_filter by done. rewrite <- app_assoc.
    by destruct (same_key z x).
Qed.

Lemma js_sort_stable l : valid l -> stable l (js_sort l).
Proof. intros Hl z. unfold js_sort. rewrite js_sort_acc_filter; repeat constructor; done. Qed.

Lemma filter_same_key_self x l : In x l -> List.filter (same_key (k x)) l <> [].
Proof.
  intros Hin Hnil. assert (In x (List.filter (same_key (k x)) l)) as Hf.
  { apply filter_In. split; [done|]. apply Z.eqb_refl. }
  by rewrite Hnil in Hf.
Qed.

Lemma in_filter_same_key x l :
  In x l -> In x (List.filter (same_key (k x)) l).
Proof. intros Hin. apply filter_In. split; [done|]. apply Z.eqb_refl. Qed.

(** Two sorted lists with the same elements of every key, in the same
    order, are equal. *)
Lemma sorted_stable_unique l1 l2 :
  Sorted desc l1 -> Sorted desc l2 ->
  (forall z, List.filter (same_key z) l1 = List.filter (same_key z) l2) -> l1 = l2.
Proof.
  revert l2. induction l1 as [|x r1 IH]; intros [|y r2] Hs1 Hs2 Hf; [done|..].
  - exfalso. apply (filter_same_key_self y (y :: r2)); [left; done|]. by rewrite <- Hf.
  - exfalso. apply (filter_same_key_self x (x :: r1)); [left; done|]. by rewrite Hf.
  - assert (k x = k y) as Hk.
    { pose proof (sorted_head_max x r1 Hs1) as Hm1.
      pose proof (sorted_head_max y r2 Hs2) as Hm2.
      rewrite List.Forall_forall in Hm1, Hm2.
      pose proof (in_filter_same_key x (x :: r1) (or_introl eq_refl)) as Hx.
      pose proof (in_filter_same_key y (y :: r2) (or_introl eq_refl)) as Hy.
      rewrite Hf in Hx. rewrite <- Hf in Hy.
      apply filter_In in Hx as [[<-|Hx] _]; [done|].
      apply filter_In in Hy as [[<-|Hy] _]; [done|].
      specialize (Hm1 _ Hy). specialize (Hm2 _ Hx). lia. }
    pose proof (Hf (k x)) as Hx. rewrite !(filter_cons_app _ _ r1), !(filter_cons_app _ _ r2) in Hx.
    unfold same_key in Hx at 1 3. rewrite Z.eqb_refl, Hk, Z.eqb_refl in Hx.
    injection Hx as <- Hx.
    f_equal. apply Sorted_inv in Hs1 as [Hs1 _], Hs2 as [Hs2 _]. apply IH; [done|done|].
    intros z. specialize (Hf z). rewrite !filter_cons_app in Hf.
    destruct (same_key z x); [by injection Hf|done].
Qed.

(** [js_sort] meets the contract, and it is the only list that does. *)
Lemma js_sort_contract l : valid l -> sort_contract l (js_sort l).
Proof. intros Hl. split; [apply js_sort_perm|]. auto using js_sort_sorted, js_sort_stable. Qed.

Lemma sort_contract_unique l l1 l2 :
  sort_contract l l1 -> sort_contract l l2 -> l1 = l2.
Proof.
  intros (_ & Hs1 & Hst1) (_ & Hs2 & Hst2).
  apply sorted_stable_unique; [done|done|]. intros z. by rewrite Hst1, Hst2.
Qed.

(** Newer first, by position: an element with a larger key sits before
    an element with a smaller one. *)
Lemma js_sort_position l i j x y :
  valid l -> js_sort l !! i = Some x -> js_sort l !! j = Some y -> k y < k x -> (i < j)%nat.
Proof.
  intros Hl Hi Hj Hk. destruct (Nat.lt_trichotomy i j) as [|[->|Hji]]; [done| |].
  - rewrite Hi in Hj. injection Hj as ->. lia.
  - pose proof (Sorted_StronglySorted desc_trans (js_sort_sorted l Hl)) as Hs.
    pose proof (strongly_sorted_lookup desc _ j i y x Hs Hji Hj Hi) as Hd. unfold desc in Hd. lia.
Qed.

(** C2: when every [createdAt] gives a number, the result of the sort is
    determined by ECMAScript's contract (a stable, sorted permutation)
    and it is [js_sort]: the model agrees with every conforming engine. *)
Theorem js_sort_contract_unique l l' :
  valid l -> (sort_contract l l' <-> l' = js_sort l).
Proof.
  intros Hl. split.
  - intros Hc. eapply sort_contract_unique; [exact Hc|]. by apply js_sort_contract.
  - intros ->. by apply js_sort_contract.
Qed.
End JsSort.

(** ** Witness *)

Lemma js_sort_contract_unique_witness :
  valid (fun z : Z => Some z) [3; 1; 2] /\
  (sort_contract (fun z : Z => Some z) [3; 1; 2] [3; 2; 1] <->
   [3; 2; 1] = js_sort (fun z : Z => Some z) [3; 1; 2]).
Proof.
  assert (valid (fun z : Z => Some z) [3; 1; 2]) as Hv by (repeat constructor; eexists; reflexivity).
  split; [exact Hv|]. apply (js_sort_contract_unique _ [3; 1; 2] [3; 2; 1] Hv).
Defined.

End Sort.
