(* ===== verification/IsoDate.v ===== *)
(** * [Date.parse] on the Date Time String Format

  [loadTasks] sorts by [new Date(t.createdAt || 0)] (line 80), and the
  API's [createdAt] is a timestamp string: [new Date] hands it to
  [Date.parse] ([Dates.date_value]).  ECMA-262 §21.4.3.2 fixes what
  [Date.parse] does on the Date Time String Format (§21.4.1.32):
  [YYYY], [YYYY-MM] or [YYYY-MM-DD] (or an expanded year [+YYYYYY] /
  [-YYYYYY]), optionally followed by [THH:mm], [THH:mm:ss] or
  [THH:mm:ss.sss] and then [Z] or an offset [+HH:mm] / [-HH:mm].
  Date-only forms are UTC; date-time forms without an offset are local
  time.  A string in the format with an illegal element value is NaN;
  a string outside the format goes to implementation-specific heuristics.

  [js_date_parse local_tza fallback] is that function: the local time
  zone adjustment ([LocalTZA(t, false)], §21.4.1.25) and the heuristics
  are its parameters.  The day arithmetic is the specification's
  ([DayFromYear], [MakeDay], [MakeTime], [MakeDate]) on integers. *)

From Stdlib Require Import Ascii.
From S2P Require Import Prelude JsString JsValue Dates Sort.
Local Open Scope Z_scope.
Local Open Scope todo_scope.

Module IsoDate.
Import JsValue Dates Sort.

(** ** Reading the format *)

Definition digit_value (c : ascii) : option Z :=
  let n := nat_of_ascii c in
  if ((48 <=? n) && (n <=? 57))%nat then Some (Z.of_nat n - 48) else None.

(** Exactly [k] decimal digits, most significant first, added to [acc]. *)
Fixpoint read_digits (k : nat) (acc : Z) (s : string) : option (Z * string) :=
  match k with
  | O => Some (acc, s)
  | S k' =>
      match s with
      | String c s' =>
          match digit_value c with
          | Some d => read_digits k' (acc * 10 + d) s'
          | None => None
          end
      | EmptyString => None
      end
  end.

Definition expect (c : ascii) (s : string) : option string :=
  match s with
  | String d s' => if Ascii.eqb c d then Some s' else None
  | EmptyString => None
  end.

(** The fields of a string in the format, before their values are
    checked.  [i_neg_zero] marks the year [-000000], which the format
    excludes; an offset is its sign and its hours and minutes. *)
Record iso_fields := {
  i_year : Z; i_neg_zero : bool; i_month : Z; i_day : Z;
  i_time : option (Z * Z * Z * Z);
  i_offset : option (Z * Z * Z)
}.

Definition read_year (s : string) : option (Z * bool * string) :=
  match s with
  | String c s' =>
      if Ascii.eqb c "+"%char then '(y, r) ← read_digits 6 0 s'; Some (y, false, r)
      else if Ascii.eqb c "-"%char then '(y, r) ← read_digits 6 0 s'; Some (- y, y =? 0, r)
      else '(y, r) ← read_digits 4 0 s; Some (y, false, r)
  | EmptyString => None
  end.

(** [-MM] and [-DD], each optional; a missing one is 01. *)
Definition read_month_day (s : string) : option (Z * Z * string) :=
  match expect "-"%char s with
  | None => Some (1, 1, s)
  | Some s1 =>
      '(mo, s2) ← read_digits 2 0 s1;
      match expect "-"%char s2 with
      | None => Some (mo, 1, s2)
      | Some s3 => '(d, s4) ← read_digits 2 0 s3; Some (mo, d, s4)
      end
  end.

(** [THH:mm], then [:ss], then [.sss], each optional; a missing one is 0. *)
Definition read_time (s : string) : option (option (Z * Z * Z * Z) * string) :=
  match expect "T"%char s with
  | None => Some (None, s)
  | Some s1 =>
      '(h, s2) ← read_digits 2 0 s1;
      s3 ← expect ":"%char s2;
      '(mi, s4) ← read_digits 2 0 s3;
      match expect ":"%char s4 with
      | None => Some (Some (h, mi, 0, 0), s4)
      | Some s5 =>
          '(sec, s6) ← read_digits 2 0 s5;
          match expect "."%char s6 with
          | None => Some (Some (h, mi, sec, 0), s6)
          | Some s7 => '(ms, s8) ← read_digits 3 0 s7; Some (Some (h, mi, sec, ms), s8)
          end
      end
  end.

(** [Z] or [+HH:mm] / [-HH:mm], or nothing. *)
Definition read_offset (s : string) : option (option (Z * Z * Z) * string) :=
  match s with
  | EmptyString => Some (None, s)
  | String c s' =>
      if Ascii.eqb c "Z"%char then Some (Some (1, 0, 0), s')
      else if Ascii.eqb c "+"%char || Ascii.eqb c "-"%char then
        '(oh, r1) ← read_digits 2 0 s';
        r2 ← expect ":"%char r1;
        '(om, r3) ← read_digits 2 0 r2;
        Some (Some (if Ascii.eqb c "+"%char then 1 else -1, oh, om), r3)
      else None
  end.

(** The whole string must be consumed; an offset only follows a time. *)
Definition parse_iso (s : string) : option iso_fields :=
  '(y, nz, r1) ← read_year s;
  '(mo, d, r2) ← read_month_day r1;
  '(tm, r3) ← read_time r2;
  '(off, r4) ← match tm with None => Some (None, r3) | Some _ => read_offset r3 end;
  match r4 with
  | EmptyString =>
      Some {| i_year := y; i_neg_zero := nz; i_month := mo; i_day := d;
              i_time := tm; i_offset := off |}
  | String _ _ => None
  end.

Definition in_range (lo x hi : Z) : bool := (lo <=? x) && (x <=? hi).

(** The element ranges of §21.4.1.32; [24:00] only as [24:00:00.000]. *)
Definition legal (f : iso_fields) : bool :=
  negb (i_neg_zero f) && in_range 1 (i_month f) 12 && in_range 1 (i_day f) 31 &&
  match i_time f with
  | None => true
  | Some (h, mi, sec, ms) =>
      in_range 0 mi 59 && in_range 0 sec 59 &&
      (in_range 0 h 23 || ((h =? 24) && (mi =? 0) && (sec =? 0) && (ms =? 0)))
  end &&
  match i_offset f with
  | None => true
  | Some (_, oh, om) => in_range 0 oh 23 && in_range 0 om 59
  end.

(** ** The specification's day arithmetic *)

Definition ms_per_day : Z := 86400000.

(** DayFromYear (§21.4.1.9). *)
Definition day_from_year (y : Z) : Z :=
  365 * (y - 1970) + (y - 1969) / 4 - (y - 1901) / 100 + (y - 1601) / 400.

Definition leap_year (y : Z) : bool :=
  ((y mod 4 =? 0) && negb (y mod 100 =? 0)) || (y mod 400 =? 0).

(** The day within its year on which month [m] (0 to 11) starts. *)
Definition month_start (leap : bool) (m : Z) : Z :=
  nth (Z.to_nat m) [0; 31; 59; 90; 120; 151; 181; 212; 243; 273; 304; 334] 0 +
  (if leap && (2 <=? m) then 1 else 0).

(** MakeDay (§21.4.1.28) for a month in 0-11. *)
Definition make_day (y m d : Z) : Z :=
  day_from_year y + month_start (leap_year y) m + d - 1.

(** MakeTime and MakeDate (§21.4.1.27, §21.4.1.29). *)
Definition make_time (h mi sec ms : Z) : Z := h * 3600000 + mi * 60000 + sec * 1000 + ms.

Definition make_date (day time : Z) : Z := day * ms_per_day + time.

(** The time value a legal string denotes: an offset is subtracted, a
    local date-time goes through UTC (t - LocalTZA(t, false)). *)
Definition iso_time_value (local_tza : Z -> Z) (f : iso_fields) : Z :=
  let '(h, mi, sec, ms) := default (0, 0, 0, 0) (i_time f) in
  let t := make_date (make_day (i_year f) (i_month f - 1) (i_day f)) (make_time h mi sec ms) in
  match i_offset f, i_time f with
  | Some (sg, oh, om), _ => t - sg * (oh * 3600000 + om * 60000)
  | None, Some _ => t - local_tza t
  | None, None => t
  end.

(** [Date.parse] (§21.4.3.2). *)
Definition js_date_parse (local_tza : Z -> Z) (fallback : string -> option Z) (s : string)
    : option Z :=
  match parse_iso s with
  | Some f => if legal f then time_clip (iso_time_value local_tza f) else None
  | None => fallback s
  end.

(** ** The canonical form

  [Date.prototype.toISOString] writes [YYYY-MM-DDTHH:mm:ss.sssZ] for the
  years 0 to 9999, the form the API's [createdAt] values take. *)

Definition digit_char (d : Z) : ascii := ascii_of_nat (Z.to_nat (48 + d)).

(** [n] written with exactly [k] digits. *)
Fixpoint pad (k : nat) (n : Z) : string :=
  match k with
  | O => EmptyString
  | S k' => String (digit_char (n / 10 ^ Z.of_nat k')) (pad k' (n mod 10 ^ Z.of_nat k'))
  end.

(** A timestamp's fields: year, month (1-12), day, hours, minutes,
    seconds, milliseconds. *)
Record stamp := {
  st_year : Z; st_month : Z; st_day : Z; st_hour : Z; st_minute : Z; st_second : Z; st_ms : Z
}.

Definition iso_string (st : stamp) : string :=
  pad 4 (st_year st) +++ "-" +++ pad 2 (st_month st) +++ "-" +++ pad 2 (st_day st) +++ "T" +++
  pad 2 (st_hour st) +++ ":" +++ pad 2 (st_minute st) +++ ":" +++ pad 2 (st_second st) +++
  "." +++ pad 3 (st_ms st) +++ "Z".

Definition days_in_month (leap : bool) (m : Z) : Z :=
  if m =? 11 then 31 else month_start leap (m + 1) - month_start leap m.

(** The fields denote a calendar instant that [toISOString] writes. *)
Definition calendar_ok (st : stamp) : Prop :=
  0 <= st_year st <= 9999 /\ 1 <= st_month st <= 12 /\
  1 <= st_day st <= days_in_month (leap_year (st_year st)) (st_month st - 1) /\
  0 <= st_hour st <= 23 /\ 0 <= st_minute st <= 59 /\ 0 <= st_second st <= 59 /\
  0 <= st_ms st <= 999.

Definition stamp_day (st : stamp) : Z := make_day (st_year st) (st_month st - 1) (st_day st).

Definition stamp_time (st : stamp) : Z :=
  make_time (st_hour st) (st_minute st) (st_second st) (st_ms st).

Definition instant (st : stamp) : Z := make_date (stamp_day st) (stamp_time st).

(** Lexicographic order on lists of integers. *)
Fixpoint lex_lt (l1 l2 : list Z) : bool :=
  match l1, l2 with
  | x :: l1', y :: l2' => (x <? y) || ((x =? y) && lex_lt l1' l2')
  | _, _ => false
  end.

Definition stamp_fields (st : stamp) : list Z :=
  [st_year st; st_month st; st_day st; st_hour st; st_minute st; st_second st; st_ms st].

Definition stamp_lt (a b : stamp) : bool := lex_lt (stamp_fields a) (stamp_fields b).

Definition task_local_ten : value :=
  VObj [("id"%string, VStr "3"); ("createdAt"%string, VStr "2024-01-01T10:00")].
Definition task_utc_half_nine : value :=
  VObj [("id"%string, VStr "4"); ("createdAt"%string, VStr "2024-01-01T09:30Z")].

(** [LocalTZA] of a viewer at UTC+1. *)
Definition utc_plus_one : Z -> Z := fun _ => 3600000.

Definition leap_noon : stamp :=
  {| st_year := 2024; st_month := 2; st_day := 29; st_hour := 12; st_minute := 34;
     st_second := 56; st_ms := 789 |}.

Definition dec_morning : stamp :=
  {| st_year := 2025; st_month := 12; st_day := 9; st_hour := 8; st_minute := 15;
     st_second := 30; st_ms := 123 |}.

Definition task_leap : value :=
  VObj [("id"%string, VStr "1"); ("createdAt"%string, VStr (iso_string leap_noon))].
Definition task_dec : value :=
  VObj [("id"%string, VStr "2"); ("createdAt"%string, VStr (iso_string dec_morning))].

(** ** Examples against known instants *)

Definition utc_only : Z -> Z := fun _ => 0.
Definition no_fallback : string -> option Z := fun _ => None.

Example parse_epoch : js_date_parse utc_only no_fallback "1970-01-01T00:00:00.000Z" = Some 0.
Proof. reflexivity. Qed.

Example parse_leap_day :
  js_date_parse utc_only no_fallback "2024-02-29T12:34:56.789Z" = Some 1709210096789.
Proof. reflexivity. Qed.

Example parse_before_epoch :
  js_date_parse utc_only no_fallback "1969-12-31T23:59:59.999Z" = Some (-1).
Proof. reflexivity. Qed.

Example parse_year_one : js_date_parse utc_only no_fallback "0001-01-01" = Some (-62135596800000).
Proof. reflexivity. Qed.

Example parse_offset :
  js_date_parse utc_only no_fallback "2000-01-01T01:30+01:30" = Some 946684800000.
Proof. reflexivity. Qed.

Example parse_expanded_negative_zero : js_date_parse utc_only no_fallback "-000000-01-01" = None.
Proof. reflexivity. Qed.

Example parse_illegal_month : js_date_parse utc_only (fun _ => Some 7) "2024-13-01" = None.
Proof. reflexivity. Qed.

Example parse_outside_format : js_date_parse utc_only (fun _ => Some 7) "Dec 9, 2025" = Some 7.
Proof. reflexivity. Qed.

Example iso_string_leap_day : iso_string leap_noon = "2024-02-29T12:34:56.789Z"%string.
Proof. reflexivity. Qed.

(** ** Ranges of the day arithmetic *)

Ltac enum_month m :=
  let H := fresh in
  assert (m = 0 \/ m = 1 \/ m = 2 \/ m = 3 \/ m = 4 \/ m = 5 \/ m = 6 \/ m = 7 \/
          m = 8 \/ m = 9 \/ m = 10 \/ m = 11) as H by lia;
  repeat destruct H as [->|H]; [..|subst m].

Lemma month_start_range l m : 0 <= m <= 11 -> 0 <= month_start l m <= 335.
Proof. intros Hm. enum_month m; destruct l; vm_compute; split; discriminate. Qed.

Lemma days_in_month_range l m : 0 <= m <= 11 -> 28 <= days_in_month l m <= 31.
Proof. intros Hm. enum_month m; destruct l; vm_compute; split; discriminate. Qed.

Lemma day_from_year_range y : 0 <= y <= 9999 -> -719528 <= day_from_year y <= 2932897.
Proof. intros Hy. unfold day_from_year. Z.div_mod_to_equations. lia. Qed.

Lemma instant_range st : calendar_ok st -> Z.abs (instant st) <= max_time.
Proof.
  intros (Hy & Hmo & Hd & Hh & Hmi & Hs & Hms).
  pose proof (day_from_year_range _ Hy).
  pose proof (month_start_range (leap_year (st_year st)) (st_month st - 1) ltac:(lia)).
  pose proof (days_in_month_range (leap_year (st_year st)) (st_month st - 1) ltac:(lia)).
  unfold instant, stamp_day, stamp_time, make_date, make_day, make_time, ms_per_day, max_time.
  lia.
Qed.

(** ** The calendar arithmetic is monotone *)

Lemma day_from_year_succ y :
  day_from_year (y + 1) = day_from_year y + 365 + (if leap_year y then 1 else 0).
Proof.
  unfold day_from_year, leap_year.
  destruct (Z.eqb_spec (y mod 4) 0), (Z.eqb_spec (y mod 100) 0), (Z.eqb_spec (y mod 400) 0);
    simpl; Z.div_mod_to_equations; lia.
Qed.

Lemma day_from_year_mono y1 y2 : y1 <= y2 -> day_from_year y1 <= day_from_year y2.
Proof. intros. unfold day_from_year. Z.div_mod_to_equations. lia. Qed.

Lemma month_in_year l m : 0 <= m <= 11 ->
  month_start l m + days_in_month l m <= 365 + (if l then 1 else 0).
Proof. intros Hm. enum_month m; destruct l; vm_compute; discriminate. Qed.

Lemma month_end_le l m1 m2 : 0 <= m1 < m2 -> m2 <= 11 ->
  month_start l m1 + days_in_month l m1 <= month_start l m2.
Proof. intros H1 H2. enum_month m1; enum_month m2; try lia; destruct l; vm_compute; discriminate. Qed.

Lemma stamp_day_lt a b : calendar_ok a -> calendar_ok b ->
  st_year a < st_year b \/ st_year a = st_year b /\
    (st_month a < st_month b \/ st_month a = st_month b /\ st_day a < st_day b) ->
  stamp_day a < stamp_day b.
Proof.
  intros (Hya & Hma & Hda & _) (Hyb & Hmb & Hdb & _) Hlt. unfold stamp_day, make_day.
  pose proof (month_start_range (leap_year (st_year b)) (st_month b - 1) ltac:(lia)).
  pose proof (month_in_year (leap_year (st_year a)) (st_month a - 1) ltac:(lia)).
  destruct Hlt as [Hy|(Hy & [Hm|(Hm & Hd)])].
  - pose proof (day_from_year_succ (st_year a)).
    pose proof (day_from_year_mono (st_year a + 1) (st_year b) ltac:(lia)).
    destruct (leap_year (st_year a)); lia.
  - rewrite <- Hy in *.
    pose proof (month_end_le (leap_year (st_year a)) (st_month a - 1) (st_month b - 1)
      ltac:(lia) ltac:(lia)). lia.
  - rewrite Hy, Hm. lia.
Qed.

Lemma stamp_time_range st : calendar_ok st -> 0 <= stamp_time st < ms_per_day.
Proof. intros (_ & _ & _ & ?). unfold stamp_time, make_time, ms_per_day. lia. Qed.

(** ** Reading back what [pad] writes *)

Lemma digit_value_char d : 0 <= d < 10 -> digit_value (digit_char d) = Some d.
Proof.
  intros Hd. assert (d = 0 \/ d = 1 \/ d = 2 \/ d = 3 \/ d = 4 \/ d = 5 \/ d = 6 \/ d = 7 \/
    d = 8 \/ d = 9) as Hc by lia.
  repeat destruct Hc as [->|Hc]; try reflexivity. subst. reflexivity.
Qed.

Lemma digit_char_not_sign d : 0 <= d < 10 ->
  Ascii.eqb (digit_char d) "+"%char = false /\ Ascii.eqb (digit_char d) "-"%char = false.
Proof.
  intros Hd. assert (d = 0 \/ d = 1 \/ d = 2 \/ d = 3 \/ d = 4 \/ d = 5 \/ d = 6 \/ d = 7 \/
    d = 8 \/ d = 9) as Hc by lia.
  repeat destruct Hc as [->|Hc]; try (split; reflexivity). subst. split; reflexivity.
Qed.

Lemma read_pad k : forall acc n rest, 0 <= n < 10 ^ Z.of_nat k ->
  read_digits k acc (pad k n +++ rest) = Some (acc * 10 ^ Z.of_nat k + n, rest).
Proof.
  induction k as [|k IH]; intros acc n rest Hn; simpl.
  - f_equal. f_equal. simpl in Hn. lia.
  - set (P := 10 ^ Z.of_nat k). assert (0 < P) by (apply Z.pow_pos_nonneg; lia).
    assert (10 ^ Z.of_nat (S k) = P * 10) as HP
      by (rewrite Nat2Z.inj_succ, Z.pow_succ_r by lia; unfold P; lia).
    rewrite HP in Hn |- *.
    assert (0 <= n / P < 10) by (split; [apply Z.div_pos|apply Z.div_lt_upper_bound]; lia).
    rewrite digit_value_char by done.
    rewrite IH by (apply Z.mod_pos_bound; lia).
    do 2 f_equal. pose proof (Z.div_mod n P ltac:(lia)). nia.
Qed.

Lemma read_pad0 k n rest : 0 <= n < 10 ^ Z.of_nat k ->
  read_digits k 0 (pad k n +++ rest) = Some (n, rest).
Proof. intros Hn. rewrite read_pad by done. by rewrite Z.mul_0_l, Z.add_0_l. Qed.

Lemma read_year_pad4 y r : 0 <= y < 10000 -> read_year (pad 4 y +++ r) = Some (y, false, r).
Proof.
  intros Hy. assert (0 <= y / 1000 < 10) by (split; [apply Z.div_pos|apply Z.div_lt_upper_bound]; lia).
  destruct (digit_char_not_sign (y / 1000) ltac:(done)) as [Hp Hm].
  assert (pad 4 y +++ r = String (digit_char (y / 1000)) (pad 3 (y mod 1000) +++ r)) as E
    by reflexivity.
  unfold read_year. rewrite E at 1. cbv iota beta. rewrite Hp, Hm, read_pad0 by (simpl; lia).
  reflexivity.
Qed.

Lemma parse_iso_string st :
  0 <= st_year st < 10000 -> 0 <= st_month st < 100 -> 0 <= st_day st < 100 ->
  0 <= st_hour st < 100 -> 0 <= st_minute st < 100 -> 0 <= st_second st < 100 ->
  0 <= st_ms st < 1000 ->
  parse_iso (iso_string st) =
    Some {| i_year := st_year st; i_neg_zero := false; i_month := st_month st;
            i_day := st_day st; i_time := Some (st_hour st, st_minute st, st_second st, st_ms st);
            i_offset := Some (1, 0, 0) |}.
Proof.
  intros. unfold parse_iso, iso_string. rewrite read_year_pad4 by done.
  cbn -[pad read_digits].
  repeat (rewrite read_pad0 by (simpl; lia); cbn -[pad read_digits]).
  reflexivity.
Qed.

Lemma iso_string_head st : exists c rest, iso_string st = String c rest.
Proof. unfold iso_string. cbn [pad]. eauto. Qed.

Lemma js_date_parse_iso local_tza fallback st :
  calendar_ok st -> js_date_parse local_tza fallback (iso_string st) = Some (instant st).
Proof.
  intros Hc. pose proof (instant_range st Hc) as Hb.
  pose proof Hc as (Hy & Hmo & Hd & Hh & Hmi & Hs & Hms).
  pose proof (days_in_month_range (leap_year (st_year st)) (st_month st - 1) ltac:(lia)).
  unfold js_date_parse. rewrite parse_iso_string by lia.
  assert (legal {| i_year := st_year st; i_neg_zero := false; i_month := st_month st;
    i_day := st_day st; i_time := Some (st_hour st, st_minute st, st_second st, st_ms st);
    i_offset := Some (1, 0, 0) |} = true) as -> .
  { unfold legal, in_range. simpl.
    repeat rewrite (proj2 (Z.leb_le _ _)) by lia. reflexivity. }
  unfold iso_time_value, time_clip. cbn -[make_date make_day make_time].
  replace (make_date _ _ - 1 * (0 * 3600000 + 0 * 60000)) with (instant st)
    by (unfold instant, stamp_day, stamp_time; lia).
  by rewrite (proj2 (Z.leb_le _ _) Hb).
Qed.

(** C27: round trip.  Whatever the local time zone and whatever the
    implementation does outside the format, [Date.parse] of the string
    [toISOString] writes for a calendar instant gives back that instant:
    the API's [createdAt] values parse to their UTC time value. *)
Theorem js_date_parse_iso_string local_tza fallback st :
  calendar_ok st -> js_date_parse local_tza fallback (iso_string st) = Some (instant st).
Proof. apply js_date_parse_iso. Qed.

Lemma instant_lt a b :
  calendar_ok a -> calendar_ok b -> stamp_lt a b = true -> instant a < instant b.
Proof.
  intros Ha Hb Hlt. unfold stamp_lt, stamp_fields in Hlt. cbn [lex_lt] in Hlt.
  repeat rewrite ?orb_true_iff, ?andb_true_iff, ?Z.ltb_lt, ?Z.eqb_eq in Hlt.
  pose proof (stamp_time_range a Ha). pose proof (stamp_time_range b Hb).
  unfold instant, make_date, ms_per_day in *.
  destruct Hlt as [Hy|(Hy & [Hm|(Hm & [Hd|(Hd & Ht)])])];
    try (pose proof (stamp_day_lt a b Ha Hb ltac:(lia)); lia).
  unfold stamp_day, stamp_time, make_time in *. rewrite Hy, Hm, Hd.
  destruct Ha as (_ & _ & _ & ?), Hb as (_ & _ & _ & ?). lia.
Qed.

(** The day arithmetic orders instants as the calendar does: of two
    calendar instants, the one whose fields come first in lexicographic
    order (year, month, day, hours, minutes, seconds, milliseconds) has
    the smaller time value. *)
Theorem instant_monotone a b :
  calendar_ok a -> calendar_ok b -> stamp_lt a b = true -> instant a < instant b.
Proof. apply instant_lt. Qed.

Lemma created_at_key_iso local_tza fallback t st :
  get_prop t "createdAt" = Done (VStr (iso_string st)) -> calendar_ok st ->
  created_at_key (js_date_parse local_tza fallback) t = Some (instant st).
Proof.
  intros Ht Hc. unfold created_at_key. rewrite Ht.
  destruct (iso_string_head st) as (c & rest & Hs).
  simpl truthy. rewrite Hs. simpl. rewrite <- Hs, js_date_parse_iso by done. simpl.
  unfold time_clip. by rewrite (proj2 (Z.leb_le _ _) (instant_range st Hc)).
Qed.

(** C28: with [Date.parse] of the format, a loaded task whose
    [createdAt] is a strictly later calendar instant is shown above a
    task with an earlier one: newest first, as the timestamps read. *)
Theorem newer_shown_first local_tza fallback ts i j x y sx sy :
  valid (created_at_key (js_date_parse local_tza fallback)) ts ->
  js_sort (created_at_key (js_date_parse local_tza fallback)) ts !! i = Some x ->
  js_sort (created_at_key (js_date_parse local_tza fallback)) ts !! j = Some y ->
  get_prop x "createdAt" = Done (VStr (iso_string sx)) -> calendar_ok sx ->
  get_prop y "createdAt" = Done (VStr (iso_string sy)) -> calendar_ok sy ->
  stamp_lt sy sx = true -> (i < j)%nat.
Proof.
  intros Hv Hi Hj Hx Hcx Hy Hcy Hlt. apply (js_sort_position _ ts i j x y Hv Hi Hj).
  unfold k. rewrite (created_at_key_iso _ _ x sx), (created_at_key_iso _ _ y sy) by done.
  simpl. by apply instant_lt.
Qed.

(** A [createdAt] written as a date-time without offset is read in
    the viewer's time zone, so the order [loadTasks] shows depends on it:
    the same two tasks are shown in one order to a viewer in UTC and in
    the other to a viewer at UTC+1. *)
Example local_time_order_depends :
  js_sort (created_at_key (js_date_parse utc_only no_fallback))
    [task_utc_half_nine; task_local_ten] = [task_local_ten; task_utc_half_nine] /\
  js_sort (created_at_key (js_date_parse utc_plus_one no_fallback))
    [task_utc_half_nine; task_local_ten] = [task_utc_half_nine; task_local_ten].
Proof. split; vm_compute; reflexivity. Qed.

Lemma js_date_parse_iso_string_witness :
  calendar_ok leap_noon /\
  js_date_parse utc_only no_fallback (iso_string leap_noon) = Some 1709210096789.
Proof.
  assert (calendar_ok leap_noon) as Hc by (vm_compute; repeat split; discriminate).
  split; [exact Hc|]. exact (js_date_parse_iso_string utc_only no_fallback leap_noon Hc).
Defined.

Lemma instant_monotone_witness :
  calendar_ok leap_noon /\ calendar_ok dec_morning /\ stamp_lt leap_noon dec_morning = true /\
  instant leap_noon < instant dec_morning.
Proof.
  assert (calendar_ok leap_noon) as Ha by (vm_compute; repeat split; discriminate).
  assert (calendar_ok dec_morning) as Hb by (vm_compute; repeat split; discriminate).
  assert (stamp_lt leap_noon dec_morning = true) as Hl by reflexivity.
  split; [exact Ha|]. split; [exact Hb|]. split; [exact Hl|].
  exact (instant_monotone leap_noon dec_morning Ha Hb Hl).
Defined.

Lemma newer_shown_first_witness :
  js_sort (created_at_key (js_date_parse utc_only no_fallback)) [task_leap; task_dec] =
    [task_dec; task_leap] /\ (0 < 1)%nat.
Proof.
  assert (valid (created_at_key (js_date_parse utc_only no_fallback)) [task_leap; task_dec])
    as Hv by (repeat constructor; eexists; vm_compute; reflexivity).
  assert (calendar_ok leap_noon) as Ha by (vm_compute; repeat split; discriminate).
  assert (calendar_ok dec_morning) as Hb by (vm_compute; repeat split; discriminate).
  split; [vm_compute; reflexivity|].
  exact (newer_shown_first utc_only no_fallback [task_leap; task_dec] 0 1 task_dec task_leap
    dec_morning leap_noon Hv (eq_refl _) (eq_refl _) (eq_refl _) Hb (eq_refl _) Ha (eq_refl _)).
Defined.

End IsoDate.
