(* ===== verification/Transport.v ===== *)
(** * The transport wrapper [apiFetch] (src/task/app.js, lines 2 and 10-25)

  [apiFetch(path, options)] is an [async] function.  Its synchronous part
  builds [API_URL + path] and calls [fetch]: [api_request] is the request
  that call issues.  Everything after the first [await] depends on the
  network's answer ([fetch_answer]): [api_complete] gives what the
  awaiting caller receives (a value or the rethrown error) and the
  console and alert effects that [apiFetch] performs before that.

  [ApiTransport] is the interface the event loop ([Session]) uses: a
  request builder and a completion function with two laws, "a success is
  silent" and "a failure alerts exactly once".  [apiFetch] is its
  instance. *)

From Stdlib Require Import Ascii DecimalString.
From S2P Require Import Prelude JsString JsValue Json.
Local Open Scope string_scope.
Local Open Scope todo_scope.

Module Transport.
Import JsString JsValue.

(** [const API_URL] (line 2). *)
Definition API_URL : string := "https://693840b44618a71d77cf8cee.mockapi.io/api/v1/tasks".

(** The [options] argument: method, headers and the body text (the
    string [JSON.stringify] returned; [None] when there is no body). *)
Record fetch_options := {
  opt_method : option string;
  opt_headers : list (string * string);
  opt_body : option string
}.

(** [options = {}]. *)
Definition no_options : fetch_options :=
  {| opt_method := None; opt_headers := []; opt_body := None |}.

Record request := {
  rq_url : string;
  rq_method : string;
  rq_headers : list (string * string);
  rq_body : option string
}.

(** [const url = API_URL + path; fetch(url, options)]; [fetch] defaults
    the method to GET. *)
Definition api_request (path : string) (o : fetch_options) : request :=
  {| rq_url := API_URL +++ path;
     rq_method := default "GET" (opt_method o);
     rq_headers := opt_headers o;
     rq_body := opt_body o |}.

(** What the network makes of a request: [fetch] rejects (a TypeError
    such as "Failed to fetch"), or a response with its status, its body
    text and the result of parsing that text as JSON ([res.json()]
    rejects with a SyntaxError on a body that is not JSON). *)
Inductive fetch_answer : Type :=
| NetworkFailure (err : js_error)
| Response (status : Z) (body_text : string) (body_json : js_outcome value).

(** The observable effects of the page, in the order they happen. *)
Inductive effect : Type :=
| EFetch (rid : nat) (rq : request)
| EConsoleError (label : string) (err : js_error)
| EAlert (msg : string)
| EConfirm (msg : string) (answer : bool)
| EFocus
| EUncaught (err : js_error).

(** [res.ok]: the status is in 200-299. *)
Definition response_ok (status : Z) : bool := (200 <=? status)%Z && (status <=? 299)%Z.

(** The value of the [try] block of [apiFetch] (lines 12-19). *)
Definition api_result (a : fetch_answer) : js_outcome value :=
  match a with
  | NetworkFailure e => Raised e
  | Response status text json =>
      if response_ok status then json
      else Raised (Error ("HTTP " +++ number_to_string status +++ " - " +++ text))
  end.

(** The [catch] block (lines 20-24): log, alert, rethrow. *)
Definition api_complete (a : fetch_answer) : js_outcome value * list effect :=
  match api_result a with
  | Done v => (Done v, [])
  | Raised e =>
      (Raised e, [EConsoleError "API error:" e; EAlert ("Error con la API: " +++ error_message e)])
  end.

(** Reading an [apiFetch] error message back: ["HTTP "], the status up
    to the next space, [" - "], and the body text. *)
Fixpoint split_at_space (s : string) : string * string :=
  match s with
  | EmptyString => (EmptyString, EmptyString)
  | String c s' =>
      if Ascii.eqb c " "%char then (EmptyString, s)
      else let '(a, b) := split_at_space s' in (String c a, b)
  end.

Definition decode_http_error (msg : string) : option (Z * string) :=
  rest ← strip_prefix "HTTP " msg;
  let '(num, tail) := split_at_space rest in
  text ← strip_prefix " - " tail;
  i ← NilEmpty.int_of_string num;
  Some (Z.of_int i, text).

(** ** The interface between the event loop and the transport *)

Definition is_alert (e : effect) : bool := match e with EAlert _ => true | _ => false end.

Definition count_alerts (fx : list effect) : nat := length (List.filter is_alert fx).

Class ApiTransport := {
  tr_request : string -> fetch_options -> request;
  tr_complete : fetch_answer -> js_outcome value * list effect
}.

Class ApiTransportLaws (T : ApiTransport) : Prop := {
  tr_complete_success : forall a v,
    fst (tr_complete a) = Done v -> snd (tr_complete a) = [];
  tr_complete_failure : forall a e,
    fst (tr_complete a) = Raised e -> count_alerts (snd (tr_complete a)) = 1;
  tr_complete_fetch : forall a, Forall (fun fx => forall rid rq, fx <> EFetch rid rq) (snd (tr_complete a))
}.

#[export] Instance apiFetch : ApiTransport :=
  {| tr_request := api_request; tr_complete := api_complete |}.

(** ** Behaviour of [apiFetch] *)

Lemma split_at_space_app a b :
  space_free a = true -> split_at_space (a +++ String " "%char b) = (a, String " "%char b).
Proof.
  induction a as [|c a IH]; simpl; [done|].
  intros [Hc Ha]%andb_prop. apply negb_true_iff in Hc. rewrite Hc, IH by done. done.
Qed.

(** C26: round trip.  On a status outside 200-299 (below 10^21, as
    every HTTP status is), the message of the [Error] that [apiFetch]
    throws, and that its alert shows, gives back the status and the
    body text of the response. *)
Theorem http_error_roundtrip status text json :
  response_ok status = false -> (Z.abs status < 10 ^ 21)%Z ->
  exists e, api_result (Response status text json) = Raised e /\
    decode_http_error (error_message e) = Some (status, text).
Proof.
  intros Hok Hlt. simpl. rewrite Hok. eexists. split; [reflexivity|].
  unfold number_to_string. replace (Z.abs status <? 10 ^ 21)%Z with true by lia.
  unfold decode_http_error. simpl error_message.
  cbn -[decimal split_at_space].
  rewrite split_at_space_app by apply decimal_space_free.
  cbn -[decimal]. pose proof (decimal_roundtrip status) as R.
  destruct (NilEmpty.int_of_string (decimal status)); simpl in *; congruence.
Qed.

Lemma http_error_roundtrip_witness :
  response_ok 404 = false /\ (Z.abs 404 < 10 ^ 21)%Z /\
  decode_http_error "HTTP 404 - Not found" = Some (404%Z, "Not found").
Proof.
  split; [reflexivity|]. split; [lia|].
  destruct (http_error_roundtrip 404 "Not found" (Done VNull)) as (e & He & Hd);
    [reflexivity|lia|].
  simpl in He. injection He as <-. exact Hd.
Defined.

Lemma api_complete_fst a : fst (api_complete a) = api_result a.
Proof. unfold api_complete. by destruct (api_result a). Qed.

#[export] Instance apiFetch_laws : ApiTransportLaws apiFetch.
Proof.
  split; simpl; unfold api_complete; intros a.
  - intros v. by destruct (api_result a).
  - intros e. by destruct (api_result a).
  - destruct (api_result a); repeat constructor; discriminate.
Qed.

End Transport.
