(* ===== verification/Server.v ===== *)
(** * The remote resource: the MockAPI [tasks] collection

  Section 6 of the specification describes the collaborator the client
  talks to: a collection resource at [API_URL] that answers
  - [GET /] with the array of its tasks,
  - [POST /] with body [{title, completed}] with the created task, the
    server assigning [id] and [createdAt],
  - [PUT /{id}] with body the full task with updated fields, with the
    updated task,
  - [DELETE /{id}] with the deleted task.
  The resource is not code of this repository: this file is the model of
  it the client's behaviour is proved against, written from the
  specification and from what MockAPI does with a schema of four fields
  (section 3): ids are the decimal strings "1", "2", ... of a counter,
  [createdAt] is a timestamp string read off the server's clock, a field
  of the wrong type in a body is ignored, an unknown id answers 404 with
  the text [Not found].

  The server keeps typed records ([task]) and sends their JSON text
  ([JSON.stringify] of [task_value]); the body a client receives is that
  text, and [res.json()] is [JSON.parse] of it ([res_json]).  The clock
  is the list of timestamps the next creations get; a creation when it is
  exhausted answers 500. *)

From Stdlib Require Import Ascii.
From S2P Require Import Prelude JsString JsValue Json JsonParse Transport.
Local Open Scope todo_scope.

Module Server.
Import JsString JsValue Json JsonParse Transport.

(** A task as the resource stores it (spec section 3). *)
Record task := {
  tk_id : nat;
  tk_title : string;
  tk_completed : bool;
  tk_created : string
}.

Record server := {
  sv_tasks : list task;
  sv_next_id : nat;
  sv_clock : list string
}.

Definition id_string (n : nat) : string := decimal (Z.of_nat n).

(** The JSON object the resource sends for a task. *)
Definition task_members (t : task) : list (string * value) :=
  [("createdAt", VStr (tk_created t)); ("title", VStr (tk_title t));
   ("completed", VBool (tk_completed t)); ("id", VStr (id_string (tk_id t)))]%string.

Definition task_value (t : task) : value := VObj (task_members t).

Definition has_id (id : string) (t : task) : bool := String.eqb (id_string (tk_id t)) id.

Definition set_tasks (ts : list task) (sv : server) : server :=
  {| sv_tasks := ts; sv_next_id := sv_next_id sv; sv_clock := sv_clock sv |}.

(** [res.json()] on the body text of an answer.  The resource's bodies
    hold strings and booleans only, so the values [JSON.parse] gives
    that this development does not represent never arise from them. *)
Definition res_json (text : string) : js_outcome value :=
  match json_parse text with
  | POk v => Done v
  | PErr | PUnsup => Raised (SyntaxError "Unexpected token in JSON")
  end.

Definition reply (status : Z) (text : string) : fetch_answer := Response status text (res_json text).
Definition reply_json (status : Z) (v : value) : fetch_answer := reply status (jtext v).

(** The members of a request body that [JSON.parse] reads as an object. *)
Definition body_members (rq : request) : option (list (string * value)) :=
  b ← rq_body rq;
  match json_parse b with POk (VObj ps) => Some ps | _ => None end.

Definition str_field (k : string) (ps : list (string * value)) (d : string) : string :=
  match assoc_lookup k ps with Some (VStr s) => s | _ => d end.

Definition bool_field (k : string) (ps : list (string * value)) (d : bool) : bool :=
  match assoc_lookup k ps with Some (VBool b) => b | _ => d end.

(** A created task: the body's title and completed (empty and false when
    missing), the next id, the next reading of the clock. *)
Definition new_task (n : nat) (created : string) (ps : list (string * value)) : task :=
  {| tk_id := n; tk_title := str_field "title" ps ""; tk_completed := bool_field "completed" ps false;
     tk_created := created |}.

(** A PUT overwrites the fields its body gives; the id is the URL's. *)
Definition update_task (ps : list (string * value)) (t : task) : task :=
  {| tk_id := tk_id t; tk_title := str_field "title" ps (tk_title t);
     tk_completed := bool_field "completed" ps (tk_completed t);
     tk_created := str_field "createdAt" ps (tk_created t) |}.

(** The resource after a creation: the task appended, the id counter
    advanced, the clock's first reading spent. *)
Definition create (sv : server) (t : task) (clock' : list string) : server :=
  {| sv_tasks := sv_tasks sv ++ [t]; sv_next_id := S (sv_next_id sv); sv_clock := clock' |}.

Definition serve_collection (sv : server) (rq : request) : server * fetch_answer :=
  if String.eqb (rq_method rq) "GET" then (sv, reply_json 200 (VArr (map task_value (sv_tasks sv))))
  else if String.eqb (rq_method rq) "POST" then
    match body_members rq with
    | None => (sv, reply 400 "Bad Request")
    | Some ps =>
        match sv_clock sv with
        | [] => (sv, reply 500 "Internal Server Error")
        | c :: clock' =>
            let t := new_task (sv_next_id sv) c ps in
            (create sv t clock', reply_json 201 (task_value t))
        end
    end
  else (sv, reply 405 "Method Not Allowed").

Definition serve_item (sv : server) (id : string) (rq : request) : server * fetch_answer :=
  match List.find (has_id id) (sv_tasks sv) with
  | None => (sv, reply 404 "Not found")
  | Some t =>
      if String.eqb (rq_method rq) "GET" then (sv, reply_json 200 (task_value t))
      else if String.eqb (rq_method rq) "PUT" then
        match body_members rq with
        | None => (sv, reply 400 "Bad Request")
        | Some ps =>
            let t' := update_task ps t in
            (set_tasks (map (fun u => if has_id id u then t' else u) (sv_tasks sv)) sv,
             reply_json 200 (task_value t'))
        end
      else if String.eqb (rq_method rq) "DELETE" then
        (set_tasks (List.filter (fun u => negb (has_id id u)) (sv_tasks sv)) sv,
         reply_json 200 (task_value t))
      else (sv, reply 405 "Method Not Allowed")
  end.

(** The resource's answer to a request, and its new state. *)
Definition serve (sv : server) (rq : request) : server * fetch_answer :=
  match strip_prefix API_URL (rq_url rq) with
  | Some EmptyString => serve_collection sv rq
  | Some (String c id) => if Ascii.eqb c "/"%char then serve_item sv id rq else (sv, reply 404 "Not found")
  | None => (sv, reply 404 "Not found")
  end.

(** ** What the resource answers *)

Lemma res_json_jtext v : json_safe v -> res_json (jtext v) = Done (normv v).
Proof. intros Hs. unfold res_json. by rewrite json_parse_jtext. Qed.

Lemma task_value_normal t : normv (task_value t) = task_value t /\ json_safe (task_value t).
Proof. split; [reflexivity|]. simpl. tauto. Qed.

Lemma tasks_normal ts :
  normv (VArr (map task_value ts)) = VArr (map task_value ts) /\ json_safe (VArr (map task_value ts)).
Proof.
  rewrite normv_arr, json_safe_arr, map_map. split.
  - f_equal; apply map_ext; intros t; apply task_value_normal.
  - apply List.Forall_map, List.Forall_forall. intros t _. apply task_value_normal.
Qed.

Lemma reply_json_task st t : reply_json st (task_value t) = Response st (jtext (task_value t)) (Done (task_value t)).
Proof.
  unfold reply_json, reply. destruct (task_value_normal t) as [Hn Hs].
  by rewrite res_json_jtext, Hn.
Qed.

Lemma reply_json_tasks st ts :
  reply_json st (VArr (map task_value ts)) =
  Response st (jtext (VArr (map task_value ts))) (Done (VArr (map task_value ts))).
Proof.
  unfold reply_json, reply. destruct (tasks_normal ts) as [Hn Hs].
  by rewrite res_json_jtext, Hn.
Qed.

Lemma body_members_jtext path o v ps :
  opt_body o = Some (jtext v) -> json_safe v -> normv v = VObj ps ->
  body_members (api_request path o) = Some ps.
Proof. intros Hb Hs Hn. unfold body_members. simpl. rewrite Hb. simpl. by rewrite json_parse_jtext, Hn. Qed.

Lemma id_string_inj m n : id_string m = id_string n -> m = n.
Proof. unfold id_string. intros H. apply decimal_inj in H. lia. Qed.

Lemma has_id_string n t : has_id (id_string n) t = Nat.eqb (tk_id t) n.
Proof.
  unfold has_id. destruct (String.eqb_spec (id_string (tk_id t)) (id_string n)) as [E|E].
  - apply id_string_inj in E as ->. by rewrite Nat.eqb_refl.
  - destruct (Nat.eqb_spec (tk_id t) n) as [E2|]; [by rewrite E2 in E|done].
Qed.

Lemma find_task ts t :
  NoDup (map tk_id ts) -> In t ts -> List.find (has_id (id_string (tk_id t))) ts = Some t.
Proof.
  induction ts as [|u ts IH]; intros Hnd Hin; [done|]. simpl in *.
  apply NoDup_cons in Hnd as [Hu Hnd]. rewrite has_id_string.
  destruct Hin as [->|Hin]; [by rewrite Nat.eqb_refl|].
  destruct (Nat.eqb_spec (tk_id u) (tk_id t)) as [E|_]; [|by apply IH].
  exfalso. apply Hu. rewrite E. apply list_elem_of_In, in_map, Hin.
Qed.

Lemma find_task_none ts n : n ∉ map tk_id ts -> List.find (has_id (id_string n)) ts = None.
Proof.
  induction ts as [|u ts IH]; intros Hn; [done|]. simpl in *. rewrite has_id_string.
  destruct (Nat.eqb_spec (tk_id u) n) as [<-|_]; [by destruct Hn; left|].
  apply IH. intros H. apply Hn. by right.
Qed.

Lemma api_url_path path o : strip_prefix API_URL (rq_url (api_request path o)) = Some path.
Proof. apply strip_prefix_app. Qed.

Lemma serve_get sv :
  serve sv (api_request "" no_options) = (sv, reply_json 200 (VArr (map task_value (sv_tasks sv)))).
Proof. unfold serve. rewrite api_url_path. reflexivity. Qed.

Lemma serve_post sv o ps :
  opt_method o = Some "POST"%string -> body_members (api_request "" o) = Some ps ->
  serve sv (api_request "" o) =
  match sv_clock sv with
  | [] => (sv, reply 500 "Internal Server Error")
  | c :: clock' =>
      (create sv (new_task (sv_next_id sv) c ps) clock', reply_json 201 (task_value (new_task (sv_next_id sv) c ps)))
  end.
Proof.
  intros Hm Hb. unfold serve. rewrite api_url_path. unfold serve_collection.
  simpl rq_method. rewrite Hm, Hb. reflexivity.
Qed.

Lemma serve_item_path sv o id :
  serve sv (api_request ("/" +++ id) o) = serve_item sv id (api_request ("/" +++ id) o).
Proof. unfold serve. by rewrite api_url_path. Qed.

Lemma serve_put sv o id t ps :
  opt_method o = Some "PUT"%string -> List.find (has_id id) (sv_tasks sv) = Some t ->
  body_members (api_request ("/" +++ id) o) = Some ps ->
  serve sv (api_request ("/" +++ id) o) =
  (set_tasks (map (fun u => if has_id id u then update_task ps t else u) (sv_tasks sv)) sv,
   reply_json 200 (task_value (update_task ps t))).
Proof.
  intros Hm Hf Hb. rewrite serve_item_path. unfold serve_item. rewrite Hf.
  simpl rq_method. rewrite Hm, Hb. reflexivity.
Qed.

Lemma serve_delete sv o id t :
  opt_method o = Some "DELETE"%string -> List.find (has_id id) (sv_tasks sv) = Some t ->
  serve sv (api_request ("/" +++ id) o) =
  (set_tasks (List.filter (fun u => negb (has_id id u)) (sv_tasks sv)) sv, reply_json 200 (task_value t)).
Proof.
  intros Hm Hf. rewrite serve_item_path. unfold serve_item. rewrite Hf.
  simpl rq_method. rewrite Hm. reflexivity.
Qed.

Lemma serve_not_found sv o id :
  List.find (has_id id) (sv_tasks sv) = None ->
  serve sv (api_request ("/" +++ id) o) = (sv, reply 404 "Not found").
Proof. intros Hf. rewrite serve_item_path. unfold serve_item. by rewrite Hf. Qed.

(** The answers of the resource whose body text is not JSON. *)
Lemma res_json_not_found : res_json "Not found" = Raised (SyntaxError "Unexpected token in JSON").
Proof. reflexivity. Qed.

Lemma res_json_server_error :
  res_json "Internal Server Error" = Raised (SyntaxError "Unexpected token in JSON").
Proof. reflexivity. Qed.

End Server.
