(* ===== verification/View.v ===== *)
(** * The view: [createTaskNode] and the children of [tasksList]

  [create_task_node] is [createTaskNode] (src/task/app.js, lines 27-66):
  the [<li>] it returns is modelled by the parts that depend on the task
  (its [dataset.id], the task object its two click handlers close over,
  the [completed] class and text of the title, the label and tooltip of
  the toggle button); the class names and the delete button are the same
  for every task.  [child] is an element of [tasksList]: one of the three
  placeholder [<li>]s written through [innerHTML], or a task [<li>] named
  by its index in the page's node heap. *)

From S2P Require Import Prelude JsString JsValue.
From Stdlib Require Import Ascii.
Local Open Scope todo_scope.

Module View.
Import JsString JsValue.

Record node := {
  nd_id : string;
  nd_task : value;
  nd_completed_class : bool;
  nd_title_text : string;
  nd_toggle_label : string;
  nd_toggle_tooltip : string
}.

(** [task.completed ? '✓' : '✔'] (lines 48 and 123). *)
Definition toggle_label (completed : bool) : string :=
  if completed then "✓" else "✔".

(** [task.completed ? 'Marcar como no hecho' : 'Marcar como hecho']
    (lines 47 and 124). *)
Definition toggle_tooltip (completed : bool) : string :=
  if completed then "Marcar como no hecho" else "Marcar como hecho".

(** [createTaskNode(task)]: reading [task.id], [task.completed] and
    [task.title] throws when [task] is [undefined] or [null]. *)
Definition create_task_node (task : value) : js_outcome node :=
  id ← get_prop task "id";
  completed ← get_prop task "completed";
  title ← get_prop task "title";
  mret {| nd_id := to_string id;
          nd_task := task;
          nd_completed_class := truthy completed;
          nd_title_text := if truthy title then to_string title else "(sin título)";
          nd_toggle_label := toggle_label (truthy completed);
          nd_toggle_tooltip := toggle_tooltip (truthy completed) |}.

(** The three placeholder rows. *)
Inductive placeholder : Type :=
| PhLoading
| PhLoadError
| PhEmpty.

Definition dq : string := String (ascii_of_nat 34) EmptyString.

Definition placeholder_html (p : placeholder) : string :=
  match p with
  | PhLoading =>
      "<li style=" +++ dq +++ "opacity:0.6; padding:8px" +++ dq +++ ">Cargando...</li>"
  | PhLoadError =>
      "<li style=" +++ dq +++ "color:#f66; padding:8px" +++ dq +++
      ">No se pudieron cargar las tareas.</li>"
  | PhEmpty =>
      "<li style=" +++ dq +++ "opacity:0.6; padding:8px" +++ dq +++ ">No hay tareas aún</li>"
  end.

Inductive child : Type :=
| ChPlaceholder (p : placeholder)
| ChTask (nid : nat).

#[export] Instance placeholder_eq_dec : EqDecision placeholder.
Proof. solve_decision. Defined.
#[export] Instance child_eq_dec : EqDecision child.
Proof. solve_decision. Defined.

(** [tasksList.innerHTML = '<li ...>...</li>']. *)
Definition show_placeholder (p : placeholder) : list child := [ChPlaceholder p].

(** [tasksList.appendChild(li)]. *)
Definition append_child (nid : nat) (cs : list child) : list child := cs ++ [ChTask nid].

(** [tasksList.insertBefore(li, tasksList.firstChild)]; with no first
    child this appends, which is the same list. *)
Definition insert_first (nid : nat) (cs : list child) : list child := ChTask nid :: cs.

(** [li.remove()]: takes the [<li>] out of [tasksList] if it is there. *)
Definition remove_child (nid : nat) (cs : list child) : list child :=
  List.filter (fun c => bool_decide (c <> ChTask nid)) cs.

Definition task_ids (cs : list child) : list nat :=
  omap (fun c => match c with ChTask n => Some n | _ => None end) cs.

(** ** Lemmas *)

(** [createTaskNode] throws exactly on [undefined] and [null]. *)
Lemma create_task_node_raises_iff task :
  (exists e, create_task_node task = Raised e) <-> is_nullish task = true.
Proof. destruct task; simpl; split; try (intros [? ?]); try discriminate; eauto. Qed.

Lemma create_task_node_task task nd : create_task_node task = Done nd -> nd_task nd = task.
Proof. destruct task; simpl; intros [= <-]; done. Qed.

Lemma task_ids_app cs1 cs2 : task_ids (cs1 ++ cs2) = task_ids cs1 ++ task_ids cs2.
Proof. apply omap_app. Qed.

Lemma task_ids_remove nid cs : task_ids (remove_child nid cs) = List.filter (fun n => bool_decide (n <> nid)) (task_ids cs).
Proof.
  induction cs as [|[p|n] cs IH]; simpl; [done|..].
  - by rewrite IH.
  - unfold remove_child in *. simpl.
    destruct (decide (n = nid)) as [->|Hne].
    + rewrite bool_decide_false by congruence. simpl.
      rewrite bool_decide_false by congruence. done.
    + rewrite bool_decide_true by congruence. simpl.
      rewrite bool_decide_true by congruence. simpl. by rewrite IH.
Qed.

End View.
