(* ===== verification/Handlers.v ===== *)
(** * The page state and the action handlers (src/task/app.js, lines 71-153)

  A [page] is everything the script's behaviour depends on: the value of
  [taskInput], the children of [tasksList], the heap of [<li>] nodes that
  [createTaskNode] built (attached or not: click handlers and pending
  handlers keep them alive, each with the task object it closes over),
  the requests in flight with the handler awaiting each, and the log of
  observable effects.

  Each [async] handler runs synchronously up to [await apiFetch(...)]: its
  [_start] function is that part and registers the request; its
  [_resume] function is the rest, run when the request settles, with
  what [await] gives back (a value or the error [apiFetch] rethrew).
  The transport is taken through the [ApiTransport] interface. *)

From S2P Require Import Prelude JsString JsValue Json Dates Sort Transport View.
From stdpp Require Import gmap.
From Stdlib Require Import Sorted Permutation.
Local Open Scope todo_scope.

Module Handlers.
Import JsString JsValue Json Dates Sort Transport View.

(** The handler waiting on a request. *)
Inductive pending : Type :=
| PLoad
| PAdd
| PToggle (nid : nat)
| PDelete (nid : nat).

Record page := {
  pg_input : string;
  pg_children : list child;
  pg_nodes : gmap nat node;
  pg_next_node : nat;
  pg_pending : gmap nat pending;
  pg_next_req : nat;
  pg_log : list effect
}.

(** The page before the script runs: an empty list, an empty input. *)
Definition init_page : page :=
  {| pg_input := ""; pg_children := []; pg_nodes := ∅; pg_next_node := 0;
     pg_pending := ∅; pg_next_req := 0; pg_log := [] |}.

Definition set_input (s : string) (p : page) : page :=
  {| pg_input := s; pg_children := pg_children p; pg_nodes := pg_nodes p;
     pg_next_node := pg_next_node p; pg_pending := pg_pending p;
     pg_next_req := pg_next_req p; pg_log := pg_log p |}.

Definition set_children (cs : list child) (p : page) : page :=
  {| pg_input := pg_input p; pg_children := cs; pg_nodes := pg_nodes p;
     pg_next_node := pg_next_node p; pg_pending := pg_pending p;
     pg_next_req := pg_next_req p; pg_log := pg_log p |}.

Definition set_node (nid : nat) (nd : node) (p : page) : page :=
  {| pg_input := pg_input p; pg_children := pg_children p;
     pg_nodes := <[nid := nd]> (pg_nodes p); pg_next_node := pg_next_node p;
     pg_pending := pg_pending p; pg_next_req := pg_next_req p; pg_log := pg_log p |}.

Definition emit (fx : list effect) (p : page) : page :=
  {| pg_input := pg_input p; pg_children := pg_children p; pg_nodes := pg_nodes p;
     pg_next_node := pg_next_node p; pg_pending := pg_pending p;
     pg_next_req := pg_next_req p; pg_log := pg_log p ++ fx |}.

(** A new [<li>] gets the next free index of the node heap. *)
Definition alloc_node (nd : node) (p : page) : nat * page :=
  let nid := pg_next_node p in
  (nid, {| pg_input := pg_input p; pg_children := pg_children p;
           pg_nodes := <[nid := nd]> (pg_nodes p); pg_next_node := S nid;
           pg_pending := pg_pending p; pg_next_req := pg_next_req p;
           pg_log := pg_log p |}).

Definition drop_pending (rid : nat) (p : page) : page :=
  {| pg_input := pg_input p; pg_children := pg_children p; pg_nodes := pg_nodes p;
     pg_next_node := pg_next_node p; pg_pending := delete rid (pg_pending p);
     pg_next_req := pg_next_req p; pg_log := pg_log p |}.

Definition json_headers : list (string * string) := [("Content-Type"%string, "application/json"%string)].

Section Handlers.
Context `{T : ApiTransport}.
Variable date_parse : string -> option Z.

(** The synchronous part of [apiFetch(path, options)]: [fetch] is
    called and the caller suspends until the request [rid] settles. *)
Definition issue (path : string) (o : fetch_options) (pd : pending) (p : page) : page :=
  let rid := pg_next_req p in
  {| pg_input := pg_input p; pg_children := pg_children p; pg_nodes := pg_nodes p;
     pg_next_node := pg_next_node p; pg_pending := <[rid := pd]> (pg_pending p);
     pg_next_req := S rid; pg_log := pg_log p ++ [EFetch rid (tr_request path o)] |}.

(** ** [loadTasks] (lines 71-85) *)

Definition load_start (p : page) : page :=
  issue "" no_options PLoad (set_children (show_placeholder PhLoading) p).

Definition is_undefined (v : value) : bool :=
  match v with VUndefined => true | _ => false end.

(** [tasks.sort(cmp)] on the array's elements: [undefined] elements go
    last without reaching the comparator; with two elements or more
    every other element reaches it, and reading [createdAt] of a [null]
    one throws. *)
Definition sort_tasks (ts : list value) : js_outcome (list value) :=
  let defined := List.filter (fun v => negb (is_undefined v)) ts in
  if (2 <=? length defined)%nat && existsb is_nullish defined then
    Raised (TypeError "Cannot read properties of null (reading 'createdAt')")
  else Done (js_sort (created_at_key date_parse) defined ++ List.filter is_undefined ts).

(** [tasks.forEach(t => tasksList.appendChild(createTaskNode(t)))]; an
    exception leaves the forEach and reaches the [catch], which writes
    the error placeholder. *)
Fixpoint render_all (ts : list value) (p : page) : page :=
  match ts with
  | [] => p
  | t :: ts' =>
      match create_task_node t with
      | Done nd =>
          let '(nid, p1) := alloc_node nd p in
          render_all ts' (set_children (append_child nid (pg_children p1)) p1)
      | Raised _ => set_children (show_placeholder PhLoadError) p
      end
  end.

Definition load_resume (r : js_outcome value) (p : page) : page :=
  match r with
  | Raised _ => set_children (show_placeholder PhLoadError) p
  | Done tasks =>
      let p1 := set_children [] p in
      match tasks with
      | VArr ts =>
          if Nat.eqb (length ts) 0 then p1
          else match sort_tasks ts with
               | Done sorted => render_all sorted p1
               | Raised _ => set_children (show_placeholder PhLoadError) p1
               end
      | _ => p1
      end
  end.

(** ** [addTask] (lines 88-109) *)

Definition post_options (title : string) : fetch_options :=
  {| opt_method := Some "POST"%string; opt_headers := json_headers;
     opt_body := json_stringify (VObj [("title"%string, VStr title); ("completed"%string, VBool false)]) |}.

Definition add_start (p : page) : page :=
  let title := trim (pg_input p) in
  if String.eqb title "" then emit [EFocus] p
  else issue "" (post_options title) PAdd p.

Definition add_resume (r : js_outcome value) (p : page) : page :=
  match r ≫= create_task_node with
  | Done nd =>
      let '(nid, p1) := alloc_node nd p in
      emit [EFocus] (set_input "" (set_children (insert_first nid (pg_children p1)) p1))
  | Raised e => emit [EConsoleError "addTask error" e] p
  end.

(** ** [toggleTask] (lines 112-128) *)

Definition put_options (body : value) : fetch_options :=
  {| opt_method := Some "PUT"%string; opt_headers := json_headers; opt_body := json_stringify body |}.

(** [const newCompleted = !task.completed] runs before the [try]: if it
    threw, the returned promise would reject unhandled. *)
Definition toggle_start (nid : nat) (p : page) : page :=
  match pg_nodes p !! nid with
  | None => p
  | Some nd =>
      let task := nd_task nd in
      match get_prop task "completed" with
      | Raised e => emit [EUncaught e] p
      | Done c =>
          match get_prop task "id" with
          | Raised e => emit [EConsoleError "toggleTask error" e] p
          | Done id =>
              issue ("/" +++ to_string id)
                (put_options (spread_with task "completed" (VBool (negb (truthy c)))))
                (PToggle nid) p
          end
      end
  end.

(** [task.completed = updated.completed], then the title's class and the
    button follow [task.completed] as read back from the task.  Line 122
    is [titleNode.classList.toggle('completed', task.completed)]: the
    DOM's [toggle(token, force)] takes [force] as an optional boolean,
    and an [undefined] argument counts as omitted (WebIDL), so the class
    is flipped; any other value sets the class to its truthiness. *)
Definition toggle_resume (nid : nat) (r : js_outcome value) (p : page) : page :=
  match pg_nodes p !! nid with
  | None => p
  | Some nd =>
      let res :=
        updated ← r;
        c ← get_prop updated "completed";
        task' ← set_prop (nd_task nd) "completed" c;
        c' ← get_prop task' "completed";
        mret (task', c') in
      match res with
      | Done (task', c') =>
          set_node nid
            {| nd_id := nd_id nd; nd_task := task';
               nd_completed_class := if is_undefined c' then negb (nd_completed_class nd) else truthy c';
               nd_title_text := nd_title_text nd;
               nd_toggle_label := toggle_label (truthy c');
               nd_toggle_tooltip := toggle_tooltip (truthy c') |} p
      | Raised e => emit [EConsoleError "toggleTask error" e] p
      end
  end.

(** ** [deleteTask] (lines 131-140) *)

Definition delete_options : fetch_options :=
  {| opt_method := Some "DELETE"%string; opt_headers := []; opt_body := None |}.

Definition confirm_message : string := "¿Eliminar esta tarea?".

(** The click handler evaluates [task.id] and calls [deleteTask], which
    asks for confirmation before anything else. *)
Definition delete_start (nid : nat) (confirmed : bool) (p : page) : page :=
  match pg_nodes p !! nid with
  | None => p
  | Some nd =>
      match get_prop (nd_task nd) "id" with
      | Raised e => emit [EUncaught e] p
      | Done id =>
          let p1 := emit [EConfirm confirm_message confirmed] p in
          if confirmed then issue ("/" +++ to_string id) delete_options (PDelete nid) p1
          else p1
      end
  end.

Definition delete_resume (nid : nat) (r : js_outcome value) (p : page) : page :=
  match r with
  | Done _ =>
      let cs := remove_child nid (pg_children p) in
      set_children (if Nat.eqb (length cs) 0 then show_placeholder PhEmpty else cs) p
  | Raised e => emit [EConsoleError "deleteTask error" e] p
  end.

(** ** Events and start-up (lines 143-153) *)

Definition resume (pd : pending) (r : js_outcome value) (p : page) : page :=
  match pd with
  | PLoad => load_resume r p
  | PAdd => add_resume r p
  | PToggle nid => toggle_resume nid r p
  | PDelete nid => delete_resume nid r p
  end.

(** Request [rid] settles with the network's answer [a]: [apiFetch]'s
    own effects come first, then its caller resumes. *)
Definition answer (rid : nat) (a : fetch_answer) (p : page) : page :=
  match pg_pending p !! rid with
  | None => p
  | Some pd =>
      let '(r, fx) := tr_complete a in
      resume pd r (emit fx (drop_pending rid p))
  end.

(** [taskInput.addEventListener('keydown', e => { if (e.key === 'Enter') addTask(); })]. *)
Definition keydown (key : string) (p : page) : page :=
  if String.eqb key "Enter" then add_start p else p.

Definition setup_message : string :=
  "⚠️ Pega la URL de tu recurso " +++ dq +++ "tasks" +++ dq +++
  " de MockAPI en app.js (const API_URL).".

Definition includes (s pat : string) : bool :=
  match String.index 0 pat s with Some _ => true | None => false end.

Definition startup (p : page) : page :=
  if String.eqb API_URL "" || includes API_URL "REPLACE_WITH"
  then emit [EAlert setup_message] p
  else load_start p.

End Handlers.

(** ** What the page shows *)

(** The task object behind a child of [tasksList], if it is a task row. *)
Definition child_task (p : page) (c : child) : option value :=
  match c with
  | ChTask nid => nd_task <$> pg_nodes p !! nid
  | ChPlaceholder _ => None
  end.

Definition shown (p : page) : list (option value) := map (child_task p) (pg_children p).

Section HandlerSpecs.
Context `{T : ApiTransport}.
Variable date_parse : string -> option Z.

(** C3: [addTask] on a blank input (empty or white space only) sends
    nothing: its only effect is to focus the input, and on any other
    input it issues a request. *)
Theorem add_start_blank p :
  all_ws (pg_input p) = true <-> add_start p = emit [EFocus] p.
Proof.
  unfold add_start. destruct (String.eqb_spec (trim (pg_input p)) "") as [E|E].
  - apply trim_blank_iff in E. by split.
  - split; [intros H; apply trim_blank_iff in H; contradiction|].
    intros H. apply (f_equal pg_next_req) in H. simpl in H. lia.
Qed.

Lemma add_start_request p :
  all_ws (pg_input p) = false ->
  add_start p = issue "" (post_options (trim (pg_input p))) PAdd p.
Proof.
  intros H. unfold add_start. destruct (String.eqb_spec (trim (pg_input p)) "") as [E|E]; [|done].
  apply trim_blank_iff in E. congruence.
Qed.

(** C4: when the POST answers with a task object, exactly one new row
    appears, at the head of the list, showing that object; the input is
    cleared and focused; no other request is added or removed. *)
Theorem add_resume_success p v :
  is_nullish v = false ->
  let p' := add_resume (Done v) p in
  pg_children p' = ChTask (pg_next_node p) :: pg_children p /\
  nd_task <$> pg_nodes p' !! pg_next_node p = Some v /\
  pg_input p' = ""%string /\ pg_log p' = pg_log p ++ [EFocus] /\
  pg_pending p' = pg_pending p.
Proof.
  intros Hv. cbn zeta. unfold add_resume. rewrite bind_Done.
  destruct (create_task_node v) as [nd|e] eqn:E.
  - apply create_task_node_task in E. simpl. rewrite lookup_insert_eq. simpl.
    by rewrite E.
  - exfalso. assert (is_nullish v = true) as Hn.
    { apply create_task_node_raises_iff. eauto. }
    congruence.
Qed.

(** C5: when the POST fails (transport error, or an answer that is not a
    task), the list, the input, the node heap and the requests are
    unchanged and the error is logged to the console. *)
Theorem add_resume_failure p r e :
  r ≫= create_task_node = Raised e ->
  add_resume r p = emit [EConsoleError "addTask error" e] p.
Proof. intros H. unfold add_resume. by rewrite H. Qed.

Lemma get_prop_obj_set ps k x :
  get_prop (VObj (assoc_set k x ps)) k = Done x.
Proof. simpl. by rewrite assoc_lookup_set_eq. Qed.

(** The page after a PUT answer with a readable [completed], on a row
    whose task is an object. *)
Lemma toggle_resume_obj p nid nd ps upd c :
  pg_nodes p !! nid = Some nd -> nd_task nd = VObj ps ->
  get_prop upd "completed" = Done c ->
  toggle_resume nid (Done upd) p =
    set_node nid
      {| nd_id := nd_id nd; nd_task := VObj (assoc_set "completed" c ps);
         nd_completed_class := if is_undefined c then negb (nd_completed_class nd) else truthy c;
         nd_title_text := nd_title_text nd; nd_toggle_label := toggle_label (truthy c);
         nd_toggle_tooltip := toggle_tooltip (truthy c) |} p.
Proof.
  intros Hnd Htask Hc. unfold toggle_resume.
  rewrite Hnd, Htask, bind_Done, Hc, bind_Done. simpl set_prop.
  by rewrite bind_Done, get_prop_obj_set, bind_Done.
Qed.

(** C6: when the PUT answers with a readable [completed] value [c], the
    task object takes [c] and the toggle button follows its truthiness,
    whatever value was requested.  The title's class follows the
    truthiness of [c] too, except when [c] is [undefined] (an answer
    without [completed]).  Then [classList.toggle] flips the class,
    while the button shows the task as not done.  Nothing else on the
    page changes. *)
Theorem toggle_resume_adopts_server p nid nd ps upd c :
  pg_nodes p !! nid = Some nd -> nd_task nd = VObj ps ->
  get_prop upd "completed" = Done c ->
  let p' := toggle_resume nid (Done upd) p in
  (exists nd', pg_nodes p' !! nid = Some nd' /\
     get_prop (nd_task nd') "completed" = Done c /\
     (is_undefined c = false -> nd_completed_class nd' = truthy c) /\
     (is_undefined c = true -> nd_completed_class nd' = negb (nd_completed_class nd)) /\
     nd_toggle_label nd' = toggle_label (truthy c) /\
     nd_toggle_tooltip nd' = toggle_tooltip (truthy c) /\
     nd_id nd' = nd_id nd /\ nd_title_text nd' = nd_title_text nd) /\
  pg_children p' = pg_children p /\ pg_log p' = pg_log p /\ pg_pending p' = pg_pending p.
Proof.
  intros Hnd Htask Hc. cbn zeta. rewrite (toggle_resume_obj p nid nd ps upd c) by done. simpl.
  rewrite lookup_insert_eq. split; [|done].
  eexists. split; [reflexivity|]. cbn [nd_task nd_completed_class nd_toggle_label
    nd_toggle_tooltip nd_id nd_title_text]. rewrite get_prop_obj_set.
  split; [done|]. split; [by intros ->|]. split; [by intros ->|]. done.
Qed.

(** C7: when the PUT fails, or its answer has no readable [completed],
    the row and the task object are unchanged and the error goes to
    the console. *)
Theorem toggle_resume_failure p nid nd r e :
  pg_nodes p !! nid = Some nd ->
  (r ≫= fun updated => get_prop updated "completed") = Raised e ->
  toggle_resume nid r p = emit [EConsoleError "toggleTask error" e] p.
Proof.
  intros Hnd Hr. unfold toggle_resume. rewrite Hnd.
  destruct r as [upd|e']; simpl in Hr |- *; [|by injection Hr as ->].
  by rewrite Hr.
Qed.

(** C8: declining the confirmation only records the question: no request
    is sent and the row stays. *)
Theorem delete_start_declined p nid nd :
  pg_nodes p !! nid = Some nd -> is_nullish (nd_task nd) = false ->
  delete_start nid false p = emit [EConfirm confirm_message false] p.
Proof.
  intros Hnd Hn. unfold delete_start. rewrite Hnd.
  destruct (get_prop (nd_task nd) "id") as [id|e] eqn:E; [done|].
  exfalso. assert (is_nullish (nd_task nd) = true) as Hn'.
  { apply (get_prop_raises_iff _ "id"). eauto. }
  congruence.
Qed.

Lemma remove_child_split nid cs :
  NoDup cs -> In (ChTask nid) cs ->
  exists pre post, cs = pre ++ ChTask nid :: post /\ remove_child nid cs = pre ++ post.
Proof.
  intros Hnd Hin. apply in_split in Hin as (pre & post & ->).
  exists pre, post. split; [done|].
  apply NoDup_app in Hnd as (_ & Hdisj & Hpost%NoDup_cons).
  unfold remove_child. rewrite List.filter_app. simpl.
  rewrite bool_decide_false by congruence.
  rewrite !filter_id_in; [done|..].
  - intros c Hc. apply bool_decide_eq_true. intros ->. by destruct Hpost as [Hpost _]; apply Hpost, list_elem_of_In.
  - intros c Hc. apply bool_decide_eq_true. intros ->.
    apply (Hdisj (ChTask nid)); [by apply list_elem_of_In|left].
Qed.

(** C9: a successful DELETE removes exactly the clicked row, keeping the
    others in order; when it was the last child, the empty placeholder
    takes its place. *)
Theorem delete_resume_success p nid v :
  NoDup (pg_children p) -> In (ChTask nid) (pg_children p) ->
  exists pre post,
    pg_children p = pre ++ ChTask nid :: post /\
    pg_children (delete_resume nid (Done v) p) =
      (if Nat.eqb (length (pre ++ post)) 0 then [ChPlaceholder PhEmpty] else pre ++ post) /\
    pg_nodes (delete_resume nid (Done v) p) = pg_nodes p /\
    pg_log (delete_resume nid (Done v) p) = pg_log p.
Proof.
  intros Hnd Hin. destruct (remove_child_split nid _ Hnd Hin) as (pre & post & Hcs & Hrm).
  exists pre, post. split; [done|]. unfold delete_resume. simpl. by rewrite Hrm.
Qed.


Lemma create_task_node_ok t :
  is_nullish t = false -> exists nd, create_task_node t = Done nd /\ nd_task nd = t.
Proof.
  intros Ht. destruct (create_task_node t) as [nd|e] eqn:E.
  - eauto using create_task_node_task.
  - exfalso. assert (is_nullish t = true); [|congruence].
    apply create_task_node_raises_iff. eauto.
Qed.

(** [forEach(createTaskNode + appendChild)] over task objects appends one
    fresh row per task, in order, and touches nothing else. *)
Lemma render_all_spec ts p :
  Forall (fun t => is_nullish t = false) ts ->
  let p' := render_all ts p in
  pg_children p' = pg_children p ++ map ChTask (seq (pg_next_node p) (length ts)) /\
  pg_next_node p' = pg_next_node p + length ts /\
  (forall n, n < pg_next_node p -> pg_nodes p' !! n = pg_nodes p !! n) /\
  map (fun n => nd_task <$> pg_nodes p' !! n) (seq (pg_next_node p) (length ts)) = map Some ts /\
  pg_log p' = pg_log p /\ pg_pending p' = pg_pending p /\ pg_input p' = pg_input p /\
  pg_next_req p' = pg_next_req p.
Proof.
  revert p. induction ts as [|t ts IH]; intros p Hts; cbn zeta.
  - simpl. rewrite app_nil_r, Nat.add_0_r. done.
  - apply Forall_cons in Hts as [Ht Hts].
    destruct (create_task_node_ok t Ht) as (nd & Hnd & Htask).
    cbn [render_all]. rewrite Hnd. cbn [alloc_node].
    set (p2 := set_children _ _).
    destruct (IH p2 Hts) as (Hc & Hn & Hold & Hmap & Hlog & Hpd & Hin & Hreq).
    assert (pg_next_node p2 = S (pg_next_node p)) as Hp2 by done.
    rewrite Hp2 in Hc, Hn, Hold, Hmap.
    cbn [length seq map].
    rewrite Hc, Hn, Hmap, Hlog, Hpd, Hin, Hreq. rewrite Hold by (simpl; lia).
    subst p2. cbn [set_children pg_nodes pg_children pg_log pg_pending pg_input pg_next_req].
    rewrite lookup_insert_eq. cbn. rewrite Htask.
    unfold append_child. rewrite <- app_assoc.
    repeat split; try done; try lia.
    intros n Hlt. rewrite Hold by (simpl; lia). simpl.
    rewrite lookup_insert_ne by lia. done.
Qed.

Lemma sort_tasks_objects ts :
  Forall (fun t => is_nullish t = false) ts ->
  sort_tasks date_parse ts = Done (js_sort (created_at_key date_parse) ts).
Proof.
  intros Hts. unfold sort_tasks.
  assert (List.filter (fun v => negb (is_undefined v)) ts = ts) as ->.
  { apply filter_id_in. intros x Hx. rewrite List.Forall_forall in Hts.
    specialize (Hts x Hx). by destruct x. }
  assert (existsb is_nullish ts = false) as ->.
  { apply not_true_iff_false. rewrite existsb_exists. intros (x & Hx & Hn).
    rewrite List.Forall_forall in Hts. specialize (Hts x Hx). congruence. }
  assert (List.filter is_undefined ts = []) as ->.
  { apply filter_nil_in. intros x Hx. rewrite List.Forall_forall in Hts.
    specialize (Hts x Hx). by destruct x. }
  rewrite andb_false_r, app_nil_r. done.
Qed.

(** C1: when the GET answers with a non-empty array of task objects, the
    list shows exactly those tasks, in the order of [js_sort]: a
    permutation of the answer which, when every [createdAt] gives a
    date, is newest first.  No request and no log entry is added. *)
Theorem load_resume_sorted p ts :
  ts <> [] -> Forall (fun t => is_nullish t = false) ts ->
  let key := created_at_key date_parse in
  let p' := load_resume date_parse (Done (VArr ts)) p in
  shown p' = map Some (js_sort key ts) /\
  Permutation ts (js_sort key ts) /\
  (valid key ts -> Sorted (desc key) (js_sort key ts)) /\
  pg_log p' = pg_log p /\ pg_pending p' = pg_pending p.
Proof.
  intros Hne Hts. cbn zeta. unfold load_resume.
  destruct (Nat.eqb_spec (length ts) 0) as [Hl|_].
  { by apply nil_length_inv in Hl. }
  rewrite sort_tasks_objects by done.
  assert (Forall (fun t => is_nullish t = false) (js_sort (created_at_key date_parse) ts)) as Hs.
  { eapply Permutation_Forall; [apply js_sort_perm|done]. }
  destruct (render_all_spec _ (set_children [] p) Hs) as (Hc & _ & _ & Hmap & Hlog & Hpd & _).
  simpl in *. unfold shown. rewrite Hc. simpl. rewrite map_map. simpl.
  repeat split; [| apply js_sort_perm | apply js_sort_sorted | done | done].
  rewrite <- Hmap. done.
Qed.


(** C13: when the GET answers with an empty array, or with anything that
    is not an array, the list is left empty: no "no tasks" placeholder is
    written and nothing is logged. *)
Theorem load_resume_empty_no_placeholder p tasks :
  (forall ts, tasks = VArr ts -> ts = []) ->
  pg_children (load_resume date_parse (Done tasks) p) = [] /\
  pg_log (load_resume date_parse (Done tasks) p) = pg_log p.
Proof.
  intros H. unfold load_resume.
  destruct tasks as [| | | | |ts|]; try done.
  by rewrite (H ts eq_refl).
Qed.


(** C20: clicking the toggle of a row whose task is an object sends a PUT
    to ["/" + id] whose body is the whole task with [completed] replaced
    by the negation of its current truthiness: every other property is
    the task's own. *)
Theorem toggle_start_put_body p nid nd ps c id :
  pg_nodes p !! nid = Some nd -> nd_task nd = VObj ps ->
  get_prop (VObj ps) "completed" = Done c -> get_prop (VObj ps) "id" = Done id ->
  exists body,
    toggle_start nid p = issue ("/" +++ to_string id) (put_options body) (PToggle nid) p /\
    get_prop body "completed" = Done (VBool (negb (truthy c))) /\
    forall k, k <> "completed"%string -> get_prop body k = get_prop (VObj ps) k.
Proof.
  intros Hnd Htask Hc Hid. unfold toggle_start. rewrite Hnd, Htask, Hc, Hid.
  eexists. split; [reflexivity|]. unfold spread_with. simpl spread_props.
  split; [apply get_prop_obj_set|]. intros k Hk. simpl. by rewrite assoc_lookup_set_ne.
Qed.


(** C19: in the displayed order a task whose [createdAt] is missing (or
    falsy) counts as created at the epoch, so it is shown above every
    task dated before 1970 (a negative time value), not below it. *)
Theorem missing_created_at_above_pre_epoch ts i j x y c ky :
  valid (created_at_key date_parse) ts ->
  js_sort (created_at_key date_parse) ts !! i = Some x ->
  js_sort (created_at_key date_parse) ts !! j = Some y ->
  get_prop x "createdAt" = Done c -> truthy c = false ->
  created_at_key date_parse y = Some ky -> (ky < 0)%Z -> (i < j)%nat.
Proof.
  intros Hv Hi Hj Hc Hf Hy Hk. apply (js_sort_position _ ts i j x y Hv Hi Hj).
  unfold k. rewrite Hy, (created_at_falsy date_parse x c Hc Hf). simpl. lia.
Qed.

End HandlerSpecs.


(** ** The handlers over [apiFetch] *)

(** C21: [addTask] on a non-blank input POSTs the text
    [{"title":<title>,"completed":false}] to [API_URL] with a JSON
    content type, the title being the trimmed input (non-empty, no white
    space at either end) written by QuoteJSONString, and waits for it. *)
Theorem add_start_post p :
  all_ws (pg_input p) = false ->
  pg_log (add_start p) =
    pg_log p ++ [EFetch (pg_next_req p)
      {| rq_url := API_URL; rq_method := "POST"; rq_headers := json_headers;
         rq_body := Some ("{" +++ json_quote "title" +++ ":" +++ json_quote (trim (pg_input p))
                          +++ "," +++ json_quote "completed" +++ ":false}") |}] /\
  pg_pending (add_start p) !! pg_next_req p = Some PAdd /\
  trim (pg_input p) <> ""%string /\ no_ws_edges (trim (pg_input p)) = true.
Proof.
  intros Hb. rewrite add_start_request by done. simpl. unfold api_request. simpl.
  rewrite string_app_nil_r, lookup_insert_eq. split; [simpl; rewrite <- ?string_app_assoc; reflexivity|]. split; [done|].
  split; [|apply trim_no_ws_edges]. intros E. apply trim_blank_iff in E. congruence.
Qed.

(** The configured [API_URL] passes the start-up check: start-up
    shows the loading row and sends the GET of the whole collection. *)
Lemma startup_loads p :
  startup p = load_start p /\ pg_children (startup p) = [ChPlaceholder PhLoading] /\
  pg_log (startup p) =
    pg_log p ++ [EFetch (pg_next_req p)
      {| rq_url := API_URL; rq_method := "GET"; rq_headers := []; rq_body := None |}] /\
  pg_pending (startup p) !! pg_next_req p = Some PLoad.
Proof.
  unfold startup.
  replace (String.eqb API_URL "" || includes API_URL "REPLACE_WITH") with false by reflexivity.
  split; [done|]. simpl. unfold api_request. simpl. by rewrite string_app_nil_r, lookup_insert_eq.
Qed.

(** ** Witnesses: the claims at concrete pages and answers *)

Local Open Scope string_scope.

Definition no_date_parse : string -> option Z := fun _ => None.

Definition task_a : value :=
  VObj [("id", VStr "1"); ("title", VStr "Comprar pan"); ("completed", VBool false);
        ("createdAt", VNum 5)].
Definition task_b : value :=
  VObj [("id", VStr "2"); ("title", VStr ""); ("completed", VBool true);
        ("createdAt", VNum 9)].

Lemma load_resume_sorted_witness :
  [task_a; task_b] <> [] /\
  shown (load_resume no_date_parse (Done (VArr [task_a; task_b])) init_page) =
    map Some (js_sort (created_at_key no_date_parse) [task_a; task_b]).
Proof.
  split; [discriminate|].
  apply (load_resume_sorted no_date_parse init_page [task_a; task_b]);
    [discriminate | repeat constructor].
Defined.

Lemma add_resume_success_witness :
  is_nullish task_a = false /\
  pg_children (add_resume (Done task_a) init_page) = [ChTask 0].
Proof.
  split; [reflexivity|].
  apply (add_resume_success init_page task_a); reflexivity.
Defined.

Lemma add_resume_failure_witness :
  (Raised (Error "HTTP 500 - x") ≫= create_task_node) = Raised (Error "HTTP 500 - x") /\
  add_resume (Raised (Error "HTTP 500 - x")) init_page =
    emit [EConsoleError "addTask error" (Error "HTTP 500 - x")] init_page.
Proof.
  split; [reflexivity|].
  apply (add_resume_failure init_page _ (Error "HTTP 500 - x")); reflexivity.
Defined.

Definition node_a : node :=
  {| nd_id := "1"; nd_task := task_a; nd_completed_class := false;
     nd_title_text := "Comprar pan"; nd_toggle_label := toggle_label false;
     nd_toggle_tooltip := toggle_tooltip false |}.
Definition page_with_a : page := set_node 0 node_a (set_children [ChTask 0] init_page).

Lemma toggle_resume_adopts_server_witness :
  get_prop (VObj [("completed", VBool false)]) "completed" = Done (VBool false) /\
  (exists nd', pg_nodes (toggle_resume 0 (Done (VObj [("completed", VBool false)])) page_with_a) !! 0
     = Some nd' /\ nd_completed_class nd' = false).
Proof.
  split; [reflexivity|].
  destruct (toggle_resume_adopts_server page_with_a 0 _
    [("id", VStr "1"); ("title", VStr "Comprar pan"); ("completed", VBool false);
     ("createdAt", VNum 5)] (VObj [("completed", VBool false)]) (VBool false)
    eq_refl eq_refl eq_refl) as ((nd' & H1 & _ & H2 & _) & _).
  exists nd'. split; [exact H1|exact (H2 eq_refl)].
Defined.

(** An answer without [completed] (a resource that answers [{}]): the
    task's [completed] becomes [undefined], the button shows the task as
    not done, and the title, not done before, now has the [completed]
    class. *)
Example toggle_missing_completed_flips_class :
  exists nd', pg_nodes (toggle_resume 0 (Done (VObj [])) page_with_a) !! 0 = Some nd' /\
    get_prop (nd_task nd') "completed" = Done VUndefined /\
    nd_completed_class node_a = false /\ nd_completed_class nd' = true /\
    nd_toggle_label nd' = toggle_label false.
Proof. eexists. repeat split; reflexivity. Qed.

Lemma toggle_resume_failure_witness :
  toggle_resume 0 (Done VNull) page_with_a =
    emit [EConsoleError "toggleTask error"
      (TypeError "Cannot read properties of null (reading 'completed')")] page_with_a.
Proof. apply (toggle_resume_failure page_with_a 0 _ _ _ eq_refl); reflexivity. Defined.

Lemma delete_start_declined_witness :
  is_nullish task_a = false /\
  delete_start 0 false page_with_a = emit [EConfirm confirm_message false] page_with_a.
Proof.
  split; [reflexivity|].
  apply (delete_start_declined page_with_a 0 _ eq_refl); reflexivity.
Defined.

Lemma delete_resume_success_witness :
  NoDup (pg_children page_with_a) /\
  exists pre post, pg_children page_with_a = (pre ++ ChTask 0 :: post)%list /\
    pg_children (delete_resume 0 (Done VNull) page_with_a) =
      (if Nat.eqb (length (pre ++ post)%list) 0 then [ChPlaceholder PhEmpty] else (pre ++ post)%list).
Proof.
  assert (NoDup (pg_children page_with_a)) as Hnd by (simpl; repeat constructor; set_solver).
  split; [exact Hnd|].
  destruct (delete_resume_success page_with_a 0 VNull Hnd (or_introl eq_refl))
    as (pre & post & Hcs & Hc & _).
  exists pre, post. split; [exact Hcs|exact Hc].
Defined.


Lemma load_resume_empty_no_placeholder_witness :
  (forall ts, VArr [] = VArr ts -> ts = []) /\
  pg_children (load_resume no_date_parse (Done (VArr [])) init_page) = [].
Proof.
  assert (forall ts, VArr [] = VArr ts -> ts = []) as H by (intros ts [= <-]; reflexivity).
  split; [exact H|]. apply (load_resume_empty_no_placeholder no_date_parse init_page _ H).
Defined.


Lemma toggle_start_put_body_witness :
  get_prop task_a "id" = Done (VStr "1") /\
  exists body,
    toggle_start 0 page_with_a = issue ("/" +++ "1") (put_options body) (PToggle 0) page_with_a /\
    get_prop body "completed" = Done (VBool true) /\
    forall k, k <> "completed" -> get_prop body k = get_prop task_a k.
Proof.
  split; [reflexivity|].
  apply (toggle_start_put_body page_with_a 0 node_a
    [("id", VStr "1"); ("title", VStr "Comprar pan"); ("completed", VBool false);
     ("createdAt", VNum 5)] (VBool false) (VStr "1")); reflexivity.
Defined.

Definition task_undated : value := VObj [("id", VStr "3"); ("title", VStr "x")].
Definition task_1969 : value := VObj [("id", VStr "4"); ("createdAt", VNum (-1000))].

Lemma missing_created_at_above_pre_epoch_witness :
  valid (created_at_key no_date_parse) [task_1969; task_undated] /\
  js_sort (created_at_key no_date_parse) [task_1969; task_undated] !! 0 = Some task_undated /\
  js_sort (created_at_key no_date_parse) [task_1969; task_undated] !! 1 = Some task_1969 /\
  (0 < 1)%nat.
Proof.
  assert (valid (created_at_key no_date_parse) [task_1969; task_undated]) as Hv
    by (repeat constructor; eexists; reflexivity).
  split; [exact Hv|]. split; [reflexivity|]. split; [reflexivity|].
  apply (missing_created_at_above_pre_epoch no_date_parse _ 0 1 task_undated task_1969
    VUndefined (-1000) Hv); reflexivity.
Defined.

Lemma add_start_post_witness :
  all_ws (pg_input (set_input "  leche " init_page)) = false /\
  trim (pg_input (set_input "  leche " init_page)) = "leche".
Proof.
  assert (all_ws (pg_input (set_input "  leche " init_page)) = false) as Hb by reflexivity.
  split; [exact Hb|].
  destruct (add_start_post (set_input "  leche " init_page) Hb) as (_ & _ & _ & _).
  reflexivity.
Defined.

End Handlers.
