(* ===== verification/Session.v ===== *)
(** * The event loop: user events and network answers in any order

  After start-up (line 149-153) the script only reacts to events: the user
  edits [taskInput], clicks [addBtn] or presses a key in the input
  (lines 143-146), clicks the toggle or delete button of a row that is in
  the list (lines 50 and 57, with the answer to [confirm]), or a request
  in flight settles.  [step] is one such reaction; nothing orders the
  answers of concurrent requests, so any request in flight may settle
  next.  [reachable] pages are those a session can produce from the start.

  [wf_page] is the invariant every reachable page keeps: rows point to
  nodes that exist, no row twice, fresh indices are unused, every pending
  request names an existing node, and every node's task object is neither
  [undefined] nor [null]. *)

From S2P Require Import Prelude JsString JsValue Dates Sort Transport View Handlers.
From stdpp Require Import gmap.
Local Open Scope todo_scope.

Module Session.
Import JsString JsValue Dates Sort Transport View Handlers.

Inductive event : Type :=
| EvType (s : string)
| EvClickAdd
| EvKeyDown (key : string)
| EvClickToggle (nid : nat)
| EvClickDelete (nid : nat) (confirmed : bool)
| EvAnswer (rid : nat) (a : fetch_answer).

Section Loop.
Context `{T : ApiTransport}.
Variable date_parse : string -> option Z.

Definition dispatch (ev : event) (p : page) : page :=
  match ev with
  | EvType s => set_input s p
  | EvClickAdd => add_start p
  | EvKeyDown key => keydown key p
  | EvClickToggle nid => toggle_start nid p
  | EvClickDelete nid b => delete_start nid b p
  | EvAnswer rid a => answer date_parse rid a p
  end.

(** A click reaches only a row in the list; an answer comes only for a
    request in flight. *)
Definition enabled (ev : event) (p : page) : bool :=
  match ev with
  | EvClickToggle nid | EvClickDelete nid _ => bool_decide (ChTask nid ∈ pg_children p)
  | EvAnswer rid _ => bool_decide (is_Some (pg_pending p !! rid))
  | _ => true
  end.

Inductive step : page -> page -> Prop :=
| step_type s p : step p (set_input s p)
| step_click_add p : step p (add_start p)
| step_keydown key p : step p (keydown key p)
| step_toggle nid p : ChTask nid ∈ pg_children p -> step p (toggle_start nid p)
| step_delete nid b p : ChTask nid ∈ pg_children p -> step p (delete_start nid b p)
| step_answer rid a p : is_Some (pg_pending p !! rid) -> step p (answer date_parse rid a p).

Inductive reachable : page -> Prop :=
| reach_start : reachable (startup init_page)
| reach_step p p' : reachable p -> step p p' -> reachable p'.

(** Running a list of events, skipping those that cannot happen. *)
Fixpoint run (evs : list event) (p : page) : page :=
  match evs with
  | [] => p
  | ev :: evs' => run evs' (if enabled ev p then dispatch ev p else p)
  end.

(** ** The invariant *)

Definition pending_ok (p : page) (pd : pending) : Prop :=
  match pd with
  | PToggle nid | PDelete nid => is_Some (pg_nodes p !! nid)
  | PLoad | PAdd => True
  end.

Record wf_page (p : page) : Prop := {
  wf_rows : forall nid, ChTask nid ∈ pg_children p -> is_Some (pg_nodes p !! nid);
  wf_nodup : NoDup (pg_children p);
  wf_nodes_fresh : forall nid, pg_next_node p <= nid -> pg_nodes p !! nid = None;
  wf_pending_fresh : forall rid, pg_next_req p <= rid -> pg_pending p !! rid = None;
  wf_pending : forall rid pd, pg_pending p !! rid = Some pd -> pending_ok p pd;
  wf_tasks : forall nid nd, pg_nodes p !! nid = Some nd -> is_nullish (nd_task nd) = false
}.

End Loop.


(** ** The page operations keep the invariant *)

Lemma wf_init : wf_page init_page.
Proof.
  split; simpl; try done.
  - intros nid Hin. by apply elem_of_nil in Hin.
  - constructor.
Qed.

Lemma wf_emit fx p : wf_page p -> wf_page (emit fx p).
Proof. intros [] ; split; simpl; eauto. Qed.

Lemma wf_set_input s p : wf_page p -> wf_page (set_input s p).
Proof. intros []; split; simpl; eauto. Qed.

Lemma wf_drop_pending rid p : wf_page p -> wf_page (drop_pending rid p).
Proof.
  intros []; split; simpl; eauto.
  - intros r Hr. rewrite lookup_delete_None. auto.
  - intros r pd Hr. apply lookup_delete_Some in Hr as [_ Hr]. eauto.
Qed.

Lemma wf_issue `{ApiTransport} path o pd p :
  wf_page p -> pending_ok p pd -> wf_page (issue path o pd p).
Proof.
  intros [] Hpd; split; simpl; eauto.
  - intros r Hr. rewrite lookup_insert_ne by lia. apply wf_pending_fresh0. lia.
  - intros r pd' Hr. apply lookup_insert_Some in Hr as [[_ <-]|[_ Hr]]; eauto.
Qed.

Lemma wf_set_children cs p :
  wf_page p -> (forall nid, ChTask nid ∈ cs -> is_Some (pg_nodes p !! nid)) -> NoDup cs ->
  wf_page (set_children cs p).
Proof. intros [] Hcs Hnd; split; simpl; eauto. Qed.

Lemma fresh_not_row p : wf_page p -> ChTask (pg_next_node p) ∉ pg_children p.
Proof.
  intros Hwf Hin. apply wf_rows in Hin as [nd Hnd]; [|done].
  rewrite wf_nodes_fresh in Hnd; [discriminate|done|lia].
Qed.

Lemma wf_alloc nd p :
  wf_page p -> is_nullish (nd_task nd) = false -> wf_page (snd (alloc_node nd p)).
Proof.
  intros Hwf Hnd. pose proof (fresh_not_row p Hwf) as Hfresh. destruct Hwf; split; simpl; eauto.
  - intros nid Hin. rewrite lookup_insert_is_Some'. eauto.
  - intros nid Hle. rewrite lookup_insert_ne by lia. apply wf_nodes_fresh0. lia.
  - intros rid pd Hr. specialize (wf_pending0 rid pd Hr).
    destruct pd; simpl in *; try done; rewrite lookup_insert_is_Some'; auto.
  - intros nid nd' Hl. apply lookup_insert_Some in Hl as [[_ <-]|[_ Hl]]; eauto.
Qed.

Lemma wf_set_node nid nd p :
  wf_page p -> is_Some (pg_nodes p !! nid) -> is_nullish (nd_task nd) = false ->
  wf_page (set_node nid nd p).
Proof.
  intros [] Hex Hnd; split; simpl; eauto.
  - intros n Hin. rewrite lookup_insert_is_Some'. eauto.
  - intros n Hle. rewrite lookup_insert_ne; [eauto|].
    intros ->. destruct Hex as [x Hx]. rewrite wf_nodes_fresh0 in Hx; [discriminate|lia].
  - intros rid pd Hr. specialize (wf_pending0 rid pd Hr).
    destruct pd; simpl in *; try done; rewrite lookup_insert_is_Some'; auto.
  - intros n nd' Hl. apply lookup_insert_Some in Hl as [[_ <-]|[_ Hl]]; eauto.
Qed.

#[export] Hint Resolve wf_init wf_emit wf_set_input wf_drop_pending wf_issue
  wf_alloc wf_set_node : todo.


Lemma create_task_node_not_nullish t nd :
  create_task_node t = Done nd -> is_nullish (nd_task nd) = false.
Proof.
  intros H. rewrite (create_task_node_task _ _ H). destruct (is_nullish t) eqn:E; [|done].
  apply create_task_node_raises_iff in E as [e He]. congruence.
Qed.

Lemma set_prop_not_nullish v k x v' : set_prop v k x = Done v' -> is_nullish v' = false.
Proof. destruct v; simpl; intros [= <-]; done. Qed.

Lemma wf_placeholder ph p : wf_page p -> wf_page (set_children (show_placeholder ph) p).
Proof.
  intros Hwf. apply wf_set_children; [done| |repeat constructor; set_solver].
  intros nid Hin. apply list_elem_of_singleton in Hin. discriminate.
Qed.

Lemma wf_add_row nd p (place : nat -> list child -> list child) :
  wf_page p -> is_nullish (nd_task nd) = false ->
  (forall n cs, ChTask n ∉ cs -> NoDup cs -> NoDup (place n cs)) ->
  (forall n cs c, c ∈ place n cs -> c = ChTask n \/ c ∈ cs) ->
  let '(nid, p1) := alloc_node nd p in wf_page (set_children (place nid (pg_children p1)) p1).
Proof.
  intros Hwf Hnd Hnodup Hin. simpl.
  pose proof (fresh_not_row p Hwf) as Hfresh.
  pose proof (wf_alloc nd p Hwf Hnd) as Hwf1. simpl in Hwf1.
  apply wf_set_children; [done| |by apply Hnodup; [|apply Hwf]].
  intros nid Hn. apply Hin in Hn as [[= ->]|Hn]; simpl; rewrite lookup_insert_is_Some'; [by left|].
  right. by apply Hwf.
Qed.

Lemma append_child_nodup n cs : ChTask n ∉ cs -> NoDup cs -> NoDup (append_child n cs).
Proof.
  intros Hn Hcs. unfold append_child. apply NoDup_app. split; [done|].
  split; [|repeat constructor; set_solver]. set_solver.
Qed.

Lemma append_child_in n cs c : c ∈ append_child n cs -> c = ChTask n \/ c ∈ cs.
Proof. unfold append_child. rewrite elem_of_app, list_elem_of_singleton. tauto. Qed.

Lemma insert_first_nodup n cs : ChTask n ∉ cs -> NoDup cs -> NoDup (insert_first n cs).
Proof. intros. by constructor. Qed.

Lemma insert_first_in n cs c : c ∈ insert_first n cs -> c = ChTask n \/ c ∈ cs.
Proof. unfold insert_first. rewrite elem_of_cons. tauto. Qed.

Section Preservation.
Context `{T : ApiTransport}.
Variable date_parse : string -> option Z.

Lemma wf_load_start p : wf_page p -> wf_page (load_start p).
Proof. intros Hwf. apply wf_issue; [by apply wf_placeholder|done]. Qed.

Lemma wf_render_all ts p : wf_page p -> wf_page (render_all ts p).
Proof.
  revert p. induction ts as [|t ts IH]; intros p Hwf; simpl; [done|].
  destruct (create_task_node t) as [nd|e] eqn:E; [|by apply wf_placeholder].
  apply IH. pose proof (wf_add_row nd p append_child Hwf (create_task_node_not_nullish _ _ E)
    append_child_nodup append_child_in) as H. exact H.
Qed.

Lemma wf_load_resume r p : wf_page p -> wf_page (load_resume date_parse r p).
Proof.
  intros Hwf. unfold load_resume.
  assert (wf_page (set_children [] p)) as Hwf0.
  { apply wf_set_children; [done| |constructor]. intros nid Hin. by apply elem_of_nil in Hin. }
  destruct r as [tasks|e]; [|by apply wf_placeholder].
  destruct tasks; try done. destruct (Nat.eqb _ 0); [done|].
  destruct (sort_tasks date_parse elems); [by apply wf_render_all|by apply wf_placeholder].
Qed.

Lemma wf_add_start p : wf_page p -> wf_page (add_start p).
Proof. intros Hwf. unfold add_start. destruct (String.eqb _ _); [auto with todo|by apply wf_issue]. Qed.

Lemma wf_add_resume r p : wf_page p -> wf_page (add_resume r p).
Proof.
  intros Hwf. unfold add_resume. destruct (r ≫= create_task_node) as [nd|e] eqn:E; [|auto with todo].
  assert (is_nullish (nd_task nd) = false) as Hnd.
  { destruct r; [by eapply create_task_node_not_nullish|discriminate]. }
  pose proof (wf_add_row nd p insert_first Hwf Hnd insert_first_nodup insert_first_in) as H.
  simpl in *. auto with todo.
Qed.

Lemma wf_toggle_start nid p : wf_page p -> wf_page (toggle_start nid p).
Proof.
  intros Hwf. unfold toggle_start. destruct (pg_nodes p !! nid) as [nd|] eqn:Hnd; [|done].
  destruct (get_prop _ "completed"); [|auto with todo].
  destruct (get_prop _ "id"); [|auto with todo].
  apply wf_issue; [done|]. simpl. by rewrite Hnd.
Qed.

Lemma wf_toggle_resume nid r p : wf_page p -> wf_page (toggle_resume nid r p).
Proof.
  intros Hwf. unfold toggle_resume. destruct (pg_nodes p !! nid) as [nd|] eqn:Hnd; [|done].
  destruct (_ ≫= _) as [[task' b]|e] eqn:E; [|auto with todo].
  apply wf_set_node; [done|by rewrite Hnd|]. simpl.
  destruct r as [upd|]; [|discriminate]. simpl in E.
  destruct (get_prop upd "completed"); [|discriminate]. simpl in E.
  destruct (set_prop _ _ _) as [v'|] eqn:Hs; [|discriminate]. simpl in E.
  destruct (get_prop v' _); [|discriminate]. injection E as -> _.
  by eapply set_prop_not_nullish.
Qed.

Lemma wf_delete_start nid b p : wf_page p -> wf_page (delete_start nid b p).
Proof.
  intros Hwf. unfold delete_start. destruct (pg_nodes p !! nid) as [nd|] eqn:Hnd; [|done].
  destruct (get_prop _ "id"); [|auto with todo].
  destruct b; [|auto with todo]. apply wf_issue; [auto with todo|]. simpl. by rewrite Hnd.
Qed.

Lemma wf_delete_resume nid r p : wf_page p -> wf_page (delete_resume nid r p).
Proof.
  intros Hwf. unfold delete_resume. destruct r; [|auto with todo].
  destruct (Nat.eqb _ 0); [by apply wf_placeholder|].
  apply wf_set_children; [done| |].
  - intros n Hin. apply Hwf. unfold remove_child in Hin.
    apply list_elem_of_In, filter_In in Hin as [Hin _]. by apply list_elem_of_In.
  - apply NoDup_ListNoDup, List.NoDup_filter, NoDup_ListNoDup, Hwf.
Qed.

Lemma wf_answer rid a p : wf_page p -> wf_page (answer date_parse rid a p).
Proof.
  intros Hwf. unfold answer. destruct (pg_pending p !! rid) as [pd|]; [|done].
  destruct (tr_complete a) as [r fx].
  assert (wf_page (emit fx (drop_pending rid p))) as Hwf1 by auto with todo.
  destruct pd; simpl.
  - by apply wf_load_resume.
  - by apply wf_add_resume.
  - by apply wf_toggle_resume.
  - by apply wf_delete_resume.
Qed.

Lemma wf_startup : wf_page (startup init_page).
Proof.
  unfold startup. destruct (_ || _); [auto with todo|]. apply wf_load_start, wf_init.
Qed.

Lemma wf_step p p' : wf_page p -> step date_parse p p' -> wf_page p'.
Proof.
  intros Hwf Hs. destruct Hs.
  - by apply wf_set_input.
  - by apply wf_add_start.
  - unfold keydown. destruct (String.eqb _ _); [by apply wf_add_start|done].
  - by apply wf_toggle_start.
  - by apply wf_delete_start.
  - by apply wf_answer.
Qed.

Lemma wf_reachable p : reachable date_parse p -> wf_page p.
Proof.
  induction 1 as [|p p' _ IH Hs]; [apply wf_startup|]. by apply (wf_step p p').
Qed.

(** C11: every page a session can reach satisfies [wf_page]: its rows
    are distinct and point to existing nodes, fresh indices are unused,
    every request in flight for a row names an existing node, and no
    node's task object is [undefined] or [null]. *)
Theorem reachable_wf p : reachable date_parse p -> wf_page p.
Proof. apply wf_reachable. Qed.
End Preservation.


(** ** Alerts *)

Lemma count_alerts_app fx1 fx2 : count_alerts (fx1 ++ fx2) = count_alerts fx1 + count_alerts fx2.
Proof. unfold count_alerts. by rewrite List.filter_app, length_app. Qed.

(** Close a goal [count_alerts (pg_log (f ...)) = count_alerts (pg_log p)]
    after the handler is unfolded: every branch appends effects that are
    not alerts, or nothing. *)
Ltac no_new_alerts :=
  repeat (case_match; simpl in *; try done);
  rewrite ?count_alerts_app; cbn [count_alerts List.filter is_alert length]; try lia.

Definition is_failure (r : js_outcome value) : nat :=
  match r with Raised _ => 1 | Done _ => 0 end.

Section Alerts.
Context `{T : ApiTransport}.
Variable date_parse : string -> option Z.

Lemma render_all_alerts ts p : count_alerts (pg_log (render_all ts p)) = count_alerts (pg_log p).
Proof.
  revert p. induction ts as [|t ts IH]; intros p; simpl; [done|].
  destruct (create_task_node t); [rewrite IH|]; done.
Qed.

Lemma resume_alerts pd r p :
  count_alerts (pg_log (resume date_parse pd r p)) = count_alerts (pg_log p).
Proof.
  destruct pd; simpl.
  - unfold load_resume. repeat (case_match; simpl; try done). by rewrite render_all_alerts.
  - unfold add_resume. no_new_alerts.
  - unfold toggle_resume. no_new_alerts.
  - unfold delete_resume. no_new_alerts.
Qed.

Lemma user_event_alerts ev p :
  (forall rid a, ev <> EvAnswer rid a) ->
  count_alerts (pg_log (dispatch date_parse ev p)) = count_alerts (pg_log p).
Proof.
  intros Hev. destruct ev as [s| |key|nid|nid b|rid a]; simpl.
  - done.
  - unfold add_start. no_new_alerts.
  - unfold keydown, add_start. no_new_alerts.
  - unfold toggle_start, issue. no_new_alerts.
  - unfold delete_start, issue. no_new_alerts.
  - by destruct (Hev rid a).
Qed.

(** C10: over any transport that meets [ApiTransportLaws] (and [apiFetch]
    does), a user event raises no alert, and the settlement of a request
    raises exactly one alert if the call failed and none if it
    succeeded, whatever handler was waiting on it. *)
Theorem dispatch_alerts `{!ApiTransportLaws T} ev p :
  enabled ev p = true ->
  count_alerts (pg_log (dispatch date_parse ev p)) =
    count_alerts (pg_log p) +
    match ev with EvAnswer _ a => is_failure (fst (tr_complete a)) | _ => 0 end.
Proof.
  intros Hen. destruct ev as [s| |key|nid|nid b|rid a];
    try (rewrite user_event_alerts; [lia|discriminate]).
  simpl in *. apply bool_decide_eq_true in Hen as [pd Hpd].
  unfold answer. rewrite Hpd. destruct (tr_complete a) as [r fx] eqn:Ha.
  rewrite resume_alerts. simpl. rewrite count_alerts_app.
  destruct r as [v|e]; simpl.
  - pose proof (tr_complete_success a v) as H. rewrite Ha in H. simpl in H.
    rewrite H by done. cbn [count_alerts List.filter length]. lia.
  - pose proof (tr_complete_failure a e) as H. rewrite Ha in H. simpl in H.
    rewrite H by done. lia.
Qed.
End Alerts.


(** ** Runs, interleavings and what they show *)

Section Runs.
Context `{T : ApiTransport}.
Variable date_parse : string -> option Z.

Lemma step_dispatch ev p : enabled ev p = true -> step date_parse p (dispatch date_parse ev p).
Proof.
  destruct ev; simpl; intros H; try apply bool_decide_eq_true in H; constructor; done.
Qed.

Lemma run_reachable evs p : reachable date_parse p -> reachable date_parse (run date_parse evs p).
Proof.
  revert p. induction evs as [|ev evs IH]; intros p Hp; simpl; [done|].
  apply IH. destruct (enabled ev p) eqn:E; [|done].
  eapply reach_step; [exact Hp|by apply step_dispatch].
Qed.

Lemma row_allocated p nid : wf_page p -> ChTask nid ∈ pg_children p -> nid < pg_next_node p.
Proof.
  intros Hwf Hin. apply (wf_rows _ Hwf) in Hin as [nd Hnd].
  destruct (decide (nid < pg_next_node p)) as [|Hge]; [done|].
  rewrite (wf_nodes_fresh _ Hwf) in Hnd; [discriminate|lia].
Qed.

Lemma render_all_rows ts p c :
  c ∈ pg_children (render_all ts p) ->
  c ∈ pg_children p \/ (exists n, c = ChTask n /\ pg_next_node p <= n) \/
  c = ChPlaceholder PhLoadError.
Proof.
  revert p. induction ts as [|t ts IH]; intros p Hc; simpl in Hc; [by left|].
  destruct (create_task_node t) as [nd|e].
  - apply IH in Hc as [Hc|[(n & -> & Hn)|Hc]]; simpl in *.
    + apply append_child_in in Hc as [->|Hc]; [right; left; eauto|by left].
    + right; left. exists n. split; [done|lia].
    + by right; right.
  - apply list_elem_of_singleton in Hc. by right; right.
Qed.

Lemma load_resume_rows r p c :
  c ∈ pg_children (load_resume date_parse r p) ->
  (exists n, c = ChTask n /\ pg_next_node p <= n) \/ exists ph, c = ChPlaceholder ph.
Proof.
  unfold load_resume. intros Hc.
  repeat (case_match; simpl in Hc;
    try (apply list_elem_of_singleton in Hc; subst; right; eauto; fail);
    try (by apply elem_of_nil in Hc)).
  apply render_all_rows in Hc as [Hc|[Hc|Hc]]; simpl in *; [|eauto|eauto].
  by apply elem_of_nil in Hc.
Qed.

(** C15: when the load's answer arrives, every row the list showed is
    gone: in particular a task created (and shown) while the first load
    was in flight disappears, although the server has it. *)
Theorem load_answer_drops_rows p r nid :
  reachable date_parse p -> ChTask nid ∈ pg_children p ->
  ChTask nid ∉ pg_children (load_resume date_parse r p).
Proof.
  intros Hr Hin Hin'. pose proof (row_allocated p nid (wf_reachable date_parse p Hr) Hin) as Hlt.
  apply load_resume_rows in Hin' as [(n & Heq & Hn)|(ph & Hph)]; [|discriminate].
  injection Heq as <-. lia.
Qed.

(** Two clicks on a row's toggle before the first PUT settles send
    two identical PUTs: the task object only changes when an answer
    arrives, so the second click does not undo the first. *)
Theorem double_toggle_same_request p nid nd :
  pg_nodes p !! nid = Some nd -> is_nullish (nd_task nd) = false ->
  exists path body,
    pg_log (toggle_start nid (toggle_start nid p)) =
      pg_log p ++ [EFetch (pg_next_req p) (tr_request path (put_options body));
                   EFetch (S (pg_next_req p)) (tr_request path (put_options body))].
Proof.
  intros Hnd Hn. unfold toggle_start. rewrite Hnd.
  destruct (get_prop (nd_task nd) "completed") as [c|e] eqn:Hc.
  2: { exfalso. assert (is_nullish (nd_task nd) = true); [|congruence].
       apply (get_prop_raises_iff _ "completed"). eauto. }
  destruct (get_prop (nd_task nd) "id") as [id|e] eqn:Hid.
  2: { exfalso. assert (is_nullish (nd_task nd) = true); [|congruence].
       apply (get_prop_raises_iff _ "id"). eauto. }
  simpl. rewrite Hnd, Hc, Hid. simpl. eexists _, _. rewrite <- app_assoc. reflexivity.
Qed.

(** On a reachable page, clicking a row's toggle always sends a PUT
    and confirming its delete always sends a DELETE: the reads of
    [task.completed] and [task.id] never throw. *)
Theorem click_row_sends_request p nid :
  reachable date_parse p -> ChTask nid ∈ pg_children p ->
  (exists path body, toggle_start nid p = issue path (put_options body) (PToggle nid) p) /\
  (exists path, delete_start nid true p =
     issue path delete_options (PDelete nid) (emit [EConfirm confirm_message true] p)).
Proof.
  intros Hr Hin. pose proof (wf_reachable date_parse p Hr) as Hwf.
  destruct (wf_rows _ Hwf nid Hin) as [nd Hnd].
  pose proof (wf_tasks _ Hwf nid nd Hnd) as Hn.
  unfold toggle_start, delete_start. rewrite Hnd.
  rewrite !get_prop_not_nullish by done. eauto.
Qed.
End Runs.


(** ** Sessions over [apiFetch] *)

Section ApiFetchSessions.
Variable date_parse : string -> option Z.

(** C14: a DELETE that succeeds with a body that is not JSON (such as an
    empty [204 No Content]) is reported as a failure: [res.json()] throws,
    the user gets an alert and the row stays, although the server deleted
    the task. *)
Theorem delete_non_json_keeps_row p rid nid st text msg :
  pg_pending p !! rid = Some (PDelete nid) -> response_ok st = true ->
  let p' := answer date_parse rid (Response st text (Raised (SyntaxError msg))) p in
  pg_children p' = pg_children p /\ count_alerts (pg_log p') = S (count_alerts (pg_log p)).
Proof.
  intros Hpd Hok. cbn zeta. unfold answer. rewrite Hpd. cbn [tr_complete apiFetch].
  unfold api_complete, api_result. rewrite Hok. simpl. split; [done|].
  rewrite !count_alerts_app. cbn [count_alerts List.filter is_alert length]. lia.
Qed.

(** C17: a GET that succeeds with an array of two or more elements one of
    which is [null] makes the comparator throw: the list shows the load
    error placeholder, but no alert is raised (the error never reaches
    [apiFetch]). *)
Theorem load_null_element_no_alert p rid st text ts :
  pg_pending p !! rid = Some PLoad -> response_ok st = true ->
  Forall (fun v => is_undefined v = false) ts -> 2 <= length ts -> VNull ∈ ts ->
  let p' := answer date_parse rid (Response st text (Done (VArr ts))) p in
  pg_children p' = [ChPlaceholder PhLoadError] /\ count_alerts (pg_log p') = count_alerts (pg_log p).
Proof.
  intros Hpd Hok Hdef Hlen Hnull. cbn zeta. unfold answer. rewrite Hpd.
  cbn [tr_complete apiFetch]. unfold api_complete, api_result. rewrite Hok. simpl.
  destruct (Nat.eqb_spec (length ts) 0) as [|_]; [lia|].
  unfold sort_tasks.
  assert (List.filter (fun v => negb (is_undefined v)) ts = ts) as ->.
  { apply filter_id_in. intros x Hx. rewrite List.Forall_forall in Hdef. by rewrite Hdef. }
  assert (existsb is_nullish ts = true) as ->.
  { apply existsb_exists. exists VNull. split; [by apply list_elem_of_In|done]. }
  destruct (Nat.leb_spec 2 (length ts)); [|lia]. simpl. by rewrite app_nil_r.
Qed.

(** C16: a reachable page shows a task row and the "no tasks yet"
    placeholder at the same time: delete the only task, then add one; the
    placeholder written by the delete is never removed. *)
Theorem placeholder_beside_task :
  exists p, reachable no_date_parse p /\ ChPlaceholder PhEmpty ∈ pg_children p /\
    exists nid, ChTask nid ∈ pg_children p.
Proof.
  exists (run no_date_parse
    [EvAnswer 0 (Response 200 "" (Done (VArr [task_a])));
     EvClickDelete 0 true; EvAnswer 1 (Response 200 "" (Done task_a));
     EvType "leche"; EvClickAdd; EvAnswer 2 (Response 201 "" (Done task_b))]
    (startup init_page)).
  split; [apply run_reachable, reach_start|].
  vm_compute. split; [right; left|exists 1; left].
Qed.
End ApiFetchSessions.

(** ** Witnesses *)

Definition added_during_load : page :=
  run no_date_parse [EvType "leche"; EvClickAdd; EvAnswer 1 (Response 201 "" (Done task_a))]
    (startup init_page).

Definition loaded_one : page :=
  run no_date_parse [EvAnswer 0 (Response 200 "" (Done (VArr [task_a])))] (startup init_page).

Lemma reachable_wf_witness :
  reachable no_date_parse (startup init_page) /\ wf_page (startup init_page).
Proof. split; [apply reach_start|apply (reachable_wf no_date_parse _ (reach_start _))]. Defined.

Lemma dispatch_alerts_witness :
  enabled (EvAnswer 0 (NetworkFailure (TypeError "Failed to fetch"))) (startup init_page) = true /\
  count_alerts (pg_log (dispatch no_date_parse
    (EvAnswer 0 (NetworkFailure (TypeError "Failed to fetch"))) (startup init_page))) =
    count_alerts (pg_log (startup init_page)) +
    is_failure (fst (tr_complete (NetworkFailure (TypeError "Failed to fetch")))).
Proof.
  assert (enabled (EvAnswer 0 (NetworkFailure (TypeError "Failed to fetch"))) (startup init_page) = true)
    as Hen by reflexivity.
  split; [exact Hen|]. apply (dispatch_alerts no_date_parse _ _ Hen).
Defined.

Lemma load_answer_drops_rows_witness :
  reachable no_date_parse added_during_load /\ ChTask 0 ∈ pg_children added_during_load /\
  ChTask 0 ∉ pg_children (load_resume no_date_parse (Done (VArr [])) added_during_load).
Proof.
  assert (reachable no_date_parse added_during_load) as Hr by apply run_reachable, reach_start.
  assert (ChTask 0 ∈ pg_children added_during_load) as Hin by (vm_compute; left).
  split; [exact Hr|split; [exact Hin|]]. apply (load_answer_drops_rows no_date_parse _ _ 0 Hr Hin).
Defined.

Lemma double_toggle_same_request_witness :
  is_nullish task_a = false /\
  exists path body,
    pg_log (toggle_start 0 (toggle_start 0 page_with_a)) =
      pg_log page_with_a ++
        [EFetch (pg_next_req page_with_a) (tr_request path (put_options body));
         EFetch (S (pg_next_req page_with_a)) (tr_request path (put_options body))].
Proof.
  split; [reflexivity|]. apply (double_toggle_same_request page_with_a 0 _ eq_refl); reflexivity.
Defined.

Lemma click_row_sends_request_witness :
  reachable no_date_parse loaded_one /\ ChTask 0 ∈ pg_children loaded_one /\
  exists path body, toggle_start 0 loaded_one = issue path (put_options body) (PToggle 0) loaded_one.
Proof.
  assert (reachable no_date_parse loaded_one) as Hr by apply run_reachable, reach_start.
  assert (ChTask 0 ∈ pg_children loaded_one) as Hin by (vm_compute; left).
  split; [exact Hr|split; [exact Hin|]]. apply (click_row_sends_request no_date_parse _ 0 Hr Hin).
Defined.

Lemma delete_non_json_keeps_row_witness :
  (pg_pending (delete_start 0 true loaded_one) !! 1 = Some (PDelete 0)) /\ response_ok 204 = true /\
  pg_children (answer no_date_parse 1 (Response 204 "" (Raised (SyntaxError "Unexpected end of JSON input")))
    (delete_start 0 true loaded_one)) = pg_children (delete_start 0 true loaded_one).
Proof.
  assert (pg_pending (delete_start 0 true loaded_one) !! 1 = Some (PDelete 0)) as Hpd by reflexivity.
  split; [exact Hpd|split; [reflexivity|]].
  apply (delete_non_json_keeps_row no_date_parse _ 1 0 204 "" _ Hpd eq_refl).
Defined.

Lemma load_null_element_no_alert_witness :
  pg_pending (startup init_page) !! 0 = Some PLoad /\
  pg_children (answer no_date_parse 0 (Response 200 "" (Done (VArr [VNull; task_a]))) (startup init_page))
    = [ChPlaceholder PhLoadError].
Proof.
  assert (pg_pending (startup init_page) !! 0 = Some PLoad) as Hpd by reflexivity.
  split; [exact Hpd|].
  apply (load_null_element_no_alert no_date_parse _ 0 200 "" [VNull; task_a] Hpd eq_refl);
    [repeat constructor | simpl; lia | left].
Defined.

End Session.
