(* ===== verification/Refinement.v ===== *)
(** * Refinement: the list of rows is a registry of tasks keyed by row

  The spec (section 9) describes the client as a task registry keyed by
  id with rendering as its projection.  [registry] is that abstract
  state: the rows in display order, each with the index of its [<li>] and
  the task object it shows.  [astep] are the operations the registry
  offers: replace everything by a sorted load, clear, add a row on top,
  set a row's [completed], remove a row.  [registry_of] reads the
  registry off a page (placeholders show no task), and
  [step_refines_registry] shows that every step of a session is one
  registry operation or leaves the registry as it was. *)

From S2P Require Import Prelude JsString JsValue Dates Sort Transport View Handlers Session.
From stdpp Require Import gmap.
From Stdlib Require Import Permutation.
Local Open Scope todo_scope.

Module Refinement.
Import JsString JsValue Dates Sort Transport View Handlers Session.

Definition registry := list (nat * value).

Definition row_entry (p : page) (c : child) : option (nat * value) :=
  match c with
  | ChTask n => (fun nd => (n, nd_task nd)) <$> pg_nodes p !! n
  | ChPlaceholder _ => None
  end.

Definition registry_of (p : page) : registry := omap (row_entry p) (pg_children p).

(** [task.completed = c] on row [n]. *)
Definition reg_set_completed (n : nat) (c : value) (r : registry) : registry :=
  map (fun e => if Nat.eqb e.1 n then
                  match set_prop e.2 "completed" c with
                  | Done t' => (e.1, t')
                  | Raised _ => e
                  end
                else e) r.

Definition reg_remove (n : nat) (r : registry) : registry :=
  List.filter (fun e => negb (Nat.eqb e.1 n)) r.

(** Rows [n], [n+1], ... for the tasks [ts], in that order. *)
Definition reg_load (n : nat) (ts : list value) : registry := combine (seq n (length ts)) ts.

Section Abstract.
Variable date_parse : string -> option Z.

Inductive astep : registry -> registry -> Prop :=
| as_stutter r : astep r r
| as_clear r : astep r []
| as_load r n ts :
    Forall (fun t => is_nullish t = false) ts ->
    astep r (reg_load n (js_sort (created_at_key date_parse) ts))
| as_add r n v :
    n ∉ r.*1 -> is_nullish v = false -> astep r ((n, v) :: r)
| as_set r n c : astep r (reg_set_completed n c r)
| as_remove r n : astep r (reg_remove n r).
End Abstract.


(** ** The registry of a page under each handler *)

Definition same_rows (p p' : page) : Prop :=
  pg_children p' = pg_children p /\ pg_nodes p' = pg_nodes p.

Lemma same_rows_registry p p' : same_rows p p' -> registry_of p' = registry_of p.
Proof. intros [Hc Hn]. unfold registry_of, row_entry. by rewrite Hc, Hn. Qed.

Section Handlers.
Context `{T : ApiTransport}.
Variable date_parse : string -> option Z.

Lemma user_event_same_rows ev p :
  (forall rid a, ev <> EvAnswer rid a) -> same_rows p (dispatch date_parse ev p).
Proof.
  intros Hev. destruct ev as [s| |key|nid|nid b|rid a]; simpl;
    [done| |unfold keydown; destruct (String.eqb _ _)| | |by destruct (Hev rid a)];
    try done; unfold add_start, toggle_start, delete_start;
    repeat (case_match; try done).
Qed.

Lemma registry_remove p n cs :
  omap (row_entry p) (remove_child n cs) = reg_remove n (omap (row_entry p) cs).
Proof.
  induction cs as [|c cs IH]; [done|]. unfold remove_child in *. cbn [List.filter].
  destruct c as [ph|m].
  - rewrite bool_decide_true by congruence. rewrite !omap_cons. exact IH.
  - destruct (decide (m = n)) as [->|Hne].
    + rewrite bool_decide_false by congruence. rewrite omap_cons, IH. unfold row_entry.
      destruct (pg_nodes p !! n); simpl; [rewrite Nat.eqb_refl|]; done.
    + rewrite bool_decide_true by congruence. rewrite !omap_cons, IH. unfold row_entry.
      destruct (pg_nodes p !! m); simpl; [rewrite (proj2 (Nat.eqb_neq m n) Hne)|]; done.
Qed.

Lemma registry_delete_resume n v p :
  registry_of (delete_resume n (Done v) p) = reg_remove n (registry_of p).
Proof.
  unfold delete_resume, registry_of. simpl. rewrite <- registry_remove.
  destruct (Nat.eqb_spec (length (remove_child n (pg_children p))) 0) as [E|_]; [|done].
  apply nil_length_inv in E. rewrite E. done.
Qed.

Definition set_entry (n : nat) (c : value) (e : nat * value) : nat * value :=
  if Nat.eqb e.1 n then
    match set_prop e.2 "completed" c with Done t' => (e.1, t') | Raised _ => e end
  else e.

Lemma reg_set_completed_map n c r : reg_set_completed n c r = map (set_entry n c) r.
Proof. reflexivity. Qed.

Lemma registry_set_node p nid nd t' c :
  pg_nodes p !! nid = Some nd -> set_prop (nd_task nd) "completed" c = Done t' ->
  forall nd', nd_task nd' = t' ->
  registry_of (set_node nid nd' p) = reg_set_completed nid c (registry_of p).
Proof.
  intros Hnd Hs nd' Ht. unfold registry_of. rewrite reg_set_completed_map.
  apply omap_map_pointwise. intros [ph|m]; [done|]. unfold row_entry. simpl.
  destruct (decide (m = nid)) as [->|Hne].
  - rewrite lookup_insert_eq, Hnd. simpl. unfold set_entry. simpl.
    by rewrite Nat.eqb_refl, Hs, Ht.
  - rewrite lookup_insert_ne by congruence. destruct (pg_nodes p !! m); [|done].
    simpl. unfold set_entry. simpl. by rewrite (proj2 (Nat.eqb_neq m nid) Hne).
Qed.

(** When the update cannot apply, the registry is a fixed point of it. *)
Lemma reg_set_completed_id p nid c :
  (forall nd, pg_nodes p !! nid = Some nd -> exists e, set_prop (nd_task nd) "completed" c = Raised e) ->
  registry_of p = reg_set_completed nid c (registry_of p).
Proof.
  intros H. unfold registry_of. rewrite reg_set_completed_map.
  apply omap_map_pointwise. intros [ph|m]; [done|]. unfold row_entry.
  destruct (pg_nodes p !! m) as [nd|] eqn:Hm; [|done]. simpl. unfold set_entry. simpl.
  destruct (Nat.eqb_spec m nid) as [->|]; [|done].
  destruct (H nd Hm) as [e' ->]. done.
Qed.

Lemma registry_toggle_resume nid upd c p :
  get_prop upd "completed" = Done c ->
  registry_of (toggle_resume nid (Done upd) p) = reg_set_completed nid c (registry_of p).
Proof.
  intros Hc. unfold toggle_resume.
  destruct (pg_nodes p !! nid) as [nd|] eqn:Hnd.
  2: { apply reg_set_completed_id. intros nd' Hnd'. congruence. }
  rewrite bind_Done, Hc, bind_Done.
  destruct (set_prop (nd_task nd) "completed" c) as [t'|e] eqn:Hs.
  - rewrite bind_Done. rewrite get_prop_not_nullish by (by eapply set_prop_not_nullish).
    rewrite bind_Done. simpl. by apply (registry_set_node p nid nd t' c).
  - simpl. rewrite (same_rows_registry p (emit _ p)) by done.
    apply reg_set_completed_id. intros nd' Hnd'. rewrite Hnd in Hnd'. injection Hnd' as <-. eauto.
Qed.
End Handlers.


Definition rows_below (p : page) : Prop :=
  forall n, ChTask n ∈ pg_children p -> n < pg_next_node p.

Lemma wf_rows_below p : wf_page p -> rows_below p.
Proof. intros Hwf n Hn. by apply row_allocated. Qed.

Lemma row_entry_insert p k nd c :
  c <> ChTask k ->
  row_entry (set_node k nd p) c = row_entry p c.
Proof. intros Hc. destruct c as [ph|m]; [done|]. simpl. rewrite lookup_insert_ne; congruence. Qed.

Lemma registry_alloc p nd (cs : list child) :
  (forall n, ChTask n ∈ cs -> n < pg_next_node p) ->
  omap (row_entry (snd (alloc_node nd p))) cs = omap (row_entry p) cs.
Proof.
  intros Hcs. apply omap_ext_in. intros c Hc.
  apply (row_entry_insert p (pg_next_node p) nd c). intros ->. specialize (Hcs _ Hc). lia.
Qed.

Lemma registry_of_ids p m : rows_below p -> m ∈ (registry_of p).*1 -> m < pg_next_node p.
Proof.
  intros Hb Hm. apply list_elem_of_fmap in Hm as ([m' t] & -> & He).
  unfold registry_of in He. apply list_elem_of_omap in He as (c & Hc & Hrow).
  destruct c as [ph|n]; simpl in Hrow; [discriminate|].
  destruct (pg_nodes p !! n); simpl in Hrow; [|discriminate]. injection Hrow as -> _.
  by apply Hb.
Qed.

Section LoadAdd.
Context `{T : ApiTransport}.
Variable date_parse : string -> option Z.

Lemma registry_add_resume p r nd :
  rows_below p -> r ≫= create_task_node = Done nd ->
  registry_of (add_resume r p) = (pg_next_node p, nd_task nd) :: registry_of p.
Proof.
  intros Hb Hr. unfold add_resume. rewrite Hr. unfold registry_of. simpl.
  rewrite lookup_insert_eq. simpl. f_equal. apply (registry_alloc p nd). exact Hb.
Qed.

Lemma registry_render_all ts p :
  rows_below p ->
  registry_of (render_all ts p) =
    if forallb (fun t => negb (is_nullish t)) ts then registry_of p ++ reg_load (pg_next_node p) ts
    else [].
Proof.
  revert p. induction ts as [|t ts IH]; intros p Hb; simpl.
  - by rewrite app_nil_r.
  - destruct (create_task_node t) as [nd|e] eqn:E.
    + pose proof (create_task_node_not_nullish _ _ E) as Hn.
      rewrite (create_task_node_task _ _ E) in Hn. rewrite Hn. simpl.
      rewrite IH.
      * unfold registry_of at 1. simpl. unfold append_child.
        rewrite omap_app, (registry_alloc p nd) by exact Hb. simpl.
        rewrite lookup_insert_eq. simpl. rewrite (create_task_node_task _ _ E).
        destruct (forallb _ ts); [|done]. rewrite <- app_assoc. done.
      * intros n Hin. simpl in *. apply append_child_in in Hin as [[= ->]|Hin]; [lia|].
        specialize (Hb n Hin). lia.
    + assert (is_nullish t = true) as -> by (apply create_task_node_raises_iff; eauto).
      done.
Qed.

Lemma forallb_undefined_nil (ts : list value) :
  forallb (fun t => negb (is_nullish t)) (List.filter is_undefined ts) = true ->
  List.filter is_undefined ts = [].
Proof.
  induction ts as [|t ts IH]; simpl; [done|].
  destruct t; simpl; try done; auto.
Qed.

Lemma registry_load_resume p r :
  rows_below p ->
  registry_of (load_resume date_parse r p) = [] \/
  exists ts, Forall (fun t => is_nullish t = false) ts /\
    registry_of (load_resume date_parse r p) =
      reg_load (pg_next_node p) (js_sort (created_at_key date_parse) ts).
Proof.
  intros Hb. unfold load_resume.
  destruct r as [[| | | | |ts|]|e]; try (by left).
  destruct (Nat.eqb _ 0); [by left|].
  unfold sort_tasks. destruct (_ && _); [by left|].
  rewrite registry_render_all by (intros n Hn; by apply elem_of_nil in Hn).
  set (defined := List.filter (fun v => negb (is_undefined v)) ts).
  destruct (forallb _ _) eqn:Hall; [right|by left].
  rewrite forallb_app in Hall. apply andb_prop in Hall as [Hsorted Hundef].
  rewrite (forallb_undefined_nil ts Hundef), app_nil_r.
  exists defined. split.
  - eapply Permutation_Forall; [symmetry; apply js_sort_perm|].
    apply List.Forall_forall. intros x Hx. rewrite forallb_forall in Hsorted.
    specialize (Hsorted x Hx). by destruct (is_nullish x).
  - done.
Qed.
End LoadAdd.


(** A step that leaves the rows and the nodes alone is a stutter. *)
Ltac stutter :=
  match goal with
  | |- astep _ (registry_of ?p) (registry_of ?q) =>
      rewrite (same_rows_registry p q) by (split; reflexivity); apply as_stutter
  end.

(** ** The registry's own invariant *)

Lemma row_entry_key p c n t :
  row_entry p c = Some (n, t) -> c = ChTask n /\ exists nd, pg_nodes p !! n = Some nd /\ nd_task nd = t.
Proof.
  destruct c as [ph|m]; simpl; [discriminate|].
  destruct (pg_nodes p !! m) as [nd|] eqn:E; simpl; [|discriminate].
  intros [= <- <-]. eauto.
Qed.

Lemma registry_nodup p : NoDup (pg_children p) -> NoDup (registry_of p).*1.
Proof.
  unfold registry_of. generalize (pg_children p) as cs.
  induction cs as [|c cs IH]; intros Hnd; [constructor|].
  apply NoDup_cons in Hnd as [Hc Hnd]. rewrite omap_cons.
  destruct (row_entry p c) as [[n t]|] eqn:E; [|by apply IH]. simpl.
  constructor; [|by apply IH].
  intros Hin. apply list_elem_of_fmap in Hin as ([n' t'] & Hn & Hin). simpl in Hn. subst n'.
  apply list_elem_of_omap in Hin as (c' & Hc' & E').
  apply row_entry_key in E as [-> _]. apply row_entry_key in E' as [-> _]. done.
Qed.


(** ** The simulation *)

Section Simulation.
Context `{T : ApiTransport}.
Variable date_parse : string -> option Z.

Lemma resume_refines pd r p :
  wf_page p -> astep date_parse (registry_of p) (registry_of (resume date_parse pd r p)).
Proof.
  intros Hwf. pose proof (wf_rows_below p Hwf) as Hb. destruct pd as [| |nid|nid]; simpl.
  - destruct (registry_load_resume date_parse p r Hb) as [->|(ts & Hts & ->)];
      [apply as_clear|by apply as_load].
  - destruct (r ≫= create_task_node) as [nd|e] eqn:E.
    + rewrite (registry_add_resume p r nd Hb E). apply as_add.
      * intros Hin. apply (registry_of_ids p) in Hin; [lia|done].
      * destruct r; [by eapply create_task_node_not_nullish|discriminate].
    + unfold add_resume. rewrite E. stutter.
  - destruct r as [upd|e]; [destruct (get_prop upd "completed") as [c|e] eqn:Hc|].
    + rewrite (registry_toggle_resume nid upd c p Hc). apply as_set.
    + unfold toggle_resume. destruct (pg_nodes p !! nid); [|apply as_stutter].
      rewrite bind_Done, Hc. stutter.
    + unfold toggle_resume. destruct (pg_nodes p !! nid); [stutter|apply as_stutter].
  - destruct r as [v|e]; [rewrite registry_delete_resume; apply as_remove|stutter].
Qed.

Lemma user_step_stutter ev p :
  (forall rid a, ev <> EvAnswer rid a) ->
  astep date_parse (registry_of p) (registry_of (dispatch date_parse ev p)).
Proof.
  intros Hev. rewrite (same_rows_registry p (dispatch date_parse ev p))
    by (by apply user_event_same_rows).
  apply as_stutter.
Qed.

(** C18: refinement.  Every step of a session, from a reachable page, acts
    on the rows as one operation of the abstract registry: reload with the
    sorted answer, clear, add a fresh row on top, set a row's [completed],
    remove a row, or nothing at all.  In particular no step reorders,
    duplicates or rewrites rows in any other way. *)
Theorem step_refines_registry p p' :
  reachable date_parse p -> step date_parse p p' ->
  astep date_parse (registry_of p) (registry_of p').
Proof.
  intros Hr Hs. pose proof (wf_reachable date_parse p Hr) as Hwf.
  destruct Hs as [s|p|key|nid p _|nid b p _|rid a p [pd Hpd]].
  - stutter.
  - apply (user_step_stutter EvClickAdd). discriminate.
  - apply (user_step_stutter (EvKeyDown key)). discriminate.
  - apply (user_step_stutter (EvClickToggle nid)). discriminate.
  - apply (user_step_stutter (EvClickDelete nid b)). discriminate.
  - unfold answer. rewrite Hpd. destruct (tr_complete a) as [r fx].
    rewrite <- (same_rows_registry p (emit fx (drop_pending rid p))) by (split; reflexivity).
    apply resume_refines. auto with todo.
Qed.

End Simulation.


(** ** Witness *)

Lemma step_refines_registry_witness :
  reachable no_date_parse (startup init_page) /\
  step no_date_parse (startup init_page)
    (answer no_date_parse 0 (Response 200 "" (Done (VArr [task_a; task_b]))) (startup init_page)) /\
  astep no_date_parse (registry_of (startup init_page))
    (registry_of (answer no_date_parse 0 (Response 200 "" (Done (VArr [task_a; task_b])))
       (startup init_page))).
Proof.
  assert (reachable no_date_parse (startup init_page)) as Hr by apply reach_start.
  assert (step no_date_parse (startup init_page)
    (answer no_date_parse 0 (Response 200 "" (Done (VArr [task_a; task_b]))) (startup init_page)))
    as Hs by (apply step_answer; eexists; reflexivity).
  split; [exact Hr|split; [exact Hs|]]. apply (step_refines_registry no_date_parse _ _ Hr Hs).
Defined.


End Refinement.
