(* ===== verification/Progress.v ===== *)
(** * Progress of the event loop: every request in flight settles

  Each call to [apiFetch] leaves a request in [pg_pending] until the
  network answers it ([Handlers.answer]); the code after each [await]
  never starts another request.  This file shows the two consequences:
  answers alone cannot go on for ever (the number of requests in flight
  decreases at each one), and from any reachable page, whatever the
  network answers and in whatever order, answering the requests in
  flight reaches a reachable page with none left.  Over any sequence of
  [steps], rows only ever come from freshly created nodes, so a row that
  is gone (deleted, or wiped by a load) never comes back, even when a
  late answer for it arrives. *)

From S2P Require Import Prelude JsString JsValue Dates Sort Transport View Handlers Session.
From stdpp Require Import gmap.
Local Open Scope todo_scope.

Module Progress.
Import JsValue Transport View Handlers Session.

(** Concrete sessions over [apiFetch]: answers that return an empty
    collection, and a row deleted while its toggle is in flight. *)
Definition net_empty (rid : nat) : fetch_answer := Response 200 "" (Done (VArr [])).

Definition pg_loaded : page :=
  answer no_date_parse 0 (Response 200 "" (Done (VArr [task_a]))) (startup init_page).
Definition pg_deleting : page := delete_start 0 true (toggle_start 0 pg_loaded).
Definition pg_deleted : page := answer no_date_parse 2 (Response 200 "" (Done VNull)) pg_deleting.
Definition pg_late_toggle : page :=
  answer no_date_parse 1 (Response 200 "" (Done (VObj [("completed"%string, VBool true)]))) pg_deleted.

Section Progress.
Context `{T : ApiTransport}.
Variable date_parse : string -> option Z.

(** One network answer to a request in flight, with no user event. *)
Inductive settles : page -> page -> Prop :=
| settles_answer rid a p :
    is_Some (pg_pending p !! rid) -> settles p (answer date_parse rid a p).

(** The network answers the requests [rids] in that order, request
    [rid] with [net rid]. *)
Fixpoint drain (net : nat -> fetch_answer) (rids : list nat) (p : page) : page :=
  match rids with
  | [] => p
  | rid :: rids' => drain net rids' (answer date_parse rid (net rid) p)
  end.

Definition in_flight (p : page) : list nat := (map_to_list (pg_pending p)).*1.

(** Any number of steps of the session. *)
Inductive steps : page -> page -> Prop :=
| steps_refl p : steps p p
| steps_step p p' p'' : step date_parse p p' -> steps p' p'' -> steps p p''.

(** ** The code after an [await] starts no request *)

Lemma render_all_pending ts p : pg_pending (render_all ts p) = pg_pending p.
Proof.
  revert p. induction ts as [|t ts IH]; intros p; simpl; [done|].
  case_match; [|done]. by rewrite IH.
Qed.

Lemma resume_pending pd r p : pg_pending (resume date_parse pd r p) = pg_pending p.
Proof.
  destruct pd; simpl;
    unfold load_resume, add_resume, toggle_resume, delete_resume;
    repeat case_match; unfold alloc_node in *; simplify_eq/=; rewrite ?render_all_pending; done.
Qed.

Lemma answer_pending rid a p :
  is_Some (pg_pending p !! rid) ->
  pg_pending (answer date_parse rid a p) = delete rid (pg_pending p).
Proof.
  intros [pd Hpd]. unfold answer. rewrite Hpd.
  destruct (tr_complete a). by rewrite resume_pending.
Qed.

Lemma settles_step p p' : settles p p' -> step date_parse p p'.
Proof. intros []. by constructor. Qed.

Lemma settles_size p p' : settles p p' -> size (pg_pending p') < size (pg_pending p).
Proof.
  intros [rid a q Hq]. rewrite answer_pending, map_size_delete_Some by done.
  apply map_size_ne_0_lookup_2 in Hq. lia.
Qed.

Lemma in_flight_answer rid a p rids :
  rid :: rids ≡ₚ in_flight p -> rids ≡ₚ in_flight (answer date_parse rid a p) /\
  is_Some (pg_pending p !! rid).
Proof.
  unfold in_flight. intros Hperm.
  assert (rid ∈ (map_to_list (pg_pending p)).*1) as Hin
    by (rewrite <- Hperm; left).
  apply list_elem_of_fmap in Hin as ([rid' pd] & -> & Hin).
  apply elem_of_map_to_list in Hin. simpl in *. split; [|eauto].
  rewrite answer_pending by eauto.
  apply (Permutation_cons_inv (a := rid')). rewrite Hperm.
  rewrite <- (map_to_list_delete (pg_pending p) rid' pd Hin). reflexivity.
Qed.

(** ** Rows come from fresh nodes only *)

Definition rows_fresh (p p' : page) : Prop :=
  pg_next_node p <= pg_next_node p' /\
  forall n, ChTask n ∈ pg_children p' -> ChTask n ∈ pg_children p \/ pg_next_node p <= n.

Lemma rows_fresh_same p p' :
  pg_children p' = pg_children p -> pg_next_node p' = pg_next_node p -> rows_fresh p p'.
Proof. intros Hc Hn. split; [lia|]. intros n. rewrite Hc. by left. Qed.

Lemma render_all_next_node ts p : pg_next_node p <= pg_next_node (render_all ts p).
Proof.
  revert p. induction ts as [|t ts IH]; intros p; simpl; [done|].
  case_match; [|done]. etransitivity; [|apply IH]. simpl. lia.
Qed.

Lemma rows_fresh_resume pd r p : rows_fresh p (resume date_parse pd r p).
Proof.
  destruct pd as [| |nid|nid]; simpl.
  - split.
    + unfold load_resume. repeat case_match; simpl; try lia. exact (render_all_next_node _ (set_children [] p)).
    + intros n Hn. apply load_resume_rows in Hn as [(m & [= <-] & Hm)|(ph & ?)]; [by right|done].
  - unfold add_resume. case_match; [|by apply rows_fresh_same].
    unfold alloc_node. split; simpl; [lia|]. intros n Hn.
    apply insert_first_in in Hn as [[= ->]|Hn]; [right; lia|by left].
  - unfold toggle_resume. repeat case_match; by apply rows_fresh_same.
  - unfold delete_resume. case_match; [|by apply rows_fresh_same].
    split; [done|]. intros n Hn. left. simpl in Hn. case_match; [by apply list_elem_of_singleton in Hn|].
    unfold remove_child in Hn. apply list_elem_of_In, filter_In in Hn as [Hn _]. by apply list_elem_of_In.
Qed.

Lemma rows_fresh_step p p' : step date_parse p p' -> rows_fresh p p'.
Proof.
  destruct 1 as [s p|p|key p|nid p _|nid b p _|rid a p _].
  - by apply rows_fresh_same.
  - unfold add_start. case_match; by apply rows_fresh_same.
  - unfold keydown, add_start. repeat case_match; by apply rows_fresh_same.
  - unfold toggle_start. repeat case_match; by apply rows_fresh_same.
  - unfold delete_start. repeat case_match; by apply rows_fresh_same.
  - unfold answer. case_match; [|by apply rows_fresh_same].
    destruct (tr_complete a) as [r fx]. exact (rows_fresh_resume _ _ (emit fx (drop_pending rid p))).
Qed.

(** C23: termination.  Network answers alone cannot go on for ever:
    [settles] is well founded, because each answer removes its request
    from the requests in flight and none adds one. *)
Theorem settles_terminates : well_founded (fun p' p => settles p p').
Proof.
  apply (well_founded_lt_compat _ (fun p => size (pg_pending p))).
  intros p' p Hs. by apply settles_size.
Qed.

(** C24: liveness.  From a reachable page, whatever the network answers
    ([net]) and in whatever order the requests in flight settle ([rids],
    any ordering of them), the page reached is reachable and has no
    request left in flight; each answer on the way is a step. *)
Theorem drain_quiescent p net rids :
  reachable date_parse p -> rids ≡ₚ in_flight p ->
  reachable date_parse (drain net rids p) /\ pg_pending (drain net rids p) = ∅.
Proof.
  revert p. induction rids as [|rid rids IH]; intros p Hr Hperm; simpl.
  - split; [done|]. apply map_to_list_empty_iff.
    apply Permutation_nil in Hperm. unfold in_flight in Hperm.
    by apply fmap_nil_inv in Hperm.
  - destruct (in_flight_answer rid (net rid) p rids Hperm) as [Hperm' Hpd].
    apply IH; [|done]. econstructor; [exact Hr|]. by constructor.
Qed.

(** C34: safety.  A row that a page does not show, and whose node was
    created before, never comes back, whatever happens next: in
    particular a toggle answer that arrives after its row was deleted
    updates the detached node only, and no later step shows it again. *)
Theorem removed_row_stays_removed p p' n :
  steps p p' -> ChTask n ∉ pg_children p -> n < pg_next_node p -> ChTask n ∉ pg_children p'.
Proof.
  induction 1 as [p|p p1 p'' Hs _ IH]; intros Hn Hlt; [done|].
  destruct (rows_fresh_step p p1 Hs) as [Hle Hrows].
  apply IH; [|lia]. intros Hin. apply Hrows in Hin as [|]; [done|lia].
Qed.

End Progress.

Lemma drain_quiescent_witness :
  reachable (T := apiFetch) (fun _ => None) (startup init_page) /\
  [0] ≡ₚ in_flight (startup init_page) /\
  pg_pending (drain (fun _ => None) net_empty [0] (startup init_page)) = ∅.
Proof.
  assert (reachable (T := apiFetch) (fun _ => None) (startup init_page)) as Hr by constructor.
  assert ([0] ≡ₚ in_flight (startup init_page)) as Hp by (vm_compute; reflexivity).
  split; [exact Hr|]. split; [exact Hp|].
  apply (drain_quiescent (fun _ => None) (startup init_page) net_empty [0] Hr Hp).
Defined.

Lemma removed_row_stays_removed_witness :
  steps no_date_parse pg_deleted pg_late_toggle /\ (ChTask 0 ∉ pg_children pg_deleted) /\
  (0 < pg_next_node pg_deleted)%nat /\ (ChTask 0 ∉ pg_children pg_late_toggle).
Proof.
  assert (steps no_date_parse pg_deleted pg_late_toggle) as Hs
    by (eapply steps_step; [|apply steps_refl]; apply step_answer; eexists; reflexivity).
  assert (ChTask 0 ∉ pg_children pg_deleted) as Hn.
  { assert (pg_children pg_deleted = [ChPlaceholder PhEmpty]) as -> by reflexivity.
    intros H%list_elem_of_singleton. discriminate. }
  assert (0 < pg_next_node pg_deleted)%nat as Hlt by (vm_compute; lia).
  split; [exact Hs|]. split; [exact Hn|]. split; [exact Hlt|].
  exact (removed_row_stays_removed no_date_parse _ _ 0 Hs Hn Hlt).
Defined.

End Progress.
