(* ===== verification/Requests.v ===== *)
(** * The requests the page sends are calls of the REST API

  The remote resource (spec, section 6) has four calls: GET of the
  collection, POST of [{title, completed}] to the collection, PUT of a
  task to [/<id>] and DELETE of [/<id>].  [api_call] describes them as
  [apiFetch] sends them: URL, method, headers and the body text that
  [JSON.stringify] returns.  Every [EFetch] that a session can produce
  is one of them ([reachable_api_calls]).  When a request fails with an
  HTTP status, the effects come in a fixed order: [apiFetch]'s console
  line and alert, then the awaiting handler's [catch]
  ([http_failure_effects]).

  The proofs follow the log: each operation of the page appends effects
  to it ([grows]), and the only appended [EFetch] are those of [issue]
  in the four handlers' synchronous parts, each with the next id. *)

From S2P Require Import Prelude JsString JsValue Json JsonParse Dates Sort Transport View Handlers Session.
From stdpp Require Import gmap.
Local Open Scope todo_scope.

Module Requests.
Import JsString JsValue Json JsonParse Transport View Handlers Session.

(** The text [JSON.stringify({ title, completed: false })] (line 94). *)
Definition post_body (title : string) : string :=
  "{" +++ json_quote "title" +++ ":" +++ json_quote title +++ "," +++
  json_quote "completed" +++ ":false}".

Inductive api_call : request -> Prop :=
| call_get :
    api_call {| rq_url := API_URL; rq_method := "GET"; rq_headers := []; rq_body := None |}
| call_post title : title <> ""%string -> trim title = title ->
    api_call {| rq_url := API_URL; rq_method := "POST"; rq_headers := json_headers;
                rq_body := Some (post_body title) |}
| call_put id ps b : assoc_lookup "completed" ps = Some (VBool b) ->
    api_call {| rq_url := API_URL +++ "/" +++ id; rq_method := "PUT"; rq_headers := json_headers;
                rq_body := json_stringify (VObj ps) |}
| call_delete id :
    api_call {| rq_url := API_URL +++ "/" +++ id; rq_method := "DELETE"; rq_headers := [];
                rq_body := None |}.

Definition fetch_ok (e : effect) : Prop :=
  match e with EFetch _ rq => api_call rq | _ => True end.

(** The request ids of the [EFetch] effects, in order. *)
Definition fetch_ids (fx : list effect) : list nat :=
  omap (fun e => match e with EFetch rid _ => Some rid | _ => None end) fx.

(** [p'] is [p] with effects appended, each request among them a call
    of the API, and the requests among them numbered from [pg_next_req p]
    on, in order. *)
Definition grows (p p' : page) : Prop :=
  exists fx, pg_log p' = pg_log p ++ fx /\ Forall fetch_ok fx /\
    pg_next_req p <= pg_next_req p' /\
    fetch_ids fx = seq (pg_next_req p) (pg_next_req p' - pg_next_req p).

(** The console line of the [catch] of the handler awaiting a request
    (lines 83, 107, 126, 138): [loadTasks] logs nothing. *)
Definition handler_catch (pd : pending) (e : js_error) : list effect :=
  match pd with
  | PLoad => []
  | PAdd => [EConsoleError "addTask error" e]
  | PToggle _ => [EConsoleError "toggleTask error" e]
  | PDelete _ => [EConsoleError "deleteTask error" e]
  end.

(** ** The log grows *)

Lemma fetch_ids_app fx1 fx2 : fetch_ids (fx1 ++ fx2) = fetch_ids fx1 ++ fetch_ids fx2.
Proof. apply omap_app. Qed.

Lemma no_fetch_ok fx : Forall (fun e => forall rid rq, e <> EFetch rid rq) fx -> Forall fetch_ok fx.
Proof. intros F. eapply Forall_impl; [exact F|]. intros [] H; simpl; try done. by destruct (H rid rq). Qed.

Lemma no_fetch_ids fx : Forall (fun e => forall rid rq, e <> EFetch rid rq) fx -> fetch_ids fx = [].
Proof.
  induction 1 as [|e fx He _ IH]; [done|]. unfold fetch_ids. rewrite omap_cons.
  destruct e; try exact IH. by destruct (He rid rq).
Qed.

Lemma seq_split a b c : a <= b -> b <= c -> seq a (c - a) = seq a (b - a) ++ seq b (c - b).
Proof.
  intros. replace (c - a) with ((b - a) + (c - b)) by lia.
  rewrite seq_app. do 2 f_equal. lia.
Qed.

Lemma grows_same p p' : pg_log p' = pg_log p -> pg_next_req p' = pg_next_req p -> grows p p'.
Proof.
  intros H Hr. exists []. rewrite H, Hr, app_nil_r, Nat.sub_diag. repeat split; [constructor|lia].
Qed.

Lemma grows_trans p1 p2 p3 : grows p1 p2 -> grows p2 p3 -> grows p1 p3.
Proof.
  intros (fx1 & H1 & F1 & L1 & I1) (fx2 & H2 & F2 & L2 & I2). exists (fx1 ++ fx2).
  rewrite H2, H1, app_assoc, fetch_ids_app, I1, I2, <- seq_split by lia.
  repeat split; [by apply Forall_app|lia].
Qed.

Lemma grows_emit fx p : Forall (fun e => forall rid rq, e <> EFetch rid rq) fx -> grows p (emit fx p).
Proof.
  intros F. exists fx. simpl. rewrite no_fetch_ids, Nat.sub_diag by done.
  repeat split; [by apply no_fetch_ok|lia].
Qed.

Lemma grows_issue path o pd p :
  api_call (api_request path o) -> grows p (issue path o pd p).
Proof.
  intros Hc. exists [EFetch (pg_next_req p) (api_request path o)]. simpl.
  replace (S (pg_next_req p) - pg_next_req p) with 1 by lia.
  repeat split; [by repeat constructor|lia].
Qed.

Lemma render_all_log ts p : pg_log (render_all ts p) = pg_log p.
Proof.
  revert p. induction ts as [|t ts IH]; intros p; simpl; [done|].
  case_match; [|done]. by rewrite IH.
Qed.

Lemma render_all_next_req ts p : pg_next_req (render_all ts p) = pg_next_req p.
Proof.
  revert p. induction ts as [|t ts IH]; intros p; simpl; [done|].
  case_match; [|done]. by rewrite IH.
Qed.

Lemma stringify_post title :
  json_stringify (VObj [("title"%string, VStr title); ("completed"%string, VBool false)]) =
  Some (post_body title).
Proof. unfold post_body. simpl. by rewrite <- ?string_app_assoc. Qed.

Lemma stringify_post_jtext title :
  jtext (VObj [("title"%string, VStr title); ("completed"%string, VBool false)]) = post_body title.
Proof. unfold jtext. by rewrite stringify_post. Qed.

#[local] Hint Resolve grows_same grows_emit grows_issue : todo.

(** ** Each operation *)

Section Ops.
Variable date_parse : string -> option Z.

Ltac no_fetch := repeat constructor; intros ? ?; discriminate.

Ltac grows_tac :=
  repeat match goal with
  | |- grows ?p (emit _ ?p) => apply grows_emit; no_fetch
  | |- grows ?p (issue _ _ _ ?p) => apply grows_issue
  | |- grows ?p (emit _ ?q) => apply (grows_trans p q); [|apply grows_emit; no_fetch]
  | |- grows ?p (issue _ _ _ ?q) => apply (grows_trans p q); [|apply grows_issue]
  | |- grows _ _ =>
      apply grows_same; simpl; rewrite ?render_all_log, ?render_all_next_req; reflexivity
  end.

Lemma grows_load_start p : grows p (load_start p).
Proof.
  unfold load_start. grows_tac. unfold api_request. simpl.
  rewrite string_app_nil_r. constructor.
Qed.

Lemma grows_add_start p : grows p (add_start p).
Proof.
  unfold add_start. case_match eqn:E; grows_tac.
  unfold api_request, post_options. cbn [opt_method opt_headers opt_body default from_option id].
  rewrite string_app_nil_r, stringify_post. constructor.
  - by apply String.eqb_neq in E.
  - apply trim_idempotent.
Qed.

Lemma grows_toggle_start nid p : grows p (toggle_start nid p).
Proof.
  unfold toggle_start. repeat case_match; grows_tac.
  unfold api_request, put_options, spread_with. cbn [opt_method opt_headers opt_body default from_option id].
  eapply call_put. apply assoc_lookup_set_eq.
Qed.

Lemma grows_delete_start nid b p : grows p (delete_start nid b p).
Proof.
  unfold delete_start. repeat case_match; grows_tac.
  unfold api_request. simpl. constructor.
Qed.

Lemma grows_resume pd r p : grows p (resume date_parse pd r p).
Proof.
  destruct pd; simpl; unfold load_resume, add_resume, toggle_resume, delete_resume;
    repeat case_match; unfold alloc_node in *; simplify_eq/=; grows_tac.
Qed.

Lemma grows_answer rid a p : grows p (answer date_parse rid a p).
Proof.
  unfold answer. case_match; [|by apply grows_same].
  destruct (tr_complete a) as [r fx] eqn:E.
  apply (grows_trans _ (emit fx (drop_pending rid p))); [|apply grows_resume].
  apply (grows_trans _ (drop_pending rid p)); [by apply grows_same|].
  apply grows_emit.
  pose proof (tr_complete_fetch (ApiTransportLaws := apiFetch_laws) a) as F.
  by rewrite E in F.
Qed.

Lemma grows_step p p' : step date_parse p p' -> grows p p'.
Proof.
  destruct 1; eauto using grows_load_start, grows_add_start, grows_toggle_start,
    grows_delete_start, grows_answer with todo.
  unfold keydown. case_match; [apply grows_add_start|by apply grows_same].
Qed.

Lemma grows_startup :
  Forall fetch_ok (pg_log (startup init_page)) /\
  fetch_ids (pg_log (startup init_page)) = seq 0 (pg_next_req (startup init_page)).
Proof.
  destruct (grows_load_start init_page) as (fx & E & F & _ & I).
  assert (startup init_page = load_start init_page) as -> by reflexivity.
  rewrite E. cbn [pg_log init_page app]. rewrite I. split; [done|reflexivity].
Qed.

Lemma grows_reachable p :
  reachable date_parse p ->
  Forall fetch_ok (pg_log p) /\ fetch_ids (pg_log p) = seq 0 (pg_next_req p).
Proof.
  induction 1 as [|p p' Hr IH Hs]; [apply grows_startup|].
  destruct IH as [F I]. destruct (grows_step p p' Hs) as (fx & -> & F' & L & I').
  split; [by apply Forall_app|].
  pose proof (seq_split 0 (pg_next_req p) (pg_next_req p') ltac:(lia) L) as S.
  rewrite !Nat.sub_0_r in S. by rewrite fetch_ids_app, I, I', S.
Qed.

(** C25: type.  On every page a session reaches, every request in the
    log is one of the four calls of the REST API: a GET of [API_URL]
    without body, a POST to [API_URL] of the text
    [{"title":<title>,"completed":false}] with a non-empty trimmed title,
    a PUT to [API_URL/<id>] of the text of an object whose [completed] is
    a boolean, or a DELETE of [API_URL/<id>] without body. *)
Theorem reachable_api_calls p rid rq :
  reachable date_parse p -> EFetch rid rq ∈ pg_log p -> api_call rq.
Proof.
  intros Hr Hin. destruct (grows_reachable p Hr) as [F _].
  rewrite Forall_forall in F. exact (F _ Hin).
Qed.


(** C33: error path and ordering.  When a request in flight is answered
    with a status outside 200-299, the page's effects are, in this order:
    [apiFetch]'s console line and its one alert, both carrying the error
    [HTTP <status> - <body>], then the console line of the awaiting
    handler's [catch] (none for [loadTasks]), and nothing else. *)
Theorem http_failure_effects p rid pd status text json :
  reachable date_parse p -> pg_pending p !! rid = Some pd -> response_ok status = false ->
  let e := Error ("HTTP " +++ number_to_string status +++ " - " +++ text) in
  pg_log (answer date_parse rid (Response status text json) p) =
    pg_log p ++ [EConsoleError "API error:" e; EAlert ("Error con la API: " +++ error_message e)] ++
    handler_catch pd e.
Proof.
  intros Hr Hpd Hok. cbn zeta. pose proof (wf_reachable date_parse p Hr) as Hwf.
  unfold answer. rewrite Hpd. cbn [tr_complete apiFetch]. unfold api_complete, api_result.
  rewrite Hok. cbn [resume].
  destruct pd as [| |nid|nid]; simpl.
  - done.
  - by rewrite <- app_assoc.
  - destruct (wf_pending p Hwf rid _ Hpd) as [nd Hnd]. unfold toggle_resume. simpl.
    rewrite Hnd. simpl. by rewrite <- app_assoc.
  - by rewrite <- app_assoc.
Qed.

End Ops.


Lemma reachable_api_calls_witness :
  reachable (fun _ => None) (startup init_page) /\
  EFetch 0 {| rq_url := API_URL; rq_method := "GET"; rq_headers := []; rq_body := None |}
    ∈ pg_log (startup init_page) /\
  api_call {| rq_url := API_URL; rq_method := "GET"; rq_headers := []; rq_body := None |}.
Proof.
  assert (reachable (fun _ => None) (startup init_page)) as Hr by constructor.
  assert (EFetch 0 {| rq_url := API_URL; rq_method := "GET"; rq_headers := []; rq_body := None |}
    ∈ pg_log (startup init_page)) as Hin by (vm_compute; left).
  split; [exact Hr|]. split; [exact Hin|].
  apply (reachable_api_calls (fun _ => None) _ 0 _ Hr Hin).
Defined.

Lemma http_failure_effects_witness :
  reachable (fun _ => None) (startup init_page) /\ pg_pending (startup init_page) !! 0 = Some PLoad /\
  response_ok 503 = false /\
  pg_log (answer (fun _ => None) 0 (Response 503 "busy" (Done VNull)) (startup init_page)) =
    pg_log (startup init_page) ++
    [EConsoleError "API error:" (Error "HTTP 503 - busy");
     EAlert "Error con la API: HTTP 503 - busy"].
Proof.
  assert (reachable (fun _ => None) (startup init_page)) as Hr by constructor.
  assert (pg_pending (startup init_page) !! 0 = Some PLoad) as Hpd by reflexivity.
  assert (response_ok 503 = false) as Hok by reflexivity.
  split; [exact Hr|]. split; [exact Hpd|]. split; [exact Hok|].
  rewrite (http_failure_effects (fun _ => None) _ 0 PLoad 503 "busy" (Done VNull) Hr Hpd Hok).
  reflexivity.
Defined.


End Requests.
