(* ===== verification/Consistency.v ===== *)
(** * The page against the resource: consistency and request rounds

  [Server] models the MockAPI collection.  This file relates a page to
  the resource's state, and follows one request at a time through the
  page, the network and the resource.

  - [server_ok]: what the resource keeps true, namely distinct ids below
    its counter and increasing creation times.
  - [view_of]: the page's rows show the resource's tasks, newest first.
  - [nodes_ok]: every [<li>] node the page ever created holds a task the
    resource created.  A node that is no longer a row holds a task the
    resource no longer has.
  - [consistent]: the three together.

  A round ([round_ok]) runs the handler's start on a page, lets the
  resource serve the request ([serve]), then resumes the handler on the
  answer.  The round lemmas show that each of the four requests the code
  sends keeps [consistent] and is answered as [served] says:
  [round_add] for addTask, [round_toggle] for toggleTask,
  [round_delete] for deleteTask and [round_load] for loadTasks at
  start-up.  The page a round starts from needs no request in flight and
  no link to the page the user sees: the toggle and delete rounds take
  any body and any node of the heap.  This makes them usable both for
  synchronous sessions ([Sync]) and for sessions over an in-order
  network ([Fifo]), where the page the user clicks on lags behind. *)

From S2P Require Import Prelude JsString JsValue Json JsonParse Dates Sort IsoDate Transport Server View Handlers Session Refinement Progress Requests.
From stdpp Require Import gmap.
Local Open Scope todo_scope.

Module Consistency.
Import JsString JsValue Json JsonParse Dates Sort IsoDate Transport Server View Handlers Session Refinement Progress Requests.

(** The task a toggle makes of [t]. *)
Definition with_completed (b : bool) (t : task) : task :=
  {| tk_id := tk_id t; tk_title := tk_title t; tk_completed := b; tk_created := tk_created t |}.

(** A row and a task at the same position, the row being [nid] exactly
    when the task is [t0]. *)
Definition paired (nid : nat) (t0 : task) (e : nat * value) (u : task) : Prop :=
  e.2 = task_value u /\ ((e.1 = nid /\ u = t0) \/ (e.1 <> nid /\ tk_id u <> tk_id t0)).

(** The value the resource sends for a request of kind [pd]: the
    collection's tasks for the load, one task for the other requests. *)
Definition shaped (pd : pending) (v : value) : Prop :=
  match pd with
  | PLoad => exists ts, v = VArr (map task_value ts)
  | _ => exists t, v = task_value t
  end.

(** What an answer of the resource to a request of kind [pd] carries:
    a reply always (no network failure), whose parsed body, when
    [res.json()] gives one, is [shaped]. *)
Definition served (pd : pending) (a : fetch_answer) : Prop :=
  match a with
  | NetworkFailure _ => False
  | Response _ _ (Raised _) => True
  | Response _ _ (Done v) => shaped pd v
  end.

(** Every node of the heap holds a task the resource created (its id is
    below the counter); a node that is no longer a row holds a task the
    resource no longer has. *)
Definition nodes_ok (sv : server) (p : page) : Prop :=
  forall nid nd, pg_nodes p !! nid = Some nd ->
  exists u, nd_task nd = task_value u /\ tk_id u < sv_next_id sv /\
    (ChTask nid ∉ pg_children p -> tk_id u ∉ map tk_id (sv_tasks sv)).

(** The rows show the resource's tasks, newest first. *)
Definition view_of (p : page) (sv : server) : Prop :=
  Forall2 (fun e t => e.2 = task_value t) (registry_of p) (rev (sv_tasks sv)).

Section Consistent.
Variable date_parse : string -> option Z.

(** The sort key [new Date(t.createdAt || 0)] of a task created at [c]. *)
Definition stamp_key (c : string) : option Z :=
  created_at_key date_parse (VObj [("createdAt", VStr c)])%string.

Definition stamp_lt (c d : string) : Prop :=
  match stamp_key c, stamp_key d with Some a, Some b => (a < b)%Z | _, _ => False end.

(** What the resource keeps true: distinct ids below the counter, and
    creation times (those of its tasks, then the clock's next readings)
    increasing. *)
Record server_ok (sv : server) : Prop := {
  so_ids : NoDup (map tk_id (sv_tasks sv));
  so_fresh : Forall (fun t => tk_id t < sv_next_id sv) (sv_tasks sv);
  so_keys : StronglySorted stamp_lt (map tk_created (sv_tasks sv) ++ sv_clock sv)
}.

Record consistent (p : page) (sv : server) : Prop := {
  cs_server : server_ok sv;
  cs_view : view_of p sv;
  cs_nodes : nodes_ok sv p
}.

(** One round: the page sends the request, the resource serves it, and
    the handler resumes on the answer. *)
Definition round_ok (pd : pending) (path : string) (o : fetch_options) (p : page) (sv : server) : Prop :=
  served pd (serve sv (api_request path o)).2 /\
  consistent (answer date_parse (pg_next_req p) (serve sv (api_request path o)).2 (issue path o pd p))
    (serve sv (api_request path o)).1.

End Consistent.

(** ** Rows against tasks *)

Lemma task_value_inj t u : task_value t = task_value u -> t = u.
Proof.
  destruct t, u. unfold task_value. simpl. intros [= -> -> -> Hid].
  apply id_string_inj in Hid as ->. done.
Qed.

Lemma paired_rest reg rts nid t0 :
  Forall2 (fun e t => e.2 = task_value t) reg rts -> nid ∉ reg.*1 -> tk_id t0 ∉ map tk_id rts ->
  Forall2 (paired nid t0) reg rts.
Proof.
  induction 1 as [|e u reg rts He _ IH]; intros Hn Ht; constructor.
  - split; [done|]. right. split.
    + intros <-. apply Hn. simpl. apply elem_of_cons. by left.
    + intros E. apply Ht. simpl. rewrite E. apply elem_of_cons. by left.
  - apply IH; intros H; [apply Hn|apply Ht]; simpl; apply elem_of_cons; by right.
Qed.

Lemma pairing reg rts nid t0 :
  Forall2 (fun e t => e.2 = task_value t) reg rts -> NoDup reg.*1 -> NoDup (map tk_id rts) ->
  (nid, task_value t0) ∈ reg -> Forall2 (paired nid t0) reg rts.
Proof.
  induction 1 as [|e u reg rts He Hrest IH]; intros Hnd1 Hnd2 Hin; [by apply elem_of_nil in Hin|].
  simpl in Hnd1, Hnd2. apply NoDup_cons in Hnd1 as [He1 Hnd1]. apply NoDup_cons in Hnd2 as [Hu Hnd2].
  apply elem_of_cons in Hin as [<-|Hin].
  - simpl in He. apply task_value_inj in He as ->. constructor; [split; [done|by left]|].
    by apply paired_rest.
  - constructor; [|by apply IH]. split; [done|]. right. split.
    + intros <-. apply He1. apply list_elem_of_fmap. by exists (e.1, task_value t0).
    + apply list_elem_of_In in Hin. destruct (Forall2_in_l _ _ _ _ Hrest Hin) as (u' & Hu' & E).
      simpl in E. apply task_value_inj in E as <-. intros E. apply Hu. rewrite E.
      apply list_elem_of_In. by apply in_map.
Qed.

Lemma view_toggle reg rts nid t0 b :
  Forall2 (paired nid t0) reg rts ->
  Forall2 (fun e t => e.2 = task_value t) (reg_set_completed nid (VBool b) reg)
    (map (fun u => if has_id (id_string (tk_id t0)) u then with_completed b t0 else u) rts).
Proof.
  rewrite reg_set_completed_map.
  induction 1 as [|e u reg rts [He [[E ->]|[E Hid]]] _ IH]; simpl; constructor; try done.
  - unfold set_entry. rewrite E, Nat.eqb_refl, He, has_id_string, Nat.eqb_refl. reflexivity.
  - unfold set_entry. rewrite (proj2 (Nat.eqb_neq _ _) E), has_id_string, (proj2 (Nat.eqb_neq _ _) Hid).
    exact He.
Qed.

Lemma view_remove reg rts nid t0 :
  Forall2 (paired nid t0) reg rts ->
  Forall2 (fun e t => e.2 = task_value t) (reg_remove nid reg)
    (List.filter (fun u => negb (has_id (id_string (tk_id t0)) u)) rts).
Proof.
  induction 1 as [|e u reg rts [He [[E ->]|[E Hid]]] _ IH]; simpl; [constructor| |].
  - rewrite E, Nat.eqb_refl, has_id_string, Nat.eqb_refl. exact IH.
  - rewrite (proj2 (Nat.eqb_neq _ _) E), has_id_string, (proj2 (Nat.eqb_neq _ _) Hid). by constructor.
Qed.

Lemma view_load n ts :
  Forall2 (fun e t => e.2 = task_value t) (reg_load n (map task_value ts)) ts.
Proof.
  unfold reg_load. rewrite length_map. revert n.
  induction ts as [|t ts IH]; intros n; simpl; constructor; [done|apply IH].
Qed.

Lemma view_snd (reg : registry) ts : Forall2 (fun e t => e.2 = task_value t) reg ts -> reg.*2 = map task_value ts.
Proof. induction 1; simpl; [done|]. by f_equal. Qed.

(** ** The resource keeps [server_ok]; the page's side of a round *)

Section Rounds.
Variable date_parse : string -> option Z.

Lemma server_ok_post sv c clock' ps :
  server_ok date_parse sv -> sv_clock sv = c :: clock' ->
  server_ok date_parse (create sv (new_task (sv_next_id sv) c ps) clock').
Proof.
  intros [Hids Hfresh Hkeys] Hc. unfold create. split; simpl.
  - rewrite map_app. apply NoDup_app. split; [done|]. split; [|apply NoDup_singleton].
    intros n Hn Hn'. apply list_elem_of_singleton in Hn' as ->.
    apply list_elem_of_In, in_map_iff in Hn as (t & Ht & Hin).
    rewrite List.Forall_forall in Hfresh. specialize (Hfresh t Hin). simpl in *. lia.
  - apply Forall_app. split; [|constructor; simpl; [lia|constructor]].
    eapply Forall_impl; [exact Hfresh|]. intros t Ht. simpl in *. lia.
  - rewrite map_app, <- app_assoc. rewrite Hc in Hkeys. exact Hkeys.
Qed.

Lemma toggle_fields sv t0 b u :
  server_ok date_parse sv -> In t0 (sv_tasks sv) -> In u (sv_tasks sv) ->
  let u' := if has_id (id_string (tk_id t0)) u then with_completed b t0 else u in
  tk_id u' = tk_id u /\ tk_created u' = tk_created u.
Proof.
  intros [Hids _ _] Ht0 Hu. simpl. rewrite has_id_string.
  destruct (Nat.eqb_spec (tk_id u) (tk_id t0)) as [E|]; [|done].
  by rewrite (NoDup_map_inj_in tk_id (sv_tasks sv) u t0).
Qed.

Lemma server_ok_put sv t0 b :
  server_ok date_parse sv -> In t0 (sv_tasks sv) ->
  server_ok date_parse
    (set_tasks (map (fun u => if has_id (id_string (tk_id t0)) u then with_completed b t0 else u)
                 (sv_tasks sv)) sv).
Proof.
  intros Hok Ht0. pose proof (fun u => toggle_fields sv t0 b u Hok Ht0) as Hf.
  destruct Hok as [Hids Hfresh Hkeys]. split; simpl; rewrite ?map_map.
  - erewrite map_ext_in; [exact Hids|]. intros u Hu. apply (Hf u Hu).
  - apply List.Forall_map. rewrite List.Forall_forall in Hfresh |- *. intros u Hu.
    rewrite (proj1 (Hf u Hu)). by apply Hfresh.
  - erewrite map_ext_in; [exact Hkeys|]. intros u Hu. apply (Hf u Hu).
Qed.

Lemma server_ok_delete sv id :
  server_ok date_parse sv ->
  server_ok date_parse (set_tasks (List.filter (fun u => negb (has_id id u)) (sv_tasks sv)) sv).
Proof.
  intros [Hids Hfresh Hkeys]. split; simpl.
  - by apply NoDup_map_filter.
  - by apply Forall_list_filter.
  - by apply StronglySorted_filter_app.
Qed.

Lemma answer_issue_ok path o pd p st text v :
  response_ok st = true ->
  answer date_parse (pg_next_req p) (Response st text (Done v)) (issue path o pd p) =
  resume date_parse pd (Done v) (emit [] (drop_pending (pg_next_req p) (issue path o pd p))).
Proof.
  intros Hok. unfold answer. simpl. rewrite lookup_insert_eq. simpl.
  unfold api_complete, api_result. by rewrite Hok.
Qed.

Lemma answer_issue_failed path o pd p st text j :
  response_ok st = false ->
  exists e fx, answer date_parse (pg_next_req p) (Response st text j) (issue path o pd p) =
  resume date_parse pd (Raised e) (emit fx (drop_pending (pg_next_req p) (issue path o pd p))).
Proof.
  intros Hok. unfold answer. simpl. rewrite lookup_insert_eq. simpl.
  unfold api_complete, api_result. rewrite Hok. by eexists _, _.
Qed.

(** The page between the request and its handler's resumption shows the
    rows it showed before the request. *)
Lemma registry_in_flight rid path o pd p fx :
  registry_of (emit fx (drop_pending rid (issue path o pd p))) = registry_of p.
Proof. by apply same_rows_registry. Qed.

Lemma registry_emit fx p : registry_of (emit fx p) = registry_of p.
Proof. by apply same_rows_registry. Qed.

Lemma row_task p sv nid nd :
  view_of p sv -> ChTask nid ∈ pg_children p -> pg_nodes p !! nid = Some nd ->
  (nid, nd_task nd) ∈ registry_of p /\ exists t0, In t0 (sv_tasks sv) /\ nd_task nd = task_value t0.
Proof.
  intros Hv Hin Hnd.
  assert ((nid, nd_task nd) ∈ registry_of p) as Hreg.
  { unfold registry_of. apply list_elem_of_omap. exists (ChTask nid). split; [done|]. simpl. by rewrite Hnd. }
  split; [done|]. apply list_elem_of_In in Hreg.
  destruct (Forall2_in_l _ _ _ _ Hv Hreg) as (t0 & Ht0 & E). exists t0. split; [|done].
  by apply in_rev.
Qed.

Lemma toggle_start_task p nid nd t0 :
  pg_nodes p !! nid = Some nd -> nd_task nd = task_value t0 ->
  toggle_start nid p =
  issue ("/" +++ id_string (tk_id t0)) (put_options (task_value (with_completed (negb (tk_completed t0)) t0)))
    (PToggle nid) p.
Proof. intros Hnd Ht. unfold toggle_start. rewrite Hnd, Ht. reflexivity. Qed.

Lemma delete_start_task p nid nd t0 b :
  pg_nodes p !! nid = Some nd -> nd_task nd = task_value t0 ->
  delete_start nid b p =
  if b then issue ("/" +++ id_string (tk_id t0)) delete_options (PDelete nid) (emit [EConfirm confirm_message b] p)
  else emit [EConfirm confirm_message b] p.
Proof. intros Hnd Ht. unfold delete_start. rewrite Hnd, Ht. by destruct b. Qed.

Lemma task_body path t :
  body_members (api_request path (put_options (task_value t))) = Some (task_members t).
Proof. by apply (body_members_jtext _ _ (task_value t)); [|apply task_value_normal|]. Qed.

Lemma pairing_view p sv nid t0 :
  wf_page p -> server_ok date_parse sv -> view_of p sv ->
  (nid, task_value t0) ∈ registry_of p -> Forall2 (paired nid t0) (registry_of p) (rev (sv_tasks sv)).
Proof.
  intros Hr Hso Hv Hin. apply pairing; [exact Hv| |by rewrite map_rev, <- Permutation_rev; apply (so_ids date_parse)|exact Hin].
  apply registry_nodup, wf_nodup, Hr.
Qed.

Lemma tasks_objects ts : Forall (fun v => is_nullish v = false) (map task_value ts).
Proof. apply List.Forall_map, List.Forall_forall. by intros t _. Qed.

Lemma tasks_sorted sv :
  server_ok date_parse sv ->
  js_sort (created_at_key date_parse) (map task_value (sv_tasks sv)) = map task_value (rev (sv_tasks sv)).
Proof.
  intros [_ _ Hkeys]. rewrite map_rev. apply js_sort_increasing, StronglySorted_map_2.
  apply StronglySorted_app_l in Hkeys. exact (StronglySorted_map _ _ _ Hkeys).
Qed.

(** ** Rounds *)

Lemma served_result pd a v : served pd a -> api_result a = Done v -> shaped pd v.
Proof.
  destruct a as [e|st text [w|e]]; simpl; [done| |by case_match].
  intros Hs. case_match; [by intros [= <-]|done].
Qed.

Lemma with_completed_self t : with_completed (tk_completed t) t = t.
Proof. by destruct t. Qed.

Lemma set_completed_task t b :
  set_prop (task_value t) "completed" (VBool b) = Done (task_value (with_completed b t)).
Proof. reflexivity. Qed.

Lemma update_task_toggle b t : update_task (task_members (with_completed b t)) t = with_completed b t.
Proof. reflexivity. Qed.

Lemma toggle_ids sv t0 b :
  server_ok date_parse sv -> In t0 (sv_tasks sv) ->
  map tk_id (map (fun u => if has_id (id_string (tk_id t0)) u then with_completed b t0 else u) (sv_tasks sv)) =
  map tk_id (sv_tasks sv).
Proof.
  intros Hok Ht0. rewrite map_map. apply map_ext_in. intros u Hu. apply (toggle_fields sv t0 b u Hok Ht0 Hu).
Qed.

Lemma consistent_same p p' sv : same_rows p p' -> consistent date_parse p sv -> consistent date_parse p' sv.
Proof.
  intros [Hc Hn] [Hso Hv Hnodes]. split; [done| |].
  - unfold view_of. by rewrite (same_rows_registry p p').
  - intros nid nd H. rewrite Hc. rewrite Hn in H. by apply Hnodes.
Qed.

Lemma resume_failed_rows pd e p : pd <> PLoad -> same_rows p (resume date_parse pd (Raised e) p).
Proof.
  intros Hpd. destruct pd as [| |nid|nid]; [done| | |]; cbn [resume]; try (split; reflexivity).
  unfold toggle_resume. destruct (pg_nodes p !! nid); split; reflexivity.
Qed.

(** A request the resource refuses changes nothing but the console. *)
Lemma round_failed pd path o p sv st text j :
  pd <> PLoad -> response_ok st = false -> consistent date_parse p sv ->
  consistent date_parse (answer date_parse (pg_next_req p) (Response st text j) (issue path o pd p)) sv.
Proof.
  intros Hpd Hst Hc. destruct (answer_issue_failed path o pd p st text j Hst) as (e & fx & ->).
  eapply consistent_same; [|exact Hc].
  destruct (resume_failed_rows pd e (emit fx (drop_pending (pg_next_req p) (issue path o pd p))) Hpd) as [H1 H2].
  split; [rewrite H1|rewrite H2]; reflexivity.
Qed.

Lemma nodes_ok_server sv sv' p :
  sv_next_id sv <= sv_next_id sv' ->
  (forall i, i ∈ map tk_id (sv_tasks sv') -> i ∈ map tk_id (sv_tasks sv) \/ sv_next_id sv <= i) ->
  nodes_ok sv p -> nodes_ok sv' p.
Proof.
  intros Hle Hids Hn nid nd H. destruct (Hn nid nd H) as (u & Hu & Hlt & Hgone).
  exists u. split; [done|]. split; [lia|]. intros Hr Hin.
  destruct (Hids _ Hin) as [Hin'|Hge]; [by apply (Hgone Hr)|lia].
Qed.

Lemma nodes_ok_add_resume sv p t :
  nodes_ok sv p -> tk_id t < sv_next_id sv -> nodes_ok sv (add_resume (Done (task_value t)) p).
Proof.
  intros Hn Ht. destruct (create_task_node_ok (task_value t)) as (nd & Hnd & Htask); [done|].
  unfold add_resume. rewrite bind_Done, Hnd. intros nid nd' H. simpl in H.
  destruct (decide (nid = pg_next_node p)) as [->|Hne].
  - rewrite lookup_insert_eq in H. injection H as <-. exists t. split; [done|]. split; [done|].
    intros Hr. exfalso. apply Hr. simpl. apply elem_of_cons. by left.
  - rewrite lookup_insert_ne in H by congruence. destruct (Hn nid nd' H) as (u & Hu & Hlt & Hg).
    exists u. split; [done|]. split; [done|]. intros Hr. apply Hg. intros Hin. apply Hr. simpl.
    apply elem_of_cons. by right.
Qed.

Lemma toggle_resume_task p nid nd t0 t :
  pg_nodes p !! nid = Some nd -> nd_task nd = task_value t0 ->
  exists nd', toggle_resume nid (Done (task_value t)) p = set_node nid nd' p /\
    nd_task nd' = task_value (with_completed (tk_completed t) t0).
Proof. intros Hnd Ht. unfold toggle_resume. rewrite Hnd, Ht. eexists. split; reflexivity. Qed.

Lemma nodes_ok_set_node sv p nid nd nd' u u' :
  nodes_ok sv p -> pg_nodes p !! nid = Some nd -> nd_task nd = task_value u ->
  nd_task nd' = task_value u' -> tk_id u' = tk_id u -> nodes_ok sv (set_node nid nd' p).
Proof.
  intros Hn Hnd Hu Hu' Hid m ndm H. simpl in H. destruct (decide (m = nid)) as [->|Hne].
  - rewrite lookup_insert_eq in H. injection H as <-. destruct (Hn nid nd Hnd) as (u0 & Hu0 & Hlt & Hg).
    rewrite Hu in Hu0. apply task_value_inj in Hu0 as <-. exists u'. by rewrite Hid.
  - rewrite lookup_insert_ne in H by congruence. by apply Hn.
Qed.

Lemma remove_child_in m nid cs : ChTask m ∈ cs -> m <> nid -> ChTask m ∈ remove_child nid cs.
Proof.
  intros H Hne. apply list_elem_of_In, filter_In. split; [by apply list_elem_of_In|].
  apply bool_decide_eq_true. congruence.
Qed.

Lemma nodes_ok_delete sv p nid nd t0 v :
  nodes_ok sv p -> pg_nodes p !! nid = Some nd -> nd_task nd = task_value t0 ->
  nodes_ok (set_tasks (List.filter (fun u => negb (has_id (id_string (tk_id t0)) u)) (sv_tasks sv)) sv)
    (delete_resume nid (Done v) p).
Proof.
  intros Hn Hnd Ht m ndm H. change (pg_nodes p !! m = Some ndm) in H.
  destruct (Hn m ndm H) as (u & Hu & Hlt & Hg).
  exists u. split; [done|]. split; [done|]. intros Hr Hin.
  apply list_elem_of_In, in_map_iff in Hin as (w & Hw & Hwin). apply filter_In in Hwin as [Hwin Hkeep].
  rewrite has_id_string in Hkeep. destruct (decide (m = nid)) as [->|Hne].
  - rewrite Hnd in H. injection H as <-. rewrite Ht in Hu. apply task_value_inj in Hu as <-.
    rewrite Hw, Nat.eqb_refl in Hkeep. discriminate.
  - apply Hg; [|apply list_elem_of_In, in_map_iff; eauto]. intros Hrow. apply Hr. unfold delete_resume. simpl.
    pose proof (remove_child_in m nid _ Hrow Hne) as Hin'.
    destruct (Nat.eqb_spec (length (remove_child nid (pg_children p))) 0) as [E|E]; [|exact Hin'].
    apply nil_length_inv in E. rewrite E in Hin'. by apply elem_of_nil in Hin'.
Qed.

Lemma render_all_fresh ts p k :
  (forall k, pg_next_node p <= k -> pg_nodes p !! k = None) ->
  pg_next_node (render_all ts p) <= k -> pg_nodes (render_all ts p) !! k = None.
Proof.
  revert p. induction ts as [|t ts IH]; intros p Hf; simpl; [apply Hf|].
  destruct (create_task_node t) as [nd|e]; [|apply Hf].
  apply IH. intros k' Hk'. simpl in *. rewrite lookup_insert_ne by lia. apply Hf. lia.
Qed.

(** addTask's round: the resource appends the task it creates and the
    page shows it first; with the clock exhausted the resource answers
    500 and nothing changes. *)
Lemma round_add p sv title :
  wf_page p -> consistent date_parse p sv -> round_ok date_parse PAdd "" (post_options title) p sv.
Proof.
  intros Hwf Hc. pose proof Hc as [Hso Hv Hn].
  assert (body_members (api_request "" (post_options title)) =
          Some [("title", VStr title); ("completed", VBool false)]%string) as Hbody.
  { apply (body_members_jtext _ _ (VObj [("title", VStr title); ("completed", VBool false)]%string));
      [|simpl; tauto|reflexivity].
    unfold post_options. cbn [opt_body]. by rewrite stringify_post, stringify_post_jtext. }
  unfold round_ok. rewrite (serve_post sv (post_options title) _ eq_refl Hbody).
  destruct (sv_clock sv) as [|c clock'] eqn:Hclock; cbn [fst snd].
  - unfold reply. rewrite res_json_server_error. split; [done|]. by apply round_failed.
  - set (t := new_task (sv_next_id sv) c [("title", VStr title); ("completed", VBool false)]%string).
    rewrite reply_json_task, answer_issue_ok by reflexivity. split; [by exists t|]. cbn [resume].
    split; [by apply server_ok_post|..].
    + destruct (create_task_node_ok (task_value t)) as (nd & Hnd & Ht); [done|].
      unfold view_of. rewrite registry_add_resume with (nd := nd);
        [|exact (wf_rows_below p Hwf)|done].
      rewrite Ht.
      rewrite registry_in_flight. unfold create. simpl. rewrite rev_unit. by constructor.
    + apply nodes_ok_add_resume; [|simpl; lia].
      apply (nodes_ok_server sv); [simpl; lia| |exact Hn].
      intros i. simpl. rewrite map_app. intros [Hi|Hi]%elem_of_app; [by left|].
      apply list_elem_of_singleton in Hi as ->. right. done.
Qed.

(** A node of the heap is a row whose task the resource has, or holds a
    task the resource no longer has. *)
Lemma node_cases p sv nid nd t0 :
  consistent date_parse p sv -> pg_nodes p !! nid = Some nd -> nd_task nd = task_value t0 ->
  (ChTask nid ∈ pg_children p /\ In t0 (sv_tasks sv) /\ (nid, task_value t0) ∈ registry_of p) \/
  tk_id t0 ∉ map tk_id (sv_tasks sv).
Proof.
  intros [Hso Hv Hn] Hnd Ht. destruct (decide (ChTask nid ∈ pg_children p)) as [Hin|Hout].
  - left. destruct (row_task p sv nid nd Hv Hin Hnd) as (Hreg & t1 & Ht1 & E).
    rewrite Ht in E, Hreg. apply task_value_inj in E as ->. done.
  - right. destruct (Hn nid nd Hnd) as (u & Hu & _ & Hg). rewrite Ht in Hu.
    apply task_value_inj in Hu as <-. by apply Hg.
Qed.

(** The request for a task the resource no longer has is answered 404. *)
Lemma round_gone pd p sv o t0 :
  pd <> PLoad -> consistent date_parse p sv -> tk_id t0 ∉ map tk_id (sv_tasks sv) ->
  round_ok date_parse pd ("/" +++ id_string (tk_id t0)) o p sv.
Proof.
  intros Hpd Hc Hgone. unfold round_ok. rewrite (serve_not_found sv o _ (find_task_none _ _ Hgone)).
  cbn [fst snd]. unfold reply. rewrite res_json_not_found. split; [done|]. by apply round_failed.
Qed.

(** toggleTask's round, whatever [completed] the body carries: the
    resource stores it and the page adopts it. *)
Lemma round_toggle p sv nid nd t0 b :
  wf_page p -> consistent date_parse p sv -> pg_nodes p !! nid = Some nd -> nd_task nd = task_value t0 ->
  round_ok date_parse (PToggle nid) ("/" +++ id_string (tk_id t0)) (put_options (task_value (with_completed b t0)))
    p sv.
Proof.
  intros Hwf Hc Hnd Ht. destruct (node_cases p sv nid nd t0 Hc Hnd Ht) as [(Hin & Ht0 & Hreg)|Hgone];
    [|by apply round_gone].
  pose proof Hc as [Hso Hv Hn]. pose proof (find_task _ _ (so_ids _ _ Hso) Ht0) as Hfind.
  unfold round_ok. rewrite (serve_put sv (put_options (task_value (with_completed b t0))) _ t0 _ eq_refl Hfind
    (task_body _ (with_completed b t0))).
  rewrite update_task_toggle. cbn [fst snd]. rewrite reply_json_task, answer_issue_ok by reflexivity.
  split; [by eexists|]. cbn [resume]. split; [by apply server_ok_put|..].
  - unfold view_of. rewrite registry_toggle_resume with (c := VBool b) by reflexivity.
    unfold set_tasks. cbn [sv_tasks]. rewrite registry_in_flight, <- map_rev.
    by apply view_toggle, pairing_view.
  - match goal with |- context [toggle_resume nid (Done _) ?q] =>
      destruct (toggle_resume_task q nid nd t0 (with_completed b t0) Hnd Ht) as (nd' & -> & Hnd') end.
    apply (nodes_ok_set_node _ _ nid nd nd' t0 (with_completed b t0)); [|done|done|done|done].
    apply (nodes_ok_server sv); [done| |exact Hn]. intros i. unfold set_tasks. cbn [sv_tasks].
    rewrite toggle_ids by done. by left.
Qed.

(** deleteTask's round: the resource and the page drop the same task. *)
Lemma round_delete p sv nid nd t0 :
  wf_page p -> consistent date_parse p sv -> pg_nodes p !! nid = Some nd -> nd_task nd = task_value t0 ->
  round_ok date_parse (PDelete nid) ("/" +++ id_string (tk_id t0)) delete_options p sv.
Proof.
  intros Hwf Hc Hnd Ht. destruct (node_cases p sv nid nd t0 Hc Hnd Ht) as [(Hin & Ht0 & Hreg)|Hgone];
    [|by apply round_gone].
  pose proof Hc as [Hso Hv Hn]. pose proof (find_task _ _ (so_ids _ _ Hso) Ht0) as Hfind.
  unfold round_ok. rewrite (serve_delete sv delete_options _ t0 eq_refl Hfind). cbn [fst snd].
  rewrite reply_json_task, answer_issue_ok by reflexivity. split; [by eexists|]. cbn [resume].
  split; [by apply server_ok_delete|..].
  - unfold view_of, set_tasks. cbn [sv_tasks].
    rewrite registry_delete_resume, registry_in_flight, <- filter_rev.
    by apply view_remove, pairing_view.
  - by apply (nodes_ok_delete sv _ nid nd t0).
Qed.

(** loadTasks' round at start-up: the page shows the collection, newest
    first, and every node it creates is a row. *)
Lemma round_load sv :
  server_ok date_parse sv ->
  round_ok date_parse PLoad "" no_options (set_children (show_placeholder PhLoading) init_page) sv.
Proof.
  intros Hso. unfold round_ok. rewrite serve_get. cbn [fst snd].
  rewrite reply_json_tasks, answer_issue_ok by reflexivity. split; [by eexists|]. cbn [resume].
  unfold load_resume. cbn [length]. rewrite length_map.
  destruct (Nat.eqb_spec (length (sv_tasks sv)) 0) as [E|E].
  { apply nil_length_inv in E. split; [done| |].
    - unfold view_of. rewrite E. constructor.
    - intros nid nd H. simpl in H. by rewrite lookup_empty in H. }
  rewrite sort_tasks_objects by apply tasks_objects. rewrite tasks_sorted by done.
  set (q := set_children [] _).
  destruct (render_all_spec (map task_value (rev (sv_tasks sv))) q (tasks_objects _))
    as (Hch & Hnext & _ & Hmap & _).
  rewrite length_map, length_rev in Hch, Hnext, Hmap. split; [done| |].
  - unfold view_of. rewrite registry_render_all by (intros n Hn; by apply elem_of_nil in Hn).
    rewrite (proj2 (forallb_forall _ _)); [apply view_load|].
    intros v Hv. apply list_elem_of_In in Hv. pose proof (tasks_objects (rev (sv_tasks sv))) as Ho.
    rewrite Forall_forall in Ho. by rewrite (Ho v Hv).
  - intros nid nd H.
    assert (nid ∈ seq 0 (length (sv_tasks sv))) as Hseq.
    { apply elem_of_seq. split; [lia|]. destruct (decide (nid < length (sv_tasks sv))); [done|].
      rewrite (render_all_fresh _ q nid) in H; [discriminate| |].
      - intros k _. apply lookup_empty.
      - rewrite Hnext. simpl. lia. }
    assert (Some (nd_task nd) ∈ map Some (map task_value (rev (sv_tasks sv)))) as Hs.
    { rewrite <- Hmap. apply list_elem_of_fmap. exists nid. by rewrite H. }
    apply list_elem_of_fmap in Hs as (v & [= ->] & Hs). apply list_elem_of_fmap in Hs as (u & -> & Hu).
    exists u. split; [done|]. split.
    + pose proof (so_fresh _ _ Hso) as Hf. rewrite List.Forall_forall in Hf. apply Hf.
      apply in_rev, list_elem_of_In, Hu.
    + intros Hr. exfalso. apply Hr. rewrite Hch. apply elem_of_app. right.
      apply list_elem_of_fmap. by exists nid.
Qed.

End Rounds.

End Consistency.
