(* ===== verification/Sync.v ===== *)
(** * The client against the resource: synchronous sessions

  [Server] models the MockAPI collection, and [Consistency] follows one
  request round through page and resource.  This file composes the two
  for synchronous sessions.  The user acts only when no request is in
  flight, and the resource answers the request the page sends before
  the next event.  [sync_event] dispatches a user event and, if the page
  sent a request, lets [serve] answer it ([serve_last]).  Requests travel
  as the text [JSON.stringify] writes, and the resource reads them with
  [JSON.parse].  Answers travel back as text that [res.json()] reads.

  The theorem of the file is the consistency of the DOM-as-state-store
  with the remote collection.  After start-up and any sequence of user
  events, the rows show exactly the resource's tasks, newest first, as
  the objects the resource sends.  Each step is one of the round lemmas
  of [Consistency], which keep [consistent]; the resource starts with
  [server_ok].  [Fifo] lifts this to sessions where the user acts while
  requests are in flight over an in-order network.  [Race] and
  [Session.load_answer_drops_rows] show what goes wrong without that
  order. *)

From S2P Require Import Prelude JsString JsValue Json JsonParse Dates Sort IsoDate Transport Server View Handlers Session Refinement Progress Requests Consistency.
From stdpp Require Import gmap.
Local Open Scope todo_scope.

Module Sync.
Import JsString JsValue Json JsonParse Dates Sort IsoDate Transport Server View Handlers Session Refinement Progress Requests Consistency.

Section Sync.
Variable date_parse : string -> option Z.

Definition system : Type := page * server.

(** The request the page sent last, while it is in flight, reaches the
    resource, and the resource's answer settles it. *)
Definition serve_last (s : system) : system :=
  let '(p, sv) := s in
  match last (pg_log p) with
  | Some (EFetch rid rq) =>
      if bool_decide (is_Some (pg_pending p !! rid)) then
        let '(sv', a) := serve sv rq in (answer date_parse rid a p, sv')
      else s
  | _ => s
  end.

(** A user event, and the resource answering the request it sent. *)
Definition sync_event (ev : event) (s : system) : system :=
  if enabled ev s.1 then serve_last (dispatch date_parse ev s.1, s.2) else s.

(** Start-up: the page loads the collection from the resource. *)
Definition sync_start (sv : server) : system := serve_last (startup init_page, sv).

Fixpoint sync_run (evs : list event) (s : system) : system :=
  match evs with
  | [] => s
  | ev :: evs' => sync_run evs' (sync_event ev s)
  end.

Definition sync_ok (s : system) : Prop :=
  reachable date_parse s.1 /\ pg_pending s.1 = ∅ /\ consistent date_parse s.1 s.2.

End Sync.

(** A resource with no task yet whose clock reads three mornings of
    March 2024 (UTC), and a session: add two tasks (by click and by
    Enter), toggle the first, delete the second, try a blank title. *)
Definition clock_march : list string :=
  ["2024-03-01T09:00:00.000Z"; "2024-03-02T09:00:00.000Z"; "2024-03-03T09:00:00.000Z"]%string.

Definition empty_resource : server := {| sv_tasks := []; sv_next_id := 1; sv_clock := clock_march |}.

Definition sample_session : list event :=
  [EvType "milk"; EvClickAdd; EvType "eggs"; EvKeyDown "Enter"; EvClickToggle 0;
   EvClickDelete 1 true; EvType "  "; EvClickAdd]%string.

(** ** The page's side of a round *)

Section Proofs.
Variable date_parse : string -> option Z.

Lemma serve_last_idle p sv : pg_pending p = ∅ -> serve_last date_parse (p, sv) = (p, sv).
Proof.
  intros H. unfold serve_last. destruct (last (pg_log p)) as [[]|]; try done.
  rewrite H, lookup_empty, bool_decide_false; [done|]. by intros [].
Qed.

Lemma serve_last_issue path o pd p sv :
  pg_pending p = ∅ ->
  serve_last date_parse (issue path o pd p, sv) =
  (answer date_parse (pg_next_req p) (serve sv (api_request path o)).2 (issue path o pd p),
   (serve sv (api_request path o)).1).
Proof.
  intros H. unfold serve_last. simpl. rewrite last_snoc, lookup_insert_eq, bool_decide_true by done.
  by destruct (serve sv (api_request path o)).
Qed.

Lemma issue_answer_pending path o pd p a :
  pg_pending p = ∅ -> pg_pending (answer date_parse (pg_next_req p) a (issue path o pd p)) = ∅.
Proof.
  intros H. rewrite answer_pending by (simpl; rewrite lookup_insert_eq; by eexists).
  simpl. by rewrite H, delete_insert_eq, delete_empty.
Qed.

Lemma issue_answer_step path o pd p a :
  step date_parse (issue path o pd p) (answer date_parse (pg_next_req p) a (issue path o pd p)).
Proof. constructor. simpl. rewrite lookup_insert_eq. by eexists. Qed.

End Proofs.

(** ** One synchronous event keeps the page consistent with the resource *)

Section Steps.
Variable date_parse : string -> option Z.

Lemma sync_idle p p' sv :
  sync_ok date_parse (p, sv) -> step date_parse p p' -> pg_pending p' = ∅ ->
  same_rows p p' -> sync_ok date_parse (serve_last date_parse (p', sv)).
Proof.
  intros (Hr & _ & Hc) Hst Hp Hsame. rewrite serve_last_idle by done.
  split; [by econstructor|]. split; [done|]. by apply (consistent_same date_parse p).
Qed.

Lemma sync_round p0 path o pd sv :
  reachable date_parse (issue path o pd p0) -> pg_pending p0 = ∅ -> round_ok date_parse pd path o p0 sv ->
  sync_ok date_parse (serve_last date_parse (issue path o pd p0, sv)).
Proof.
  intros Hr Hp [_ Hc]. rewrite serve_last_issue by done. split; [|split]; simpl.
  - eapply reach_step; [exact Hr|apply issue_answer_step].
  - by apply issue_answer_pending.
  - exact Hc.
Qed.

Lemma sync_toggle p sv nid :
  sync_ok date_parse (p, sv) -> ChTask nid ∈ pg_children p ->
  sync_ok date_parse (serve_last date_parse (toggle_start nid p, sv)).
Proof.
  intros (Hr & Hp & Hc) Hin. pose proof (wf_reachable date_parse p Hr) as Hwf.
  assert (Hst : step date_parse p (toggle_start nid p)) by (by constructor).
  destruct (wf_rows p Hwf nid Hin) as [nd Hnd].
  destruct (row_task p sv nid nd (cs_view _ _ _ Hc) Hin Hnd) as (_ & t0 & _ & Ht).
  rewrite (toggle_start_task p nid nd t0 Hnd Ht) in Hst |- *.
  apply (sync_round p); [by eapply reach_step|done|]. by apply (round_toggle date_parse p sv nid nd).
Qed.

Lemma sync_delete p sv nid b :
  sync_ok date_parse (p, sv) -> ChTask nid ∈ pg_children p ->
  sync_ok date_parse (serve_last date_parse (delete_start nid b p, sv)).
Proof.
  intros Hs Hin. pose proof Hs as (Hr & Hp & Hc). pose proof (wf_reachable date_parse p Hr) as Hwf.
  assert (Hst : step date_parse p (delete_start nid b p)) by (by constructor).
  destruct (wf_rows p Hwf nid Hin) as [nd Hnd].
  destruct (row_task p sv nid nd (cs_view _ _ _ Hc) Hin Hnd) as (_ & t0 & _ & Ht).
  rewrite (delete_start_task p nid nd t0 b Hnd Ht) in Hst |- *.
  destruct b; [|by apply (sync_idle p); [| |done|split]].
  apply (sync_round (emit _ p)); [by eapply reach_step|done|].
  apply (round_delete date_parse _ sv nid nd); [by apply wf_emit|by apply (consistent_same date_parse p)|done|done].
Qed.

Lemma sync_add_start p sv :
  sync_ok date_parse (p, sv) -> sync_ok date_parse (serve_last date_parse (add_start p, sv)).
Proof.
  intros Hs. assert (Hst : step date_parse p (add_start p)) by constructor.
  destruct Hs as (Hr & Hp & Hc).
  unfold add_start in Hst |- *. destruct (String.eqb _ _).
  - by apply (sync_idle p); [|done|done|split].
  - apply (sync_round p); [by eapply reach_step|done|]. by apply round_add; [apply (wf_reachable date_parse)|].
Qed.

Lemma sync_event_ok ev s : sync_ok date_parse s -> sync_ok date_parse (sync_event date_parse ev s).
Proof.
  destruct s as [p sv]. intros Hs. unfold sync_event. simpl.
  destruct (enabled ev p) eqn:Hen; [|exact Hs].
  destruct ev as [s'| |key|nid|nid b|rid a]; cbn [enabled] in Hen; cbn [dispatch fst snd].
  - apply (sync_idle p); [done|constructor|exact (proj1 (proj2 Hs))|by split].
  - by apply sync_add_start.
  - unfold keydown. destruct (String.eqb key "Enter"); [by apply sync_add_start|].
    apply (sync_idle p); [done| |exact (proj1 (proj2 Hs))|by split].
    apply (step_keydown date_parse "" p).
  - apply bool_decide_eq_true in Hen. by apply sync_toggle.
  - apply bool_decide_eq_true in Hen. by apply sync_delete.
  - apply bool_decide_eq_true in Hen. destruct Hs as (_ & Hp & _). simpl in Hp.
    rewrite Hp, lookup_empty in Hen. by destruct Hen.
Qed.

Lemma sync_start_ok sv : server_ok date_parse sv -> sync_ok date_parse (sync_start date_parse sv).
Proof.
  intros Hso. unfold sync_start.
  change (startup init_page) with (issue "" no_options PLoad (set_children (show_placeholder PhLoading) init_page)).
  apply sync_round; [apply reach_start|done|]. by apply round_load.
Qed.

Lemma sync_run_ok evs s : sync_ok date_parse s -> sync_ok date_parse (sync_run date_parse evs s).
Proof. revert s. induction evs as [|ev evs IH]; intros s Hs; simpl; [done|]. by apply IH, sync_event_ok. Qed.

End Steps.

(** C29: composition.  Against the MockAPI resource of spec section 6,
    in a synchronous session (the resource answers each request before
    the next user event), after start-up and any sequence of user events
    the page is a reachable page with no request in flight, and its rows
    show exactly the resource's tasks, newest first, as the objects the
    resource sends: the DOM used as the state store agrees with the
    remote collection, request bodies and answers going through
    [JSON.stringify] and [JSON.parse]. *)
Theorem sync_view_matches_server date_parse sv evs :
  server_ok date_parse sv ->
  reachable date_parse (sync_run date_parse evs (sync_start date_parse sv)).1 /\
  pg_pending (sync_run date_parse evs (sync_start date_parse sv)).1 = ∅ /\
  (registry_of (sync_run date_parse evs (sync_start date_parse sv)).1).*2 =
    rev (map task_value (sv_tasks (sync_run date_parse evs (sync_start date_parse sv)).2)).
Proof.
  intros Hso. destruct (sync_run_ok date_parse evs _ (sync_start_ok date_parse sv Hso)) as (Hr & Hp & [_ Hv _]).
  split; [done|]. split; [done|]. rewrite <- map_rev. by apply view_snd.
Qed.

Example sample_session_view :
  (registry_of (sync_run (js_date_parse utc_only no_fallback) sample_session
     (sync_start (js_date_parse utc_only no_fallback) empty_resource)).1).*2 =
  [task_value {| tk_id := 1; tk_title := "milk"; tk_completed := true;
                 tk_created := "2024-03-01T09:00:00.000Z" |}]%string.
Proof. vm_compute. reflexivity. Qed.

Lemma sync_view_matches_server_witness :
  server_ok (js_date_parse utc_only no_fallback) empty_resource /\
  (registry_of (sync_run (js_date_parse utc_only no_fallback) sample_session
     (sync_start (js_date_parse utc_only no_fallback) empty_resource)).1).*2 =
  rev (map task_value (sv_tasks (sync_run (js_date_parse utc_only no_fallback) sample_session
     (sync_start (js_date_parse utc_only no_fallback) empty_resource)).2)).
Proof.
  assert (server_ok (js_date_parse utc_only no_fallback) empty_resource) as Hok
    by (split; simpl; repeat constructor).
  split; [exact Hok|].
  exact (proj2 (proj2 (sync_view_matches_server _ empty_resource sample_session Hok))).
Defined.

End Sync.
