(* ===== verification/Fifo.v ===== *)
(** * The client against the resource over a reliable, in-order network

  Section 5 of the specification: each handler suspends at its request
  and resumes on the answer, and the user may act in between.  This file
  lets the user act while requests are in flight.  The network is
  reliable and keeps order: requests reach the resource in the order the
  page sends them, and their answers reach the page in that order.  The
  resource has no other client, so serving a request when it is sent
  gives the same states and answers as serving it on arrival: [send]
  serves it at once and queues the answer ([nt_queue]).  A step
  ([fifo_step]) is a user event on the page the user sees, or the
  delivery of the first queued answer.

  The page the user sees lags behind the resource.  [settled] is the page
  after every queued answer is delivered ([flush]).  The theorem of the
  file is that [settled] stays [consistent] with the resource in every
  reachable state.  So once every answer has arrived, the rows are
  exactly the resource's tasks, newest first.  The proof rests on two
  facts.
  - User events change only the input, the log and the requests in
    flight; answers read only the rows, the node heap and the request
    they answer.  So a user event commutes with the answers in flight
    ([flush_frame]).
  - A click acts on a node whose task object is stale only in its
    [completed] field ([flush_nodes]).  The round lemmas of
    [Consistency] take any such node.

  Reordering breaks this ([Race]). *)

From S2P Require Import Prelude JsString JsValue Json JsonParse Dates Sort IsoDate Transport Server View Handlers Session Refinement Progress Requests Consistency Sync.
From stdpp Require Import gmap.
Local Open Scope todo_scope.

Module Fifo.
Import JsString JsValue Json JsonParse Dates Sort IsoDate Transport Server View Handlers Session Refinement Progress Requests Consistency Sync.

(** The page the user sees, the resource, and the answers on their way
    back, first to arrive first. *)
Record net := {
  nt_page : page;
  nt_server : server;
  nt_queue : list (nat * fetch_answer)
}.

(** The request a user event sent, if it sent one: [fetch] was called
    when the request counter moved, and the request is the last entry of
    the log. *)
Definition posted (p p' : page) : option (nat * request) :=
  if pg_next_req p <? pg_next_req p' then
    match last (pg_log p') with Some (EFetch rid rq) => Some (rid, rq) | _ => None end
  else None.

(** The resource serves the request the page sent and the answer joins
    the end of the queue. *)
Definition send (p p' : page) (sv : server) (q : list (nat * fetch_answer)) : net :=
  match posted p p' with
  | Some (rid, rq) =>
      {| nt_page := p'; nt_server := (serve sv rq).1; nt_queue := q ++ [(rid, (serve sv rq).2)] |}
  | None => {| nt_page := p'; nt_server := sv; nt_queue := q |}
  end.

Definition user_event (ev : event) : bool := match ev with EvAnswer _ _ => false | _ => true end.

Section Fifo.
Variable date_parse : string -> option Z.

Definition net_user (ev : event) (s : net) : net :=
  send (nt_page s) (dispatch date_parse ev (nt_page s)) (nt_server s) (nt_queue s).

Definition net_deliver (s : net) : net :=
  match nt_queue s with
  | (rid, a) :: q => {| nt_page := answer date_parse rid a (nt_page s); nt_server := nt_server s; nt_queue := q |}
  | [] => s
  end.

(** Start-up sends the load. *)
Definition net_start (sv : server) : net := send init_page (startup init_page) sv [].

Inductive fifo_step : net -> net -> Prop :=
| fifo_user ev s : user_event ev = true -> enabled ev (nt_page s) = true -> fifo_step s (net_user ev s)
| fifo_deliver s : nt_queue s <> [] -> fifo_step s (net_deliver s).

Inductive fifo_reachable : net -> Prop :=
| fifo_start sv : server_ok date_parse sv -> fifo_reachable (net_start sv)
| fifo_next s s' : fifo_reachable s -> fifo_step s s' -> fifo_reachable s'.

(** The page once the queued answers are delivered, in order. *)
Fixpoint flush (q : list (nat * fetch_answer)) (p : page) : page :=
  match q with
  | [] => p
  | (rid, a) :: q' => flush q' (answer date_parse rid a p)
  end.

Definition settled (s : net) : page := flush (nt_queue s) (nt_page s).

(** Every queued answer is for a request in flight, is one the resource
    serves to such a request, and comes once. *)
Definition queue_ok (p : page) (q : list (nat * fetch_answer)) : Prop :=
  NoDup q.*1 /\ (forall rid, is_Some (pg_pending p !! rid) <-> rid ∈ q.*1) /\
  Forall (fun x => exists pd, pg_pending p !! x.1 = Some pd /\ served pd x.2) q.

(** Every node holds a task object of the resource's shape. *)
Definition tasks_ok (p : page) : Prop :=
  forall nid nd, pg_nodes p !! nid = Some nd -> exists u, nd_task nd = task_value u.

Record fifo_ok (s : net) : Prop := {
  fo_reach : reachable date_parse (nt_page s);
  fo_queue : queue_ok (nt_page s) (nt_queue s);
  fo_tasks : tasks_ok (nt_page s);
  fo_settled : consistent date_parse (settled s) (nt_server s)
}.

(** A run of the system: [None] delivers the first queued answer,
    [Some ev] is a user event, skipped when it cannot happen. *)
Fixpoint fifo_run (evs : list (option event)) (s : net) : net :=
  match evs with
  | [] => s
  | None :: evs' => fifo_run evs' (net_deliver s)
  | Some ev :: evs' => fifo_run evs' (if user_event ev && enabled ev (nt_page s) then net_user ev s else s)
  end.

End Fifo.

(** Add two tasks; once their answers are in, click the first one's
    toggle twice and confirm the deletion of the second, all before any
    answer arrives. *)
Definition fifo_session : list (option event) :=
  [Some (EvType "milk"); Some EvClickAdd; Some (EvType "eggs"); Some (EvKeyDown "Enter");
   None; None; None;
   Some (EvClickToggle 0); Some (EvClickToggle 0); Some (EvClickDelete 1 true)]%string.

(** Rows, nodes and the node counter: what an answer reads of a page
    besides the request it answers. *)
Definition same_state (p1 p2 : page) : Prop :=
  same_rows p1 p2 /\ pg_next_node p1 = pg_next_node p2.

Ltac frame_tac := repeat split; simpl; congruence.

(** ** Answers commute with user events *)

Section Frame.
Variable date_parse : string -> option Z.

Lemma same_state_sym p1 p2 : same_state p1 p2 -> same_state p2 p1.
Proof. intros [[Hc Hn] Hnn]. frame_tac. Qed.

Lemma same_state_trans p1 p2 p3 : same_state p1 p2 -> same_state p2 p3 -> same_state p1 p3.
Proof. intros [[Hc Hn] Hnn] [[Hc' Hn'] Hnn']. frame_tac. Qed.

Lemma render_all_frame ts p1 p2 :
  same_state p1 p2 -> same_state (render_all ts p1) (render_all ts p2).
Proof.
  revert p1 p2. induction ts as [|t ts IH]; intros p1 p2 Hs; simpl; [done|].
  destruct Hs as [[Hc Hn] Hnn]. destruct (create_task_node t) as [nd|e]; [|frame_tac].
  apply IH. frame_tac.
Qed.

Lemma resume_frame pd r p1 p2 :
  same_state p1 p2 -> same_state (resume date_parse pd r p1) (resume date_parse pd r p2).
Proof.
  intros Hs. pose proof Hs as [[Hc Hn] Hnn]. destruct pd as [| |nid|nid]; cbn [resume].
  - unfold load_resume. destruct r as [[| | | | |ts|]|e]; try frame_tac.
    case_match; [frame_tac|]. case_match; [|frame_tac]. apply render_all_frame. frame_tac.
  - unfold add_resume. destruct (r ≫= create_task_node); frame_tac.
  - unfold toggle_resume. rewrite Hn. destruct (pg_nodes p1 !! nid); [|exact Hs].
    case_match; [|frame_tac]. match goal with a : value * value |- _ => destruct a end. frame_tac.
  - unfold delete_resume. destruct r; [rewrite Hc|]; frame_tac.
Qed.

Lemma answer_frame rid a p1 p2 :
  same_state p1 p2 -> pg_pending p1 !! rid = pg_pending p2 !! rid ->
  same_state (answer date_parse rid a p1) (answer date_parse rid a p2).
Proof.
  intros Hs Hp. unfold answer. rewrite Hp. destruct (pg_pending p2 !! rid) as [pd|]; [|done].
  destruct (tr_complete a) as [r fx]. apply resume_frame. destruct Hs as [[Hc Hn] Hnn]. frame_tac.
Qed.

Lemma answer_pending_all rid a p : pg_pending (answer date_parse rid a p) = delete rid (pg_pending p).
Proof.
  destruct (pg_pending p !! rid) as [pd|] eqn:E.
  - apply answer_pending. by eexists.
  - unfold answer. rewrite E. by rewrite delete_id.
Qed.

Lemma flush_frame q p1 p2 :
  same_state p1 p2 -> (forall x, x ∈ q -> pg_pending p1 !! x.1 = pg_pending p2 !! x.1) ->
  same_state (flush date_parse q p1) (flush date_parse q p2).
Proof.
  revert p1 p2. induction q as [|[rid a] q IH]; intros p1 p2 Hs Hp; simpl; [done|].
  apply IH.
  - apply answer_frame; [done|]. apply (Hp (rid, a)). by left.
  - intros x Hx. rewrite !answer_pending_all. destruct (decide (x.1 = rid)) as [->|Hne].
    + by rewrite !lookup_delete_eq.
    + rewrite !lookup_delete_ne by congruence. apply Hp. by right.
Qed.

End Frame.

(** ** Delivering the queue *)

Section Flush.
Variable date_parse : string -> option Z.

Lemma flush_app q x p : flush date_parse (q ++ [x]) p = answer date_parse x.1 x.2 (flush date_parse q p).
Proof. revert p. induction q as [|[rid a] q IH]; intros p; simpl; [by destruct x|apply IH]. Qed.

Lemma flush_pending_notin q p rid :
  rid ∉ q.*1 -> pg_pending (flush date_parse q p) !! rid = pg_pending p !! rid.
Proof.
  revert p. induction q as [|[r a] q IH]; intros p Hn; simpl in *; [done|].
  rewrite IH by (intros H; apply Hn, elem_of_cons; by right).
  rewrite answer_pending_all, lookup_delete_ne; [done|]. intros ->. apply Hn, elem_of_cons. by left.
Qed.

Lemma flush_pending_in q p rid : rid ∈ q.*1 -> pg_pending (flush date_parse q p) !! rid = None.
Proof.
  revert p. induction q as [|[r a] q IH]; intros p Hin; simpl in *; [by apply elem_of_nil in Hin|].
  destruct (decide (rid ∈ q.*1)) as [Hq|Hq]; [by apply IH|].
  apply elem_of_cons in Hin as [->|Hin]; [|done].
  rewrite flush_pending_notin by done. rewrite answer_pending_all. apply lookup_delete_eq.
Qed.

Lemma resume_next_req pd r p : pg_next_req (resume date_parse pd r p) = pg_next_req p.
Proof.
  destruct pd; simpl; unfold load_resume, add_resume, toggle_resume, delete_resume;
    repeat case_match; unfold alloc_node in *; simplify_eq/=; rewrite ?render_all_next_req; done.
Qed.

Lemma flush_next_req q p : pg_next_req (flush date_parse q p) = pg_next_req p.
Proof.
  revert p. induction q as [|[rid a] q IH]; intros p; simpl; [done|]. rewrite IH.
  unfold answer. destruct (pg_pending p !! rid); [|done]. destruct (tr_complete a).
  by rewrite resume_next_req.
Qed.

Lemma answer_reachable rid a p : reachable date_parse p -> reachable date_parse (answer date_parse rid a p).
Proof.
  intros Hr. destruct (pg_pending p !! rid) eqn:E.
  - eapply reach_step; [exact Hr|]. constructor. by eexists.
  - unfold answer. by rewrite E.
Qed.

Lemma flush_reachable q p : reachable date_parse p -> reachable date_parse (flush date_parse q p).
Proof.
  revert p. induction q as [|[rid a] q IH]; intros p Hr; simpl; [done|]. by apply IH, answer_reachable.
Qed.

(** Answers never drop a node from the heap, and change the task of an
    existing one only in its [completed] field. *)
Lemma render_all_old ts p n : n < pg_next_node p -> pg_nodes (render_all ts p) !! n = pg_nodes p !! n.
Proof.
  revert p. induction ts as [|t ts IH]; intros p Hn; simpl; [done|].
  destruct (create_task_node t); [|done]. rewrite IH by (simpl; lia). simpl.
  by rewrite lookup_insert_ne by lia.
Qed.

Lemma resume_nodes pd r p nid nd u :
  (forall v, r = Done v -> shaped pd v) -> nid < pg_next_node p ->
  pg_nodes p !! nid = Some nd -> nd_task nd = task_value u ->
  exists nd' c, pg_nodes (resume date_parse pd r p) !! nid = Some nd' /\
    nd_task nd' = task_value (with_completed c u).
Proof.
  intros Hr Hlt Hnd Ht.
  assert (Hkeep : forall p', pg_nodes p' !! nid = pg_nodes p !! nid ->
    exists nd' c, pg_nodes p' !! nid = Some nd' /\ nd_task nd' = task_value (with_completed c u))
    by (intros p' ->; exists nd, (tk_completed u); by rewrite with_completed_self).
  destruct pd as [| |nid'|nid']; cbn [resume].
  - apply Hkeep. unfold load_resume. repeat case_match; try reflexivity. by rewrite render_all_old.
  - apply Hkeep. unfold add_resume. case_match; simpl; [|done]. by rewrite lookup_insert_ne by lia.
  - destruct (decide (nid' = nid)) as [->|Hne].
    + destruct r as [v|e].
      * destruct (Hr v eq_refl) as [t ->].
        destruct (toggle_resume_task p nid nd u t Hnd Ht) as (nd' & -> & Hnd').
        exists nd', (tk_completed t). split; [|done]. simpl. by rewrite lookup_insert_eq.
      * apply Hkeep. unfold toggle_resume. by rewrite Hnd.
    + apply Hkeep. unfold toggle_resume. destruct (pg_nodes p !! nid'); [|done].
      case_match; [|done]. match goal with x : value * value |- _ => destruct x end. simpl. by rewrite lookup_insert_ne.
  - apply Hkeep. unfold delete_resume. by destruct r.
Qed.

Lemma api_complete_result a : (api_complete a).1 = api_result a.
Proof. unfold api_complete. by destruct (api_result a). Qed.

Lemma answer_nodes rid a p nid nd u :
  wf_page p -> (forall pd, pg_pending p !! rid = Some pd -> served pd a) ->
  pg_nodes p !! nid = Some nd -> nd_task nd = task_value u ->
  exists nd' c, pg_nodes (answer date_parse rid a p) !! nid = Some nd' /\
    nd_task nd' = task_value (with_completed c u).
Proof.
  intros Hwf Hs Hnd Ht. unfold answer. destruct (pg_pending p !! rid) as [pd|] eqn:E.
  - assert (tr_complete a = api_complete a) as -> by reflexivity.
    pose proof (api_complete_result a) as Hres. destruct (api_complete a) as [r fx]. simpl in Hres.
    apply (resume_nodes pd r _ nid nd u); [|simpl|exact Hnd|exact Ht].
    + intros v ->. by apply (served_result pd a v (Hs pd eq_refl)).
    + destruct (decide (nid < pg_next_node p)) as [|Hge]; [done|].
      rewrite (wf_nodes_fresh p Hwf nid) in Hnd by lia. discriminate.
  - exists nd, (tk_completed u). by rewrite with_completed_self.
Qed.

Lemma not_in_keys rid (q : list (nat * fetch_answer)) x : rid ∉ q.*1 -> x ∈ q -> x.1 <> rid.
Proof. intros Hn Hx E. apply Hn. rewrite <- E. apply list_elem_of_fmap. by exists x. Qed.

Lemma answers_frame p p' q :
  (forall x, x ∈ q -> pg_pending p' !! x.1 = pg_pending p !! x.1) ->
  Forall (fun x => exists pd, pg_pending p !! x.1 = Some pd /\ served pd x.2) q ->
  Forall (fun x => exists pd, pg_pending p' !! x.1 = Some pd /\ served pd x.2) q.
Proof.
  intros E Hq. rewrite List.Forall_forall in Hq |- *. intros x Hx.
  rewrite E by (by apply list_elem_of_In). by apply Hq.
Qed.

Lemma answers_after rid a p q :
  rid ∉ q.*1 -> Forall (fun x => exists pd, pg_pending p !! x.1 = Some pd /\ served pd x.2) q ->
  Forall (fun x => exists pd, pg_pending (answer date_parse rid a p) !! x.1 = Some pd /\ served pd x.2) q.
Proof.
  intros Hrid. apply answers_frame. intros x Hx. rewrite answer_pending_all, lookup_delete_ne; [done|].
  intros E. by apply (not_in_keys rid q x Hrid Hx).
Qed.

Lemma flush_nodes q p nid nd u :
  reachable date_parse p -> NoDup q.*1 ->
  Forall (fun x => exists pd, pg_pending p !! x.1 = Some pd /\ served pd x.2) q ->
  pg_nodes p !! nid = Some nd -> nd_task nd = task_value u ->
  exists nd' c, pg_nodes (flush date_parse q p) !! nid = Some nd' /\
    nd_task nd' = task_value (with_completed c u).
Proof.
  revert p nd u. induction q as [|[rid a] q IH]; intros p nd u Hr Hnd Hq Hn Ht; simpl.
  { exists nd, (tk_completed u). by rewrite with_completed_self. }
  simpl in Hnd. apply NoDup_cons in Hnd as [Hrid Hnd]. apply Forall_cons in Hq as [[pd [Hpd Hs]] Hq].
  simpl in Hpd. destruct (answer_nodes rid a p nid nd u (wf_reachable date_parse p Hr)) as (nd1 & c1 & Hn1 & Ht1);
    [intros pd' Hpd'; rewrite Hpd in Hpd'; by injection Hpd' as <-|done|done|].
  destruct (IH (answer date_parse rid a p) nd1 (with_completed c1 u)) as (nd' & c & Hn' & Ht');
    [by apply answer_reachable|done| |done|done|].
  - by apply answers_after.
  - by exists nd', c.
Qed.

(** The page's nodes hold task objects of the resource's shape. *)
Lemma tasks_ok_nodes p p' : pg_nodes p' = pg_nodes p -> tasks_ok p -> tasks_ok p'.
Proof. intros E H nid nd. rewrite E. apply H. Qed.

Lemma tasks_ok_insert p p' nid nd' t :
  pg_nodes p' = <[nid := nd']> (pg_nodes p) -> nd_task nd' = task_value t -> tasks_ok p -> tasks_ok p'.
Proof.
  intros E Ht Hp m nd H. rewrite E in H. destruct (decide (m = nid)) as [->|Hne].
  - rewrite lookup_insert_eq in H. injection H as <-. by exists t.
  - rewrite lookup_insert_ne in H by congruence. by apply (Hp m).
Qed.

Lemma render_all_tasks ts p :
  Forall (fun v => exists u, v = task_value u) ts -> tasks_ok p -> tasks_ok (render_all ts p).
Proof.
  revert p. induction ts as [|t ts IH]; intros p Hts Hp; simpl; [done|].
  apply Forall_cons in Hts as [[u ->] Hts].
  destruct (create_task_node (task_value u)) as [nd|e] eqn:E; [|by apply (tasks_ok_nodes p)].
  apply IH; [done|]. apply (tasks_ok_insert p _ (pg_next_node p) nd u); [done| |done].
  exact (create_task_node_task _ _ E).
Qed.

Lemma resume_tasks pd r p :
  (forall v, r = Done v -> shaped pd v) -> tasks_ok p -> tasks_ok (resume date_parse pd r p).
Proof.
  intros Hr Hp. destruct pd as [| |nid|nid]; cbn [resume].
  - unfold load_resume. destruct r as [v|e]; [|by apply (tasks_ok_nodes p)].
    destruct (Hr v eq_refl) as [us ->]. case_match; [by apply (tasks_ok_nodes p)|].
    rewrite sort_tasks_objects by apply tasks_objects.
    apply render_all_tasks; [|by apply (tasks_ok_nodes p)].
    apply List.Forall_forall. intros v Hv.
    apply (Permutation_in _ (Permutation_sym (js_sort_perm (created_at_key date_parse) _))) in Hv.
    apply in_map_iff in Hv as (u & <- & _). by exists u.
  - unfold add_resume. destruct (r ≫= create_task_node) as [nd|e] eqn:E; [|by apply (tasks_ok_nodes p)].
    apply bind_eq_Done in E as (v & -> & Hc). destruct (Hr v eq_refl) as [t ->].
    apply (tasks_ok_insert p _ (pg_next_node p) nd t); [done| |done]. exact (create_task_node_task _ _ Hc).
  - destruct (pg_nodes p !! nid) as [nd|] eqn:Hnd; [|unfold toggle_resume; by rewrite Hnd].
    destruct (Hp nid nd Hnd) as [u Hu]. destruct r as [v|e].
    + destruct (Hr v eq_refl) as [t ->]. destruct (toggle_resume_task p nid nd u t Hnd Hu) as (nd' & -> & Ht).
      by apply (tasks_ok_insert p _ nid nd' (with_completed (tk_completed t) u)).
    + apply (tasks_ok_nodes p); [|done]. unfold toggle_resume. by rewrite Hnd.
  - apply (tasks_ok_nodes p); [|done]. unfold delete_resume. by destruct r.
Qed.

Lemma answer_tasks rid a p :
  (forall pd, pg_pending p !! rid = Some pd -> served pd a) -> tasks_ok p -> tasks_ok (answer date_parse rid a p).
Proof.
  intros Hs Hp. unfold answer. destruct (pg_pending p !! rid) as [pd|] eqn:E; [|done].
  assert (tr_complete a = api_complete a) as -> by reflexivity.
  pose proof (api_complete_result a) as Hres. destruct (api_complete a) as [r fx]. simpl in Hres.
  apply resume_tasks; [|done]. intros v ->. by apply (served_result pd a v (Hs pd eq_refl)).
Qed.

End Flush.

(** ** The settled page stays consistent with the resource *)

Section Invariant.
Variable date_parse : string -> option Z.

Lemma fifo_ok_deliver s : fifo_ok date_parse s -> nt_queue s <> [] -> fifo_ok date_parse (net_deliver date_parse s).
Proof.
  destruct s as [p sv [|[rid a] q]]; [done|]. intros [Hr [Hnd [Hq Ha]] Ht Hc] _. cbn in *.
  apply NoDup_cons in Hnd as [Hrid Hnd]. apply Forall_cons in Ha as [(pd & Hpd & Hs) Ha].
  split; cbn [nt_page nt_queue nt_server].
  - eapply reach_step; [exact Hr|]. constructor. by eexists.
  - split; [done|]. split; [|by apply answers_after].
    intros r. rewrite answer_pending_all. destruct (decide (r = rid)) as [->|Hne].
    + rewrite lookup_delete_eq. split; [by intros []|done].
    + rewrite lookup_delete_ne by congruence. rewrite Hq, elem_of_cons. naive_solver.
  - apply answer_tasks; [|done]. intros pd' Hpd'. simpl in Hpd. rewrite Hpd in Hpd'. by injection Hpd' as <-.
  - exact Hc.
Qed.

(** A user event that sends no request. *)
Lemma fifo_quiet p p' sv q :
  fifo_ok date_parse {| nt_page := p; nt_server := sv; nt_queue := q |} -> step date_parse p p' ->
  pg_next_req p' = pg_next_req p -> pg_pending p' = pg_pending p -> same_state p p' ->
  fifo_ok date_parse (send p p' sv q).
Proof.
  intros [Hr Hq Ht Hc] Hst Hreq Hpd Hs. unfold send, posted. rewrite Hreq, Nat.ltb_irrefl.
  cbn in *. split; cbn [nt_page nt_queue nt_server].
  - by eapply reach_step.
  - unfold queue_ok. by rewrite Hpd.
  - apply (tasks_ok_nodes p); [|done]. by destruct Hs as [[_ Hn] _].
  - unfold settled. apply (consistent_same date_parse (flush date_parse q p)); [|exact Hc].
    apply (flush_frame date_parse q p p' Hs). intros x _. by rewrite Hpd.
Qed.

(** A user event that sends a request: the answer the resource queues is
    the one of the round from the settled page. *)
Lemma fifo_send p p1 path o pd sv q :
  fifo_ok date_parse {| nt_page := p; nt_server := sv; nt_queue := q |} ->
  step date_parse p (issue path o pd p1) ->
  pg_next_req p1 = pg_next_req p -> pg_pending p1 = pg_pending p -> same_state p p1 ->
  round_ok date_parse pd path o (settled date_parse {| nt_page := p; nt_server := sv; nt_queue := q |}) sv ->
  fifo_ok date_parse (send p (issue path o pd p1) sv q).
Proof.
  intros [Hr [Hnd [Hq Ha]] Ht Hc] Hst Hreq Hpd Hs [Hserved Hround]. cbn in *.
  unfold settled in Hround. cbn [nt_page nt_queue] in Hround. rewrite flush_next_req in Hround.
  assert (Hfresh : pg_next_req p ∉ q.*1).
  { intros Hin. apply Hq in Hin. rewrite (wf_pending_fresh p (wf_reachable date_parse p Hr)) in Hin by lia.
    by destruct Hin. }
  assert (pg_next_req (issue path o pd p1) = S (pg_next_req p)) as Hn1 by (simpl; by rewrite Hreq).
  assert (last (pg_log (issue path o pd p1)) = Some (EFetch (pg_next_req p) (api_request path o))) as Hl1
    by (simpl; by rewrite last_snoc, Hreq).
  unfold send, posted. rewrite Hn1, Hl1, (proj2 (Nat.ltb_lt _ _)) by lia.
  assert (Hp1 : pg_pending (issue path o pd p1) = <[pg_next_req p := pd]> (pg_pending p))
    by (simpl; by rewrite Hreq, Hpd).
  assert (Hk : (q ++ [(pg_next_req p, (serve sv (api_request path o)).2)]).*1 = q.*1 ++ [pg_next_req p])
    by (by rewrite fmap_app).
  split; cbn [nt_page nt_queue nt_server].
  - by eapply reach_step.
  - split; [|split].
    + rewrite Hk. apply NoDup_app. split; [done|]. split; [|apply NoDup_singleton].
      intros r Hr1 Hr2. apply list_elem_of_singleton in Hr2 as ->. done.
    + intros r. rewrite Hk, elem_of_app, list_elem_of_singleton, Hp1.
      destruct (decide (r = pg_next_req p)) as [->|Hne].
      * rewrite lookup_insert_eq. split; [by right|by eexists].
      * rewrite lookup_insert_ne, Hq by congruence. naive_solver.
    + apply Forall_app. split.
      * apply (answers_frame p); [|exact Ha]. intros x Hx.
        rewrite Hp1, lookup_insert_ne; [done|]. intros E. by apply (not_in_keys _ q x Hfresh Hx).
      * constructor; [|constructor]. exists pd. split; [|exact Hserved]. cbn [fst]. by rewrite Hp1, lookup_insert_eq.
  - apply (tasks_ok_nodes p); [|done]. by destruct Hs as [[_ Hn] _].
  - unfold settled. cbn [nt_page nt_queue nt_server]. rewrite flush_app. cbn [fst snd].
    eapply consistent_same; [|exact Hround]. apply answer_frame.
    + apply (same_state_trans _ (flush date_parse q p)); [frame_tac|].
      apply (flush_frame date_parse q p (issue path o pd p1)); [by apply (same_state_trans _ p1); [|frame_tac]|].
      intros x Hx. rewrite Hp1, lookup_insert_ne; [done|]. intros E.
      by apply (not_in_keys _ q x Hfresh Hx).
    + rewrite flush_pending_notin by done. rewrite Hp1, lookup_insert_eq. simpl.
      by rewrite flush_next_req, lookup_insert_eq.
Qed.

Lemma settled_wf s : fifo_ok date_parse s -> wf_page (settled date_parse s).
Proof. intros Hok. apply (wf_reachable date_parse), flush_reachable, (fo_reach _ _ Hok). Qed.

(** The node behind a row the user clicks, on the page the user sees and
    on the settled page: the same task but for [completed]. *)
Lemma clicked_node p sv q nid :
  fifo_ok date_parse {| nt_page := p; nt_server := sv; nt_queue := q |} -> ChTask nid ∈ pg_children p ->
  exists nd u ndD c, pg_nodes p !! nid = Some nd /\ nd_task nd = task_value u /\
    pg_nodes (settled date_parse {| nt_page := p; nt_server := sv; nt_queue := q |}) !! nid = Some ndD /\
    nd_task ndD = task_value (with_completed c u).
Proof.
  intros [Hr [Hnd [Hq Ha]] Ht Hc] Hin. cbn in *.
  destruct (wf_rows p (wf_reachable date_parse p Hr) nid Hin) as [nd Hn].
  destruct (Ht nid nd Hn) as [u Hu].
  destruct (flush_nodes date_parse q p nid nd u Hr Hnd Ha Hn Hu) as (ndD & c & HnD & HuD).
  by exists nd, u, ndD, c.
Qed.

Lemma fifo_add_start p sv q :
  fifo_ok date_parse {| nt_page := p; nt_server := sv; nt_queue := q |} ->
  fifo_ok date_parse (send p (add_start p) sv q).
Proof.
  intros Hok. assert (Hst : step date_parse p (add_start p)) by constructor.
  unfold add_start in Hst |- *. destruct (String.eqb _ _).
  - apply fifo_quiet; [done|done|done|done|frame_tac].
  - apply fifo_send; [done|done|done|done|frame_tac|].
    apply round_add; [by apply (settled_wf {| nt_page := p; nt_server := sv; nt_queue := q |})|].
    apply (fo_settled _ _ Hok).
Qed.

Lemma fifo_toggle p sv q nid :
  fifo_ok date_parse {| nt_page := p; nt_server := sv; nt_queue := q |} -> ChTask nid ∈ pg_children p ->
  fifo_ok date_parse (send p (toggle_start nid p) sv q).
Proof.
  intros Hok Hin. assert (Hst : step date_parse p (toggle_start nid p)) by (by constructor).
  destruct (clicked_node p sv q nid Hok Hin) as (nd & u & ndD & c & Hn & Hu & HnD & HuD).
  rewrite (toggle_start_task p nid nd u Hn Hu) in Hst |- *.
  apply fifo_send; [done|done|done|done|frame_tac|].
  apply (round_toggle date_parse _ sv nid ndD (with_completed c u) (negb (tk_completed u)));
    [by apply (settled_wf {| nt_page := p; nt_server := sv; nt_queue := q |})|apply (fo_settled _ _ Hok)|done|done].
Qed.

Lemma fifo_delete p sv q nid b :
  fifo_ok date_parse {| nt_page := p; nt_server := sv; nt_queue := q |} -> ChTask nid ∈ pg_children p ->
  fifo_ok date_parse (send p (delete_start nid b p) sv q).
Proof.
  intros Hok Hin. assert (Hst : step date_parse p (delete_start nid b p)) by (by constructor).
  destruct (clicked_node p sv q nid Hok Hin) as (nd & u & ndD & c & Hn & Hu & HnD & HuD).
  rewrite (delete_start_task p nid nd u b Hn Hu) in Hst |- *.
  destruct b; [|apply fifo_quiet; [done|done|done|done|frame_tac]].
  apply fifo_send; [done|done|done|done|frame_tac|].
  apply (round_delete date_parse _ sv nid ndD (with_completed c u));
    [by apply (settled_wf {| nt_page := p; nt_server := sv; nt_queue := q |})|apply (fo_settled _ _ Hok)|done|done].
Qed.

Lemma fifo_ok_user ev s :
  fifo_ok date_parse s -> user_event ev = true -> enabled ev (nt_page s) = true ->
  fifo_ok date_parse (net_user date_parse ev s).
Proof.
  destruct s as [p sv q]. intros Hok Hu Hen. unfold net_user. cbn [nt_page nt_server nt_queue] in *.
  destruct ev as [s'| |key|nid|nid b|rid a]; cbn [dispatch enabled user_event] in *; try discriminate.
  - apply fifo_quiet; [done|constructor|done|done|frame_tac].
  - by apply fifo_add_start.
  - assert (Hst : step date_parse p (keydown key p)) by constructor.
    unfold keydown in Hst |- *. destruct (String.eqb key "Enter"); [by apply fifo_add_start|].
    apply fifo_quiet; [done|done|done|done|frame_tac].
  - apply bool_decide_eq_true in Hen. by apply fifo_toggle.
  - apply bool_decide_eq_true in Hen. by apply fifo_delete.
Qed.

Lemma fifo_ok_start sv : server_ok date_parse sv -> fifo_ok date_parse (net_start sv).
Proof.
  intros Hso. destruct (round_load date_parse sv Hso) as [Hserved Hc].
  unfold net_start. change (startup init_page) with (issue "" no_options PLoad (set_children (show_placeholder PhLoading) init_page)).
  unfold send, posted. cbn. split; cbn [nt_page nt_queue nt_server].
  - apply reach_start.
  - split; [repeat constructor; set_solver|split].
    + intros r. cbn. destruct (decide (r = 0)) as [->|Hne].
      * rewrite lookup_insert_eq. split; [intros _; by left|by eexists].
      * rewrite lookup_insert_ne, lookup_empty by congruence. split; [by intros []|].
        intros Hr. apply elem_of_cons in Hr as [->|Hr]; [done|by apply elem_of_nil in Hr].
    + constructor; [|constructor]. exists PLoad. cbn. by rewrite lookup_insert_eq.
  - intros nid nd H. cbn in H. by rewrite lookup_empty in H.
  - exact Hc.
Qed.

Lemma fifo_reachable_ok s : fifo_reachable date_parse s -> fifo_ok date_parse s.
Proof.
  induction 1 as [sv Hso|s s' _ IH Hst]; [by apply fifo_ok_start|].
  destruct Hst as [ev s Hu Hen|s Hne]; [by apply fifo_ok_user|by apply fifo_ok_deliver].
Qed.

End Invariant.

(** ** Delivering every answer *)

Section Drain.
Variable date_parse : string -> option Z.

Lemma deliver_all p sv q :
  rtc (fifo_step date_parse) {| nt_page := p; nt_server := sv; nt_queue := q |}
    {| nt_page := flush date_parse q p; nt_server := sv; nt_queue := [] |}.
Proof.
  revert p. induction q as [|[rid a] q IH]; intros p; [done|].
  eapply rtc_l; [apply fifo_deliver; simpl; done|]. apply IH.
Qed.

Lemma fifo_reachable_rtc s s' :
  fifo_reachable date_parse s -> rtc (fifo_step date_parse) s s' -> fifo_reachable date_parse s'.
Proof. intros Hr Hs. induction Hs as [|s1 s2 s3 Hst _ IH]; [done|]. apply IH. by eapply fifo_next. Qed.

Lemma quiet_pending p q : queue_ok p q -> q = [] -> pg_pending p = ∅.
Proof.
  intros (_ & Hq & _) ->. apply map_eq. intros rid. rewrite lookup_empty.
  destruct (pg_pending p !! rid) eqn:E; [|done]. exfalso.
  assert (rid ∈ ([] : list (nat * fetch_answer)).*1) as Hin by (apply Hq; by eexists).
  by apply elem_of_nil in Hin.
Qed.

End Drain.

Lemma fifo_run_reachable date_parse evs s :
  fifo_reachable date_parse s -> fifo_reachable date_parse (fifo_run date_parse evs s).
Proof.
  revert s. induction evs as [|[ev|] evs IH]; intros s Hr; simpl; [done| |].
  - apply IH. destruct (user_event ev && enabled ev (nt_page s)) eqn:E; [|done].
    apply andb_true_iff in E as [Hu Hen]. eapply fifo_next; [exact Hr|]. by constructor.
  - apply IH. destruct (nt_queue s) eqn:E.
    + unfold net_deliver. by rewrite E.
    + eapply fifo_next; [exact Hr|]. constructor. by rewrite E.
Qed.

(** C31: invariant.  Over a reliable network that keeps the order of
    requests and of answers, the user acting at any time on the page
    shown, in every reachable state the page the queued answers lead to
    is consistent with the resource: its rows are the resource's tasks,
    newest first, every node the page created holds a task the resource
    created, and a node no longer shown holds a task the resource no
    longer has; the resource keeps distinct ids and increasing
    timestamps. *)
Theorem fifo_settled_consistent date_parse s :
  fifo_reachable date_parse s -> consistent date_parse (settled date_parse s) (nt_server s).
Proof. intros Hr. apply (fo_settled _ _ (fifo_reachable_ok date_parse s Hr)). Qed.

(** C30: eventual consistency.  From every reachable state of the
    in-order network, delivering the answers on their way (steps of the
    system) reaches a state with no request in flight whose rows show
    exactly the resource's tasks, newest first. *)
Theorem fifo_eventually_consistent date_parse s :
  fifo_reachable date_parse s ->
  exists s', rtc (fifo_step date_parse) s s' /\ pg_pending (nt_page s') = ∅ /\
    (registry_of (nt_page s')).*2 = rev (map task_value (sv_tasks (nt_server s'))).
Proof.
  intros Hr. destruct s as [p sv q]. pose proof (deliver_all date_parse p sv q) as Hd.
  eexists. split; [exact Hd|].
  pose proof (fifo_reachable_ok date_parse _ (fifo_reachable_rtc date_parse _ _ Hr Hd)) as [_ Hq _ [_ Hv _]].
  split; [by eapply quiet_pending|]. cbn in *. rewrite <- map_rev. by apply view_snd.
Qed.

(** The session over the in-order network: the page the user sees still
    shows both tasks, the second being deleted and the first not yet
    completed; delivering the answers shows what the resource holds, the
    first task completed (both PUTs carried [completed: true]). *)
Example fifo_session_views :
  let s := fifo_run (js_date_parse utc_only no_fallback) fifo_session
             (net_start empty_resource) in
  (registry_of (nt_page s)).*2 =
    [task_value {| tk_id := 2; tk_title := "eggs"; tk_completed := false; tk_created := "2024-03-02T09:00:00.000Z" |};
     task_value {| tk_id := 1; tk_title := "milk"; tk_completed := false; tk_created := "2024-03-01T09:00:00.000Z" |}] /\
  (registry_of (settled (js_date_parse utc_only no_fallback) s)).*2 =
    [task_value {| tk_id := 1; tk_title := "milk"; tk_completed := true; tk_created := "2024-03-01T09:00:00.000Z" |}] /\
  map task_value (sv_tasks (nt_server s)) =
    [task_value {| tk_id := 1; tk_title := "milk"; tk_completed := true; tk_created := "2024-03-01T09:00:00.000Z" |}].
Proof. vm_compute. repeat split. Qed.

Lemma fifo_settled_consistent_witness :
  fifo_reachable (js_date_parse utc_only no_fallback)
    (fifo_run (js_date_parse utc_only no_fallback) fifo_session
       (net_start empty_resource)) /\
  consistent (js_date_parse utc_only no_fallback)
    (settled (js_date_parse utc_only no_fallback)
       (fifo_run (js_date_parse utc_only no_fallback) fifo_session
          (net_start empty_resource)))
    (nt_server (fifo_run (js_date_parse utc_only no_fallback) fifo_session
       (net_start empty_resource))).
Proof.
  assert (Hr : fifo_reachable (js_date_parse utc_only no_fallback)
    (fifo_run (js_date_parse utc_only no_fallback) fifo_session
       (net_start empty_resource)))
    by (apply fifo_run_reachable, fifo_start; split; simpl; repeat constructor).
  split; [exact Hr|]. exact (fifo_settled_consistent _ _ Hr).
Defined.

Lemma fifo_eventually_consistent_witness :
  fifo_reachable (js_date_parse utc_only no_fallback)
    (fifo_run (js_date_parse utc_only no_fallback) fifo_session
       (net_start empty_resource)) /\
  exists s', rtc (fifo_step (js_date_parse utc_only no_fallback))
    (fifo_run (js_date_parse utc_only no_fallback) fifo_session
       (net_start empty_resource)) s' /\
    pg_pending (nt_page s') = ∅ /\
    (registry_of (nt_page s')).*2 = rev (map task_value (sv_tasks (nt_server s'))).
Proof.
  assert (Hr : fifo_reachable (js_date_parse utc_only no_fallback)
    (fifo_run (js_date_parse utc_only no_fallback) fifo_session
       (net_start empty_resource)))
    by (apply fifo_run_reachable, fifo_start; split; simpl; repeat constructor).
  split; [exact Hr|]. exact (fifo_eventually_consistent _ _ Hr).
Defined.

End Fifo.
