(* ===== verification/Race.v ===== *)
(** * The client against the resource over a network that reorders

  Section 5 of the specification: "outcomes race with no ordering
  guarantee".  Here the network may serve the requests in flight in any
  order and deliver their answers in any order.  [rc_wire] holds the
  requests sent but not yet served.  [rc_back] holds the answers
  computed but not yet delivered.  [Fifo] shows that an in-order
  network keeps the page consistent with the resource.  This file shows
  that reordering alone breaks it.  The user types a title and adds it
  while the start-up load is in flight.  The resource serves the POST
  first, then the GET, whose answer already lists the new task.  The
  GET's answer arrives first and the page renders the task.  The POST's
  answer then inserts it a second time.  With nothing left in flight,
  the page shows two rows for the resource's single task. *)

From S2P Require Import Prelude JsString JsValue Json JsonParse Dates Sort IsoDate Transport Server View Handlers Session Refinement Progress Requests Consistency Sync Fifo.
From stdpp Require Import gmap.
Local Open Scope todo_scope.

Module Race.
Import JsString JsValue Json JsonParse Dates Sort IsoDate Transport Server View Handlers Session Refinement Progress Requests Consistency Sync Fifo.

Record race := {
  rc_page : page;
  rc_server : server;
  rc_wire : gmap nat request;
  rc_back : gmap nat fetch_answer
}.

(** A step of the system: a user event, the resource serving one request
    on the wire, or the page receiving one answer. *)
Inductive race_event : Type :=
| RUser (ev : event)
| RServe (rid : nat)
| RDeliver (rid : nat).

(** The page after [p'] and the requests on the wire, with the one the
    page sent, if it sent one. *)
Definition race_send (p p' : page) (sv : server) (w : gmap nat request) (b : gmap nat fetch_answer) : race :=
  match posted p p' with
  | Some (rid, rq) => {| rc_page := p'; rc_server := sv; rc_wire := <[rid := rq]> w; rc_back := b |}
  | None => {| rc_page := p'; rc_server := sv; rc_wire := w; rc_back := b |}
  end.

Definition race_start (sv : server) : race := race_send init_page (startup init_page) sv ∅ ∅.

Definition race_serve (rid : nat) (s : race) : race :=
  match rc_wire s !! rid with
  | Some rq =>
      {| rc_page := rc_page s; rc_server := (serve (rc_server s) rq).1; rc_wire := delete rid (rc_wire s);
         rc_back := <[rid := (serve (rc_server s) rq).2]> (rc_back s) |}
  | None => s
  end.

Section Race.
Variable date_parse : string -> option Z.

Definition race_user (ev : event) (s : race) : race :=
  race_send (rc_page s) (dispatch date_parse ev (rc_page s)) (rc_server s) (rc_wire s) (rc_back s).

Definition race_deliver (rid : nat) (s : race) : race :=
  match rc_back s !! rid with
  | Some a =>
      {| rc_page := answer date_parse rid a (rc_page s); rc_server := rc_server s; rc_wire := rc_wire s;
         rc_back := delete rid (rc_back s) |}
  | None => s
  end.

Inductive race_step : race -> race -> Prop :=
| race_step_user ev s : user_event ev = true -> enabled ev (rc_page s) = true -> race_step s (race_user ev s)
| race_step_serve rid s : is_Some (rc_wire s !! rid) -> race_step s (race_serve rid s)
| race_step_deliver rid s : is_Some (rc_back s !! rid) -> race_step s (race_deliver rid s).

Inductive race_reachable : race -> Prop :=
| race_init sv : server_ok date_parse sv -> race_reachable (race_start sv)
| race_next s s' : race_reachable s -> race_step s s' -> race_reachable s'.

(** A run of the system, skipping the steps that cannot happen. *)
Fixpoint race_run (evs : list race_event) (s : race) : race :=
  match evs with
  | [] => s
  | RUser ev :: evs' => race_run evs' (if user_event ev && enabled ev (rc_page s) then race_user ev s else s)
  | RServe rid :: evs' => race_run evs' (race_serve rid s)
  | RDeliver rid :: evs' => race_run evs' (race_deliver rid s)
  end.

End Race.

(** Add "milk" while the start-up load is in flight; the resource serves
    the POST (request 1) before the GET (request 0), and the GET's answer
    reaches the page first. *)
Definition add_during_load : list race_event :=
  [RUser (EvType "milk"); RUser EvClickAdd; RServe 1; RServe 0; RDeliver 0; RDeliver 1]%string.

Definition raced : race :=
  race_run (js_date_parse utc_only no_fallback) add_during_load (race_start empty_resource).

(** ** Runs are reachable *)

Lemma race_run_reachable date_parse evs s :
  race_reachable date_parse s -> race_reachable date_parse (race_run date_parse evs s).
Proof.
  revert s. induction evs as [|[ev|rid|rid] evs IH]; intros s Hr; simpl; [done| | |]; apply IH.
  - destruct (user_event ev && enabled ev (rc_page s)) eqn:E; [|done].
    apply andb_true_iff in E as [Hu Hen]. eapply race_next; [exact Hr|]. by constructor.
  - destruct (rc_wire s !! rid) eqn:E; [|unfold race_serve; by rewrite E].
    eapply race_next; [exact Hr|]. constructor. by rewrite E.
  - destruct (rc_back s !! rid) eqn:E; [|unfold race_deliver; by rewrite E].
    eapply race_next; [exact Hr|]. constructor. by rewrite E.
Qed.

Lemma raced_reachable : race_reachable (js_date_parse utc_only no_fallback) raced.
Proof. apply race_run_reachable, race_init. split; simpl; repeat constructor. Qed.

Example raced_state :
  pg_pending (rc_page raced) = ∅ /\ rc_wire raced = ∅ /\ rc_back raced = ∅ /\
  registry_of (rc_page raced) =
    [(1, task_value {| tk_id := 1; tk_title := "milk"; tk_completed := false;
                       tk_created := "2024-03-01T09:00:00.000Z" |});
     (0, task_value {| tk_id := 1; tk_title := "milk"; tk_completed := false;
                       tk_created := "2024-03-01T09:00:00.000Z" |})]%string /\
  map task_value (sv_tasks (rc_server raced)) =
    [task_value {| tk_id := 1; tk_title := "milk"; tk_completed := false;
                   tk_created := "2024-03-01T09:00:00.000Z" |}]%string.
Proof. vm_compute. repeat split. Qed.

(** C32: when the network reorders, adding a task during the start-up
    load can leave the page, once every request has settled, showing two
    rows for the resource's one task: the load renders the task the
    POST created before the GET was served, and the POST's answer
    inserts it again.  No state of the in-order network shows this
    ([Fifo.fifo_eventually_consistent]). *)
Theorem race_duplicate_row :
  exists s, race_reachable (js_date_parse utc_only no_fallback) s /\
    pg_pending (rc_page s) = ∅ /\ rc_wire s = ∅ /\ rc_back s = ∅ /\
    exists n1 n2 v, n1 <> n2 /\ (n1, v) ∈ registry_of (rc_page s) /\ (n2, v) ∈ registry_of (rc_page s) /\
      map task_value (sv_tasks (rc_server s)) = [v].
Proof.
  exists raced. destruct raced_state as (Hp & Hw & Hb & Hreg & Hsv).
  split; [exact raced_reachable|]. split; [done|]. split; [done|]. split; [done|].
  rewrite Hreg, Hsv. eexists 1, 0, _. split; [done|]. split; [apply elem_of_cons; by left|].
  split; [apply elem_of_cons; right; apply elem_of_cons; by left|done].
Qed.

End Race.
